(** * aws-monitoring: the orchestration core, embedded and verified

    A shallow embedding of the scheduler, the retrying collection wrapper
    with its circuit breaker, the collector registry and the health
    aggregator of the aws-monitoring agent, together with the properties
    its design document states about them.

    Conventions of the embedding:
    - a Go [map[string]T] is a [gmap string T]; a nil map is [None];
    - Go string-based enumerations ([type Status string], [type ErrorType
      string]) stay strings, and a [switch] over them is a cascade of
      decided equalities ending in the [default] branch;
    - [time.Time] and [time.Duration] are integers counting nanoseconds;
      every reading of the wall clock is an explicit argument [now];
    - a pointer that may be nil is an [option];
    - a float64 that is only stored and passed on is kept as its IEEE 754
      bit pattern;
    - logging has no effect on the values computed and is left out. *)

From stdpp Require Import gmap strings list fin_maps pretty.
From Stdlib Require Import ZArith Lia.

(** ** Package time: instants, durations and 64-bit arithmetic *)

Module time.
Local Open Scope Z_scope.

(** A [Duration] is an int64 count of nanoseconds; an instant is its
    Unix time in nanoseconds (what [UnixNano] returns). *)
Definition Duration := Z.
Definition Time := Z.

Definition Nanosecond : Duration := 1.
Definition Millisecond : Duration := 1000000.
Definition Second : Duration := 1000000000.
Definition Minute : Duration := 60 * Second.

Definition minDuration : Duration := - 2 ^ 63.
Definition maxDuration : Duration := 2 ^ 63 - 1.

(** Two's-complement wrap-around of int64 arithmetic. *)
Definition wrap64 (z : Z) : Z := (z + 2 ^ 63) mod 2 ^ 64 - 2 ^ 63.

(** The zero [time.Time] (January 1, year 1), as Unix nanoseconds. *)
Definition zeroTime : Time := -62135596800 * Second.

(** [t.Sub(u)]: the difference, saturated to the range of [Duration]. *)
Definition Sub (t u : Time) : Duration :=
  Z.max minDuration (Z.min maxDuration (t - u)).

(** [time.Since(t)], the clock reading [now] made explicit. *)
Definition Since (now t : Time) : Duration := Sub now t.

(** [t.After(u)]. *)
Definition After (t u : Time) : bool := bool_decide (u < t).

(** [t.Add(d)]. *)
Definition Add (t : Time) (d : Duration) : Time := t + d.

End time.

(** ** Package math: float64 values *)

Module math.
Local Open Scope Z_scope.

(** A float64, known by its bit pattern ([math.Float64bits]). *)
Definition float64 := Z.

(** The float64 1.0. *)
Definition one : float64 := 4607182418800017408.

End math.

(** ** Package strings: the two functions the retry policy uses *)

Module strings.

(** [strings.Contains(s, substr)] on byte strings. *)
Fixpoint Contains (s substr : string) : bool :=
  if String.prefix substr s then true
  else match s with
       | EmptyString => false
       | String _ s' => Contains s' substr
       end.

Definition lowerByte (c : Ascii.ascii) : Ascii.ascii :=
  let n := Ascii.nat_of_ascii c in
  if bool_decide (65 ≤ n ≤ 90)%nat then Ascii.ascii_of_nat (n + 32) else c.

(** [strings.ToLower(s)] on ASCII text: the bytes [A]-[Z] are mapped to
    [a]-[z], every other byte is kept. (Go also folds the case of
    non-ASCII runes; error messages are taken to be ASCII.) *)
Fixpoint ToLower (s : string) : string :=
  match s with
  | EmptyString => EmptyString
  | String c s' => String (lowerByte c) (ToLower s')
  end.

End strings.

(** ** Package errors: the classified error *)

Module errors.

(** [type ErrorType string]. *)
Definition ErrorType := string.
Definition ErrorTypeAWS : ErrorType := "aws".
Definition ErrorTypeConfig : ErrorType := "config".
Definition ErrorTypeNetwork : ErrorType := "network".
Definition ErrorTypeValidation : ErrorType := "validation".
Definition ErrorTypeInternal : ErrorType := "internal".
Definition ErrorTypeTimeout : ErrorType := "timeout".
Definition ErrorTypePermission : ErrorType := "permission".
Definition ErrorTypeRateLimit : ErrorType := "rate_limit".

(** [type Severity string]. *)
Definition Severity := string.
Definition SeverityLow : Severity := "low".
Definition SeverityMedium : Severity := "medium".
Definition SeverityHigh : Severity := "high".
Definition SeverityCritical : Severity := "critical".

(** [Error]. The field [Type] is spelt [Type_]; a wrapped cause is kept
    as its message; the time stamp, the captured stack trace and the
    free-form metadata are left out. *)
Record Error := mkError {
  Type_ : ErrorType;
  Code : string;
  Message : string;
  Severity_ : Severity;
  Operation : string;
  Region : string;
  Service : string;
  Cause : option string;
  Retryable : bool;
  RetryAfter : option time.Duration
}.

(** A value of Go's interface [error]: one of our classified errors or
    any other error, known by its message. *)
Inductive error :=
| Classified (e : Error)
| Foreign (msg : string).

(** [New]. *)
Definition New (errorType : ErrorType) (code message : string) : Error :=
  mkError errorType code message SeverityMedium "" "" "" None false None.

(** [Wrap], for a non-nil [err]. *)
Definition Wrap (err : error) (errorType : ErrorType) (code message : string) : Error :=
  match err with
  | Classified e =>
      mkError
        (if decide (Type_ e = "") then errorType else Type_ e)
        (if decide (Code e = "") then code else Code e)
        (if decide (message = "") then Message e else message +:+ ": " +:+ Message e)
        (Severity_ e) (Operation e) (Region e) (Service e) (Cause e)
        (Retryable e) (RetryAfter e)
  | Foreign msg =>
      mkError errorType code message SeverityMedium "" "" "" (Some msg) false None
  end.

Definition WithSeverity (err : Error) (severity : Severity) : Error :=
  mkError (Type_ err) (Code err) (Message err) severity (Operation err)
          (Region err) (Service err) (Cause err) (Retryable err) (RetryAfter err).

Definition WithRetryable (err : Error) (retryable : bool) : Error :=
  mkError (Type_ err) (Code err) (Message err) (Severity_ err) (Operation err)
          (Region err) (Service err) (Cause err) retryable (RetryAfter err).

Definition WithOperation (err : Error) (operation : string) : Error :=
  mkError (Type_ err) (Code err) (Message err) (Severity_ err) operation
          (Region err) (Service err) (Cause err) (Retryable err) (RetryAfter err).

Definition WithRegion (err : Error) (region : string) : Error :=
  mkError (Type_ err) (Code err) (Message err) (Severity_ err) (Operation err)
          region (Service err) (Cause err) (Retryable err) (RetryAfter err).

Definition WithRetryAfter (err : Error) (duration : time.Duration) : Error :=
  mkError (Type_ err) (Code err) (Message err) (Severity_ err) (Operation err)
          (Region err) (Service err) (Cause err) (Retryable err) (Some duration).

(** The constructors the core uses. *)
Definition NewNetworkError (code message : string) : Error :=
  WithRetryable (New ErrorTypeNetwork code message) true.

Definition NewValidationError (code message : string) : Error :=
  New ErrorTypeValidation code message.

Definition NewConfigError (code message : string) : Error :=
  WithSeverity (New ErrorTypeConfig code message) SeverityCritical.

Definition NewRateLimitError (retryAfter : time.Duration) : Error :=
  WithRetryable
    (WithRetryAfter (New ErrorTypeRateLimit "RATE_LIMIT" "rate limit exceeded") retryAfter)
    true.

Definition NewPermissionError (operation resource : string) : Error :=
  WithSeverity
    (WithOperation
       (New ErrorTypePermission "ACCESS_DENIED"
            ("insufficient permissions for resource: " +:+ resource))
       operation)
    SeverityHigh.

(** [GetRetryAfter], on a classified error. *)
Definition GetRetryAfter (err : Error) : option time.Duration := RetryAfter err.

End errors.

(** ** Package health: the aggregator's reduction rule *)

Module health.

(** [type Status string] with its four declared constants. *)
Definition Status := string.
Definition StatusHealthy : Status := "healthy".
Definition StatusUnhealthy : Status := "unhealthy".
Definition StatusDegraded : Status := "degraded".
Definition StatusUnknown : Status := "unknown".

(** [CheckResult]; the time stamps and the free-form metadata do not
    take part in the reduction. *)
Record CheckResult := mkCheckResult {
  cr_Name : string;
  cr_Status : Status;
  cr_Message : string;
  cr_Error : string
}.

(** The four counters of [aggregateStatus]. *)
Record statusCounts := mkCounts {
  healthyCount : nat;
  unhealthyCount : nat;
  degradedCount : nat;
  unknownCount : nat
}.

Definition noCounts : statusCounts := mkCounts 0 0 0 0.

(** The body of the [switch result.Status]: a status that is none of the
    four constants bumps no counter. *)
Definition countStatus (result : CheckResult) (c : statusCounts) : statusCounts :=
  if decide (cr_Status result = StatusHealthy) then
    mkCounts (S (healthyCount c)) (unhealthyCount c) (degradedCount c) (unknownCount c)
  else if decide (cr_Status result = StatusUnhealthy) then
    mkCounts (healthyCount c) (S (unhealthyCount c)) (degradedCount c) (unknownCount c)
  else if decide (cr_Status result = StatusDegraded) then
    mkCounts (healthyCount c) (unhealthyCount c) (S (degradedCount c)) (unknownCount c)
  else if decide (cr_Status result = StatusUnknown) then
    mkCounts (healthyCount c) (unhealthyCount c) (degradedCount c) (S (unknownCount c))
  else c.

(** [generateSummary]. *)
Definition generateSummary (healthy unhealthy degraded unknown total : nat) : string :=
  if decide (total = 1) then
    if decide (healthy = 1) then "All systems operational"
    else if decide (unhealthy = 1) then "System experiencing issues"
    else if decide (degraded = 1) then "System performance degraded"
    else "System status unknown"
  else if decide (0 < unhealthy) then
    pretty unhealthy +:+ " of " +:+ pretty total +:+ " checks failing"
  else if decide (0 < degraded) then
    pretty degraded +:+ " of " +:+ pretty total +:+ " checks degraded"
  else if decide (0 < unknown ∧ 0 < healthy) then
    pretty healthy +:+ " of " +:+ pretty total +:+ " checks healthy, "
      +:+ pretty unknown +:+ " unknown"
  else if decide (healthy = total) then "All systems operational"
  else
    pretty total +:+ " checks total: " +:+ pretty healthy +:+ " healthy, "
      +:+ pretty degraded +:+ " degraded, " +:+ pretty unhealthy +:+ " unhealthy, "
      +:+ pretty unknown +:+ " unknown".

(** [Manager.aggregateStatus]. The [range] over the map only adds to the
    counters, so the iteration order is immaterial; it is a fold. *)
Definition aggregateStatus (checks : gmap string CheckResult) : Status * string :=
  if decide (size checks = 0) then (StatusUnknown, "No health checks configured")
  else
    let c := map_fold (λ _ result acc, countStatus result acc) noCounts checks in
    let totalChecks := size checks in
    let summary :=
      generateSummary (healthyCount c) (unhealthyCount c) (degradedCount c)
                      (unknownCount c) totalChecks in
    if decide (0 < unhealthyCount c) then (StatusUnhealthy, summary)
    else if decide (0 < degradedCount c) then (StatusDegraded, summary)
    else if decide (unknownCount c = totalChecks) then (StatusUnknown, summary)
    else if decide (healthyCount c = totalChecks) then (StatusHealthy, summary)
    else if decide (0 < healthyCount c) then (StatusDegraded, summary)
    else (StatusUnknown, summary).

(** What [GetHealth] keeps of the manager: the result map it copies and
    the reduction it stores in the snapshot. *)
Record OverallHealth := mkOverallHealth {
  oh_Status : Status;
  oh_Checks : gmap string CheckResult;
  oh_Summary : string
}.

Definition GetHealth (results : gmap string CheckResult) : OverallHealth :=
  let r := aggregateStatus results in
  mkOverallHealth (fst r) results (snd r).

(** *** The rule as the design document words it *)

Definition hasStatus (s : Status) : string → CheckResult → Prop :=
  λ _ result, cr_Status result = s.

#[export] Instance hasStatus_dec s k result : Decision (hasStatus s k result) :=
  decide (cr_Status result = s).

Definition anyCheck (s : Status) (checks : gmap string CheckResult) : Prop :=
  map_Exists (hasStatus s) checks.

Definition allChecks (s : Status) (checks : gmap string CheckResult) : Prop :=
  map_Forall (hasStatus s) checks.

(** Every result carries one of the four declared statuses. *)
Definition declaredStatus (s : Status) : Prop :=
  s = StatusHealthy ∨ s = StatusUnhealthy ∨ s = StatusDegraded ∨ s = StatusUnknown.

Definition declaredChecks (checks : gmap string CheckResult) : Prop :=
  map_Forall (λ _ result, declaredStatus (cr_Status result)) checks.

#[export] Instance anyCheck_dec s checks : Decision (anyCheck s checks).
Proof. unfold anyCheck. apply _. Defined.

#[export] Instance allChecks_dec s checks : Decision (allChecks s checks).
Proof. unfold allChecks. apply _. Defined.

#[export] Instance declaredStatus_dec s : Decision (declaredStatus s).
Proof. unfold declaredStatus. apply _. Defined.

#[export] Instance declaredChecks_dec checks : Decision (declaredChecks checks).
Proof. unfold declaredChecks. apply _. Defined.

(** The reduction rule, step by step as the design document lists it:
    no checks; any unhealthy; else any degraded; else all unknown; else
    all healthy; else a mix of unknown with at least one healthy; and the
    defensive fallback. *)
Definition reductionRule (checks : gmap string CheckResult) : Status :=
  if decide (checks = ∅) then StatusUnknown
  else if decide (anyCheck StatusUnhealthy checks) then StatusUnhealthy
  else if decide (anyCheck StatusDegraded checks) then StatusDegraded
  else if decide (allChecks StatusUnknown checks) then StatusUnknown
  else if decide (allChecks StatusHealthy checks) then StatusHealthy
  else if decide (anyCheck StatusUnknown checks ∧ anyCheck StatusHealthy checks)
    then StatusDegraded
  else StatusUnknown.

(** A check map to try the rule on: [{A: unknown, B: healthy}]. *)
Definition mixedChecks : gmap string CheckResult :=
  <["A" := mkCheckResult "A" StatusUnknown "" ""]>
    (<["B" := mkCheckResult "B" StatusHealthy "" ""]> ∅).

(** The set of statuses occurring in a check map is exactly [{s1, s2}]. *)
Definition statusesAre (s1 s2 : Status) (checks : gmap string CheckResult) : Prop :=
  anyCheck s1 checks ∧ anyCheck s2 checks ∧
  map_Forall (λ _ result, cr_Status result = s1 ∨ cr_Status result = s2) checks.

(** *** The manager's checker table *)

(** The interface [Checker], as far as the manager's bookkeeping goes: the
    name a checker registers under. What [Check] returns is decided by the
    outside world and is an argument of [RunChecks]. *)
Class Checker (C : Type) := {
  checkerName : C → string
}.

(** [Manager]: the checker table, the result table and the running flag. *)
Record Manager (C : Type) := mkManager {
  checkers : gmap string C;
  results : gmap string CheckResult;
  running : bool
}.
Arguments mkManager {C}.
Arguments checkers {C}.
Arguments results {C}.
Arguments running {C}.

(** [NewManager]. *)
Definition NewManager {C} : Manager C := mkManager ∅ ∅ false.

(** [RegisterChecker]. *)
Definition RegisterChecker {C} `{!Checker C} (m : Manager C) (checker : C) : Manager C :=
  mkManager (<[checkerName checker := checker]> (checkers m)) (results m) (running m).

(** [UnregisterChecker]. *)
Definition UnregisterChecker {C} (m : Manager C) (name : string) : Manager C :=
  match checkers m !! name with
  | Some _ => mkManager (delete name (checkers m)) (delete name (results m)) (running m)
  | None => m
  end.

(** [RunChecks]. Every checker runs in a goroutine of its own; [check]
    says what its [Check] returns, or [None] when the result is dropped
    because the context is done before it is sent; [arrival] lists the
    keys of the checker table in the order in which the results come out
    of the channel. Each result is stored under the name it carries. *)
Definition RunChecks {C} (check : C → option CheckResult) (arrival : list string)
    (m : Manager C) : Manager C :=
  if decide (size (checkers m) = 0) then m
  else
    mkManager (checkers m)
      (foldl (λ results k,
                match checkers m !! k with
                | Some c =>
                    match check c with
                    | Some result => <[cr_Name result := result]> results
                    | None => results
                    end
                | None => results
                end)
             (results m) arrival)
      (running m).

(** [Manager.Start], [Manager.Stop] and [IsRunning], without the
    background loop the first one launches. Both return at once when the
    flag already has the value they would give it. *)
Definition ManagerStart {C} (m : Manager C) : Manager C :=
  if running m then m else mkManager (checkers m) (results m) true.

Definition ManagerStop {C} (m : Manager C) : Manager C :=
  if running m then mkManager (checkers m) (results m) false else m.

Definition IsRunning {C} (m : Manager C) : bool := running m.

(** *** The HTTP surface *)

(** The status codes of package [net/http] the server uses. *)
Definition StatusOK : Z := 200.
Definition StatusMethodNotAllowed : Z := 405.
Definition StatusInternalServerError : Z := 500.
Definition StatusServiceUnavailable : Z := 503.

(** [Server.statusToHTTPCode]. *)
Definition statusToHTTPCode (status : Status) : Z :=
  if decide (status = StatusHealthy) then StatusOK
  else if decide (status = StatusDegraded) then StatusOK
  else if decide (status = StatusUnhealthy) then StatusServiceUnavailable
  else if decide (status = StatusUnknown) then StatusServiceUnavailable
  else StatusInternalServerError.

(** [Server.handleHealth] and [Server.handleDetailedHealth]: the status
    code written for a request with the given method, the manager holding
    the given results. The two handlers differ in the body only. *)
Definition handleHealth (method : string) (results : gmap string CheckResult) : Z :=
  if decide (method = "GET") then statusToHTTPCode (oh_Status (GetHealth results))
  else StatusMethodNotAllowed.

(** [Server.handleReadiness]: the status code written. *)
Definition handleReadiness (method : string) (results : gmap string CheckResult) : Z :=
  if decide (method = "GET") then
    let ready := bool_decide (oh_Status (GetHealth results) ≠ StatusUnhealthy) in
    if ready then StatusOK else StatusServiceUnavailable
  else StatusMethodNotAllowed.

(** [Server.handleLiveness]: the status code written. *)
Definition handleLiveness (method : string) : Z :=
  if decide (method = "GET") then StatusOK else StatusMethodNotAllowed.

(** *** The built-in checkers *)

(** [AWSChecker.Check]: [regions] is the configured list of enabled
    regions, [reachable] says for which of them [checkRegion] returns
    "healthy". A region listed twice is probed and counted twice. *)
Definition AWSCheck (name : string) (regions : list string) (reachable : string → bool)
    : CheckResult :=
  if decide (length regions = 0) then
    mkCheckResult name StatusDegraded "No AWS regions enabled" ""
  else
    let healthyRegions := length (filter (λ region, reachable region = true) regions) in
    let totalRegions := length regions in
    if decide (healthyRegions = 0) then
      mkCheckResult name StatusUnhealthy "No AWS regions accessible"
                    "All configured AWS regions are unreachable"
    else if decide (healthyRegions = totalRegions) then
      mkCheckResult name StatusHealthy
                    ("All " +:+ pretty totalRegions +:+ " AWS regions accessible") ""
    else
      mkCheckResult name StatusDegraded
                    (pretty healthyRegions +:+ " of " +:+ pretty totalRegions
                       +:+ " AWS regions accessible") "".

(** What [ConfigChecker.Check] reads of the configuration. *)
Record CheckedConfig := mkCheckedConfig {
  cfg_EnabledRegions : list string;
  cfg_CollectorEndpoint : string;
  cfg_ServiceName : string;
  cfg_EC2 : bool;
  cfg_RDS : bool;
  cfg_S3 : bool;
  cfg_Lambda : bool;
  cfg_EBS : bool;
  cfg_ELB : bool;
  cfg_VPC : bool
}.

(** The local [anyEnabled] of [ConfigChecker.Check]. *)
Definition anyEnabled (cfg : CheckedConfig) : bool :=
  cfg_EC2 cfg || cfg_RDS cfg || cfg_S3 cfg || cfg_Lambda cfg
  || cfg_EBS cfg || cfg_ELB cfg || cfg_VPC cfg.

(** The issues [ConfigChecker.Check] collects, in its order. *)
Definition configIssues (cfg : CheckedConfig) : list string :=
  (if decide (length (cfg_EnabledRegions cfg) = 0) then ["no regions enabled"] else [])
  ++ (if decide (cfg_CollectorEndpoint cfg = "")
      then ["OTEL collector endpoint not configured"] else [])
  ++ (if decide (cfg_ServiceName cfg = "")
      then ["OTEL service name not configured"] else [])
  ++ (if anyEnabled cfg then [] else ["no metrics collectors enabled"]).

(** How many of the four things [ConfigChecker.Check] looks at are
    wrong. *)
Definition configFaults (cfg : CheckedConfig) : nat :=
  Nat.b2n (bool_decide (cfg_EnabledRegions cfg = []))
  + Nat.b2n (bool_decide (cfg_CollectorEndpoint cfg = ""))
  + Nat.b2n (bool_decide (cfg_ServiceName cfg = ""))
  + Nat.b2n (negb (anyEnabled cfg)).

(** How [fmt] prints a slice of strings under [%v]. *)
Definition formatStrings (l : list string) : string :=
  "[" +:+ String.concat " " l +:+ "]".

(** [ConfigChecker.Check]. *)
Definition ConfigCheck (name : string) (cfg : CheckedConfig) : CheckResult :=
  let issues := configIssues cfg in
  if decide (length issues = 0) then
    mkCheckResult name StatusHealthy "Configuration is valid" ""
  else if decide (length issues ≤ 2) then
    mkCheckResult name StatusDegraded
                  ("Configuration has minor issues: " +:+ formatStrings issues) ""
  else
    mkCheckResult name StatusUnhealthy
                  ("Configuration has significant issues: " +:+ formatStrings issues)
                  ("Configuration validation failed: " +:+ formatStrings issues).

(** [BasicChecker.Check]. *)
Definition BasicCheck (service : string) : CheckResult :=
  mkCheckResult "basic" StatusHealthy (service +:+ " is running") "".

(** The three checkers of the package, each with the name its
    constructor gives it, and what their [Check] returns; [reachable]
    stands for the answers of the AWS regions. *)
Inductive BuiltinChecker :=
| AWSChecker (regions : list string)
| BasicChecker (service : string)
| ConfigChecker (cfg : CheckedConfig).

#[export] Instance BuiltinChecker_Checker : Checker BuiltinChecker := {
  checkerName c :=
    match c with
    | AWSChecker _ => "aws_connectivity"
    | BasicChecker _ => "basic"
    | ConfigChecker _ => "configuration"
    end
}.

Definition builtinCheck (reachable : string → bool) (c : BuiltinChecker) : CheckResult :=
  match c with
  | AWSChecker regions => AWSCheck "aws_connectivity" regions reachable
  | BasicChecker service => BasicCheck service
  | ConfigChecker cfg => ConfigCheck "configuration" cfg
  end.

(** The manager as [main] wires it: the basic checker, then the
    configuration checker and the AWS checker over the same
    configuration, registered on a new manager. *)
Definition wiredManager (cfg : CheckedConfig) : Manager BuiltinChecker :=
  RegisterChecker
    (RegisterChecker (RegisterChecker NewManager (BasicChecker "aws-monitor"))
                     (ConfigChecker cfg))
    (AWSChecker (cfg_EnabledRegions cfg)).

(** A configuration with nothing wrong and one with everything wrong. *)
Definition soundConfig : CheckedConfig :=
  mkCheckedConfig ["us-east-1"; "eu-west-1"] "localhost:4317" "aws-monitor"
                  true false false false false false false.

Definition blankConfig : CheckedConfig :=
  mkCheckedConfig [] "" "" false false false false false false false.

End health.

(** ** Package collectors: metrics, retry policy, circuit breaker, registry *)

Module collectors.
Local Open Scope Z_scope.

(** *** Data *)

(** [MetricData]. *)
Record MetricData := mkMetricData {
  md_Name : string;
  md_Value : math.float64;
  md_Unit : string;
  md_Timestamp : time.Time;
  md_Labels : gmap string string;
  md_Description : string
}.

(** [CollectionResult]. [Metadata] holds the two integer entries the
    wrapper writes; the duration is not modelled. *)
Record CollectionResult := mkCollectionResult {
  CollectorName : string;
  Region : string;
  Metrics : list MetricData;
  CollectionTime : time.Time;
  Error : option errors.Error;
  Warnings : list errors.Error;
  Metadata : gmap string Z
}.

(** [type CollectorStatus string]. *)
Definition CollectorStatus := string.
Definition StatusStarting : CollectorStatus := "starting".
Definition StatusRunning : CollectorStatus := "running".
Definition StatusStopping : CollectorStatus := "stopping".
Definition StatusStopped : CollectorStatus := "stopped".
Definition StatusError : CollectorStatus := "error".

(** [CollectorConfig]. Ranging over a nil [CustomTags] map is ranging
    over the empty map. *)
Record CollectorConfig := mkCollectorConfig {
  Enabled : bool;
  Interval : time.Duration;
  Timeout : time.Duration;
  Retries : Z;
  RetryDelay : time.Duration;
  EnabledRegions : list string;
  MetricFilters : list string;
  CustomTags : gmap string string
}.

Definition DefaultCollectorConfig : CollectorConfig :=
  mkCollectorConfig true (5 * time.Minute) (30 * time.Second) 3 (10 * time.Second) [] [] ∅.

(** *** The default retry policy *)

(** [DefaultErrorHandler]. *)
Record DefaultErrorHandler := mkDefaultErrorHandler {
  maxRetries : Z;
  baseDelay : time.Duration
}.

Definition NewDefaultErrorHandler : DefaultErrorHandler :=
  mkDefaultErrorHandler 3 time.Second.

Definition retryableAWSCodes : list string :=
  [ "InternalError"; "InternalFailure"; "ServiceUnavailable"; "Throttling";
    "ThrottlingException"; "RequestLimitExceeded"; "RequestTimeout";
    "RequestTimeoutException"; "PriorRequestNotComplete"; "ConnectionError";
    "NetworkError"; "DNSError"; "TimeoutError"; "RequestExpired";
    "ServiceTemporarilyUnavailable" ].

Definition retryablePatterns : list string :=
  [ "connection reset"; "connection timeout"; "connection refused";
    "no such host"; "network is unreachable"; "temporary failure";
    "service temporarily unavailable"; "internal server error";
    "bad gateway"; "gateway timeout" ].

(** [shouldRetryAWSError]. *)
Definition shouldRetryAWSError (err : errors.Error) : bool :=
  existsb (λ code, strings.Contains (errors.Code err) code
                   || strings.Contains (errors.Message err) code)
          retryableAWSCodes
  || existsb (λ pattern, strings.Contains (strings.ToLower (errors.Message err)) pattern)
             retryablePatterns.

Definition retryableInternalCodes : list string :=
  [ "CONTEXT_CANCELLED"; "TIMEOUT"; "NETWORK_ERROR"; "TEMPORARY_FAILURE" ].

(** [shouldRetryInternalError]. *)
Definition shouldRetryInternalError (err : errors.Error) : bool :=
  existsb (λ code, bool_decide (errors.Code err = code)) retryableInternalCodes.

(** [DefaultErrorHandler.ShouldRetry]; [err] may be nil. *)
Definition ShouldRetry (eh : DefaultErrorHandler) (err : option errors.Error)
    (attempt : Z) : bool :=
  match err with
  | None => false
  | Some err =>
      if bool_decide (attempt >= maxRetries eh) then false
      else if errors.Retryable err then true
      else if decide (errors.Type_ err = errors.ErrorTypeAWS) then shouldRetryAWSError err
      else if decide (errors.Type_ err = errors.ErrorTypeNetwork) then true
      else if decide (errors.Type_ err = errors.ErrorTypeTimeout) then true
      else if decide (errors.Type_ err = errors.ErrorTypeRateLimit) then true
      else if decide (errors.Type_ err = errors.ErrorTypePermission) then false
      else if decide (errors.Type_ err = errors.ErrorTypeConfig) then false
      else if decide (errors.Type_ err = errors.ErrorTypeValidation) then false
      else if decide (errors.Type_ err = errors.ErrorTypeInternal) then
        shouldRetryInternalError err
      else false
  end.

(** What a call of [GetRetryDelay] can do: return a delay, die of the
    run-time panic of an integer remainder by zero, or leave the range
    in which float64 arithmetic is exact and its conversion to int64 is
    defined by the language. *)
Inductive delayResult :=
| Delay (d : time.Duration)
| DivideByZero
| OutOfRange.

(** [time.Duration(float64(baseDelay) * math.Pow(2, float64(attempt)))].
    A [baseDelay] below 2^53 is a float64; scaling it by a power of two
    is exact, and the conversion truncates towards zero. A product that
    does not fit int64 converts to an implementation-dependent value. *)
Definition expBackoff (baseDelay : time.Duration) (attempt : Z) : option time.Duration :=
  if bool_decide (0 ≤ baseDelay < 2 ^ 53 ∧ -1000 ≤ attempt ≤ 1000) then
    if bool_decide (0 ≤ attempt) then
      if bool_decide (baseDelay * 2 ^ attempt < 2 ^ 63)
      then Some (baseDelay * 2 ^ attempt) else None
    else Some (baseDelay ÷ 2 ^ (- attempt))
  else None.

Definition maxDelay : time.Duration := 30 * time.Second.
Definition minDelay : time.Duration := 100 * time.Millisecond.

(** [DefaultErrorHandler.GetRetryDelay]; [now] is the reading
    [time.Now().UnixNano()]. In [2*now%J - J] the product and the
    remainder bind first, the remainder takes the sign of the dividend,
    and [J = int64(float64(delay) * 0.25)] is a quarter of the delay,
    truncated. *)
Definition GetRetryDelay (eh : DefaultErrorHandler) (now : time.Time)
    (err : option errors.Error) (attempt : Z) : delayResult :=
  match err with
  | None => Delay (baseDelay eh)
  | Some err =>
      match errors.GetRetryAfter err with
      | Some retryAfter => Delay retryAfter
      | None =>
          match expBackoff (baseDelay eh) attempt with
          | None => OutOfRange
          | Some delay =>
              let jitter := delay ÷ 4 in
              if bool_decide (jitter = 0) then DivideByZero
              else
                let jitterAdjustment :=
                  time.wrap64 (Z.rem (time.wrap64 (2 * now)) jitter - jitter) in
                let delay := time.wrap64 (delay + jitterAdjustment) in
                let delay := if bool_decide (delay > maxDelay) then maxDelay else delay in
                let delay := if bool_decide (delay < minDelay) then minDelay else delay in
                Delay delay
          end
      end
  end.

(** *** The circuit breaker *)

(** [type CircuitBreakerState string]. *)
Definition CircuitBreakerState := string.
Definition CircuitBreakerClosed : CircuitBreakerState := "closed".
Definition CircuitBreakerOpen : CircuitBreakerState := "open".
Definition CircuitBreakerHalfOpen : CircuitBreakerState := "half_open".

(** [CircuitBreakerErrorHandler], the embedded default handler first. *)
Record CircuitBreakerErrorHandler := mkCircuitBreaker {
  cb_Default : DefaultErrorHandler;
  state : CircuitBreakerState;
  failureCount : Z;
  lastFailure : time.Time;
  successCount : Z;
  failureThreshold : Z;
  timeout : time.Duration;
  recoveryThreshold : Z
}.

Definition NewCircuitBreakerErrorHandler : CircuitBreakerErrorHandler :=
  mkCircuitBreaker (mkDefaultErrorHandler 3 time.Second)
                   CircuitBreakerClosed 0 time.zeroTime 0 5 (60 * time.Second) 3.

Definition openCircuit (cb : CircuitBreakerErrorHandler) : CircuitBreakerErrorHandler :=
  mkCircuitBreaker (cb_Default cb) CircuitBreakerOpen (failureCount cb) (lastFailure cb)
                   (successCount cb) (failureThreshold cb) (timeout cb) (recoveryThreshold cb).

Definition closeCircuit (cb : CircuitBreakerErrorHandler) : CircuitBreakerErrorHandler :=
  mkCircuitBreaker (cb_Default cb) CircuitBreakerClosed 0 (lastFailure cb)
                   0 (failureThreshold cb) (timeout cb) (recoveryThreshold cb).

Definition transitionToHalfOpen (cb : CircuitBreakerErrorHandler)
    : CircuitBreakerErrorHandler :=
  mkCircuitBreaker (cb_Default cb) CircuitBreakerHalfOpen (failureCount cb) (lastFailure cb)
                   0 (failureThreshold cb) (timeout cb) (recoveryThreshold cb).

(** [isCircuitOpen]: the answer and the breaker after the call. *)
Definition isCircuitOpen (now : time.Time) (cb : CircuitBreakerErrorHandler)
    : bool * CircuitBreakerErrorHandler :=
  if decide (state cb = CircuitBreakerOpen) then
    if bool_decide (time.Since now (lastFailure cb) > timeout cb)
    then (false, transitionToHalfOpen cb)
    else (true, cb)
  else (false, cb).

(** [CircuitBreakerErrorHandler.ShouldRetry]. *)
Definition cbShouldRetry (now : time.Time) (cb : CircuitBreakerErrorHandler)
    (err : option errors.Error) (attempt : Z) : bool * CircuitBreakerErrorHandler :=
  let '(isOpen, cb) := isCircuitOpen now cb in
  if isOpen then (false, cb)
  else (ShouldRetry (cb_Default cb) err attempt, cb).

(** [RecordSuccess]. *)
Definition RecordSuccess (cb : CircuitBreakerErrorHandler) : CircuitBreakerErrorHandler :=
  if decide (state cb = CircuitBreakerHalfOpen) then
    let cb := mkCircuitBreaker (cb_Default cb) (state cb) (failureCount cb) (lastFailure cb)
                               (successCount cb + 1) (failureThreshold cb) (timeout cb)
                               (recoveryThreshold cb) in
    if bool_decide (successCount cb >= recoveryThreshold cb) then closeCircuit cb else cb
  else if decide (state cb = CircuitBreakerOpen) then closeCircuit cb
  else if decide (state cb = CircuitBreakerClosed) then
    mkCircuitBreaker (cb_Default cb) (state cb) 0 (lastFailure cb)
                     (successCount cb) (failureThreshold cb) (timeout cb)
                     (recoveryThreshold cb)
  else cb.

(** [recordFailure]. *)
Definition recordFailure (now : time.Time) (cb : CircuitBreakerErrorHandler)
    : CircuitBreakerErrorHandler :=
  let cb := mkCircuitBreaker (cb_Default cb) (state cb) (failureCount cb) now
                             (successCount cb) (failureThreshold cb) (timeout cb)
                             (recoveryThreshold cb) in
  if decide (state cb = CircuitBreakerClosed) then
    let cb := mkCircuitBreaker (cb_Default cb) (state cb) (failureCount cb + 1)
                               (lastFailure cb) (successCount cb) (failureThreshold cb)
                               (timeout cb) (recoveryThreshold cb) in
    if bool_decide (failureCount cb >= failureThreshold cb) then openCircuit cb else cb
  else if decide (state cb = CircuitBreakerHalfOpen) then openCircuit cb
  else cb.

(** [CircuitBreakerErrorHandler.HandleError]: the default handling only
    logs; then the failure is recorded. *)
Definition cbHandleError (now : time.Time) (cb : CircuitBreakerErrorHandler)
    (collectorName : string) (err : option errors.Error) : CircuitBreakerErrorHandler :=
  recordFailure now cb.

(** What the user of a breaker does with it: record a failure (through
    [HandleError]), record a success, or ask whether to retry. *)
Inductive BreakerEvent :=
| FailureRecorded (now : time.Time)
| SuccessRecorded
| RetryRequested (now : time.Time) (err : option errors.Error) (attempt : Z).

Definition breakerStep (cb : CircuitBreakerErrorHandler) (ev : BreakerEvent)
    : CircuitBreakerErrorHandler :=
  match ev with
  | FailureRecorded now => cbHandleError now cb "" None
  | SuccessRecorded => RecordSuccess cb
  | RetryRequested now err attempt => snd (cbShouldRetry now cb err attempt)
  end.

Definition breakerRun (events : list BreakerEvent) (cb : CircuitBreakerErrorHandler)
    : CircuitBreakerErrorHandler :=
  fold_left breakerStep events cb.

(** The state machine of the design document. A state carries what its
    transitions count: closed, the consecutive failures; open, the time of
    the last recorded failure; half-open, the consecutive successes. *)
Inductive Phase :=
| Closed (failures : Z)
| Open (lastFailure : time.Time)
| HalfOpen (successes : Z).

(** The state a breaker is in, read off its fields. *)
Definition phaseOf (cb : CircuitBreakerErrorHandler) : option Phase :=
  if decide (state cb = CircuitBreakerClosed) then Some (Closed (failureCount cb))
  else if decide (state cb = CircuitBreakerOpen) then Some (Open (lastFailure cb))
  else if decide (state cb = CircuitBreakerHalfOpen) then Some (HalfOpen (successCount cb))
  else None.

(** A breaker with the thresholds of [NewCircuitBreakerErrorHandler] that
    is in the state [p] of the machine. *)
Definition inPhase (cb : CircuitBreakerErrorHandler) (p : Phase) : Prop :=
  cb_Default cb = mkDefaultErrorHandler 3 time.Second ∧
  failureThreshold cb = 5 ∧
  timeout cb = 60 * time.Second ∧
  recoveryThreshold cb = 3 ∧
  match p with
  | Closed failures => state cb = CircuitBreakerClosed ∧ failureCount cb = failures
  | Open last => state cb = CircuitBreakerOpen ∧ lastFailure cb = last
  | HalfOpen successes => state cb = CircuitBreakerHalfOpen ∧ successCount cb = successes
  end.

(** The transitions as the design document lists them, with the default
    thresholds: closed to open after 5 consecutive failures, a success
    while closed resetting the count; open to half-open at the first
    request made more than 60 seconds after the last recorded failure;
    half-open to closed after 3 consecutive successes; half-open to open
    on any failure. Nothing else moves the machine. *)
Definition statedStep (p : Phase) (ev : BreakerEvent) : Phase :=
  match p, ev with
  | Closed failures, FailureRecorded now =>
      if bool_decide (failures + 1 >= 5) then Open now else Closed (failures + 1)
  | Closed _, SuccessRecorded => Closed 0
  | Open _, FailureRecorded now => Open now
  | Open lastFailure, RetryRequested now _ _ =>
      if bool_decide (now - lastFailure > 60 * time.Second) then HalfOpen 0
      else Open lastFailure
  | HalfOpen successes, SuccessRecorded =>
      if bool_decide (successes + 1 >= 3) then Closed 0 else HalfOpen (successes + 1)
  | HalfOpen _, FailureRecorded now => Open now
  | p, _ => p
  end.

(** The same machine with the one transition the code has besides: a
    success recorded while open closes the circuit. *)
Definition breakerMachine (p : Phase) (ev : BreakerEvent) : Phase :=
  match p, ev with
  | Open _, SuccessRecorded => Closed 0
  | p, ev => statedStep p ev
  end.

(** Five failures in a row, then a success. *)
Definition fiveFailuresThenSuccess : list BreakerEvent :=
  [ FailureRecorded 1; FailureRecorded 2; FailureRecorded 3; FailureRecorded 4;
    FailureRecorded 5; SuccessRecorded ].

(** *** The interface [ErrorHandler] and its two implementations *)

Class ErrorHandler (H : Type) := {
  handleError : time.Time → H → string → option errors.Error → H;
  shouldRetry : time.Time → H → option errors.Error → Z → bool * H;
  getRetryDelay : time.Time → H → option errors.Error → Z → delayResult
}.

#[export] Instance DefaultErrorHandler_ErrorHandler : ErrorHandler DefaultErrorHandler := {
  handleError _ eh _ _ := eh;
  shouldRetry _ eh err attempt := (ShouldRetry eh err attempt, eh);
  getRetryDelay now eh err attempt := GetRetryDelay eh now err attempt
}.

#[export] Instance CircuitBreaker_ErrorHandler : ErrorHandler CircuitBreakerErrorHandler := {
  handleError := cbHandleError;
  shouldRetry := cbShouldRetry;
  getRetryDelay now cb err attempt := GetRetryDelay (cb_Default cb) now err attempt
}.

(** *** The base collector *)

(** [BaseCollector], over the type [H] of the error handler it holds. *)
Record BaseCollector (H : Type) := mkBaseCollector {
  name : string;
  description : string;
  collectorConfig : CollectorConfig;
  errorHandler : H;
  status : CollectorStatus;
  lastCollection : option time.Time;
  lastError : option errors.Error;
  metricsCollected : Z;
  errorCount : Z;
  successfulCollections : Z
}.
Arguments mkBaseCollector {H}.
Arguments name {H}.
Arguments description {H}.
Arguments collectorConfig {H}.
Arguments errorHandler {H}.
Arguments status {H}.
Arguments lastCollection {H}.
Arguments lastError {H}.
Arguments metricsCollected {H}.
Arguments errorCount {H}.
Arguments successfulCollections {H}.

(** [NewBaseCollector] installs the default handler. *)
Definition NewBaseCollector (name description : string) (collectorConfig : CollectorConfig)
    : BaseCollector DefaultErrorHandler :=
  mkBaseCollector name description collectorConfig NewDefaultErrorHandler
                  StatusStopped None None 0 0 0.

(** [SetErrorHandler]. *)
Definition SetErrorHandler {H H'} (bc : BaseCollector H) (handler : H') : BaseCollector H' :=
  mkBaseCollector (name bc) (description bc) (collectorConfig bc) handler (status bc)
                  (lastCollection bc) (lastError bc) (metricsCollected bc) (errorCount bc)
                  (successfulCollections bc).

(** [getCommonLabels]: the two fixed labels, then every custom tag
    stored over them. *)
Definition getCommonLabels {H} (bc : BaseCollector H) : gmap string string :=
  map_fold (λ k v labels, <[k := v]> labels)
           (<["service" := "aws-monitor"]> (<["collector" := name bc]> ∅))
           (CustomTags (collectorConfig bc)).

(** [CreateMetric]; the caller's [labels] may be the nil map. A common
    label is stored only under a key the caller's map lacks. *)
Definition CreateMetric {H} (bc : BaseCollector H) (now : time.Time)
    (name : string) (value : math.float64) (unit : string)
    (labels : option (gmap string string)) : MetricData :=
  let commonLabels := getCommonLabels bc in
  let labels :=
    match labels with
    | None => commonLabels
    | Some labels =>
        map_fold (λ k v labels,
                    match labels !! k with
                    | Some _ => labels
                    | None => <[k := v]> labels
                    end)
                 labels commonLabels
    end in
  mkMetricData name value unit now labels "".

(** [CreateMetricWithDescription]. *)
Definition CreateMetricWithDescription {H} (bc : BaseCollector H) (now : time.Time)
    (name : string) (value : math.float64) (unit description : string)
    (labels : option (gmap string string)) : MetricData :=
  let metric := CreateMetric bc now name value unit labels in
  mkMetricData (md_Name metric) (md_Value metric) (md_Unit metric) (md_Timestamp metric)
               (md_Labels metric) description.

Definition recordSuccess {H} (bc : BaseCollector H) : BaseCollector H :=
  mkBaseCollector (name bc) (description bc) (collectorConfig bc) (errorHandler bc) (status bc)
                  (lastCollection bc) (lastError bc) (metricsCollected bc) (errorCount bc)
                  (successfulCollections bc + 1).

Definition recordError {H} (bc : BaseCollector H) (err : errors.Error) : BaseCollector H :=
  mkBaseCollector (name bc) (description bc) (collectorConfig bc) (errorHandler bc) (status bc)
                  (lastCollection bc) (Some err) (metricsCollected bc) (errorCount bc + 1)
                  (successfulCollections bc).

Definition recordCollection {H} (bc : BaseCollector H) (now : time.Time) : BaseCollector H :=
  mkBaseCollector (name bc) (description bc) (collectorConfig bc) (errorHandler bc) (status bc)
                  (Some now) (lastError bc) (metricsCollected bc + 1) (errorCount bc)
                  (successfulCollections bc).

Definition withErrorHandler {H} (bc : BaseCollector H) (handler : H) : BaseCollector H :=
  SetErrorHandler bc handler.

(** *** CollectWithRetry *)

(** What the surroundings decide during one call: whether the context
    is found cancelled at the top of an attempt ([ctx.Err()], with the
    message of that error), whether the [select] of a back-off wait takes
    the [ctx.Done()] branch, and what the clock reads. All are indexed by
    the attempt number. *)
Record Surroundings := mkSurroundings {
  ctxErrAt : Z → option string;
  ctxDoneInBackoff : Z → time.Duration → option string;
  clockAt : Z → time.Time;
  clockStart : time.Time;
  clockEnd : time.Time
}.

(** The unit of work: what its call in a given attempt returns. Go
    functions return both values; the wrapper looks at the metrics only
    when the error is nil. *)
Definition CollectFunc := Z → string → list MetricData * option errors.error.

(** The mutable locals of the call, with the number of calls of the
    unit of work made so far. *)
Record Locals (H : Type) := mkLocals {
  result : CollectionResult;
  lastErr : option errors.Error;
  collector : BaseCollector H;
  calls : nat
}.
Arguments mkLocals {H}.
Arguments result {H}.
Arguments lastErr {H}.
Arguments collector {H}.
Arguments calls {H}.

(** How the [for] loop is left: at its end or by [break]; by the
    [return] inside the back-off wait; or because [GetRetryDelay] did not
    return a delay. *)
Inductive LoopExit (H : Type) :=
| LoopLeft (l : Locals H)
| Returned (l : Locals H)
| Aborted (why : delayResult).
Arguments LoopLeft {H}.
Arguments Returned {H}.
Arguments Aborted {H}.

Definition setError (r : CollectionResult) (e : errors.Error) : CollectionResult :=
  mkCollectionResult (CollectorName r) (Region r) (Metrics r) (CollectionTime r)
                     (Some e) (Warnings r) (Metadata r).

Definition setMetrics (r : CollectionResult) (metrics : list MetricData) : CollectionResult :=
  mkCollectionResult (CollectorName r) (Region r) metrics (CollectionTime r)
                     (Error r) (Warnings r) (Metadata r).

Definition setMetadata (r : CollectionResult) (key : string) (v : Z) : CollectionResult :=
  mkCollectionResult (CollectorName r) (Region r) (Metrics r) (CollectionTime r)
                     (Error r) (Warnings r) (<[key := v]> (Metadata r)).

Section Retry.
Context {H : Type} `{!ErrorHandler H}.
Variable env : Surroundings.
Variable region : string.
Variable collectFunc : CollectFunc.

(** The loop [for attempt := 0; attempt < Retries+1; attempt++]; [fuel]
    is the number of iterations the loop condition still admits. *)
Fixpoint attemptLoop (fuel : nat) (attempt : Z) (l : Locals H) : LoopExit H :=
  match fuel with
  | O => LoopLeft l
  | S fuel =>
      match ctxErrAt env attempt with
      | Some cause =>
          LoopLeft
            (mkLocals
               (setError (result l)
                  (errors.Wrap (errors.Foreign cause) errors.ErrorTypeInternal
                               "CONTEXT_CANCELLED" "collection cancelled"))
               (lastErr l) (collector l) (calls l))
      | None =>
          let '(metrics, err) := collectFunc attempt region in
          match err with
          | None =>
              LoopLeft
                (mkLocals (setMetrics (result l) metrics) (lastErr l)
                          (recordSuccess (collector l)) (S (calls l)))
          | Some err =>
              let e :=
                match err with
                | errors.Classified e => e
                | errors.Foreign _ =>
                    errors.Wrap err errors.ErrorTypeInternal
                                "COLLECTION_ERROR" "collection failed"
                end in
              let e := errors.WithRegion (errors.WithOperation e "collect") region in
              let '(retry, handler) :=
                shouldRetry (clockAt env attempt) (errorHandler (collector l))
                            (Some e) attempt in
              let l := mkLocals (result l) (Some e)
                                (withErrorHandler (collector l) handler) (S (calls l)) in
              if negb retry then LoopLeft l
              else if bool_decide (attempt < Retries (collectorConfig (collector l))) then
                match getRetryDelay (clockAt env attempt) handler (Some e) attempt with
                | Delay retryDelay =>
                    match ctxDoneInBackoff env attempt retryDelay with
                    | Some cause =>
                        let cancelled :=
                          errors.Wrap (errors.Foreign cause) errors.ErrorTypeInternal
                                      "CONTEXT_CANCELLED"
                                      "collection cancelled during retry" in
                        Returned
                          (mkLocals (setError (result l) cancelled) (lastErr l)
                                    (recordError (collector l) cancelled) (calls l))
                    | None => attemptLoop fuel (attempt + 1) l
                    end
                | why => Aborted why
                end
              else attemptLoop fuel (attempt + 1) l
          end
      end
  end.

(** What a call of [CollectWithRetry] leaves behind when it returns: the
    result, the collector with its counters and handler, and how often
    the unit of work was called. *)
Record Run := mkRun {
  returned : CollectionResult;
  collectorAfter : BaseCollector H;
  attemptsMade : nat
}.

(** The statements after the loop. *)
Definition afterLoop (l : Locals H) : Run :=
  let l :=
    match lastErr l with
    | Some e =>
        if bool_decide (length (Metrics (result l)) = 0%nat) then
          let bc := recordError (collector l) e in
          let handler :=
            handleError (clockEnd env) (errorHandler bc) (name bc) (Some e) in
          mkLocals (setError (result l) e) (lastErr l)
                   (withErrorHandler bc handler) (calls l)
        else l
    | None => l
    end in
  let bc := recordCollection (collector l) (clockEnd env) in
  let r := setMetadata (result l) "attempts" (Z.of_nat (length (Warnings (result l))) + 1) in
  let r :=
    match Error r with
    | Some _ => setMetadata r "attempts" (time.wrap64 (Retries (collectorConfig bc) + 1))
    | None => r
    end in
  let r := setMetadata r "metric_count" (Z.of_nat (length (Metrics r))) in
  mkRun r bc (calls l).

(** [BaseCollector.CollectWithRetry]: [None] when the call does not
    return because [GetRetryDelay] did not. *)
Definition CollectWithRetry (bc : BaseCollector H) : option Run :=
  let r := mkCollectionResult (name bc) region [] (clockStart env) None [] ∅ in
  let bound := time.wrap64 (Retries (collectorConfig bc) + 1) in
  match attemptLoop (Z.to_nat bound) 0 (mkLocals r None bc 0%nat) with
  | LoopLeft l => Some (afterLoop l)
  | Returned l => Some (mkRun (result l) (collector l) (calls l))
  | Aborted _ => None
  end.
End Retry.

(** A collector to try the wrapper on: named "ec2", two retries. *)
Definition ec2Collector : BaseCollector DefaultErrorHandler :=
  NewBaseCollector "ec2" "EC2 instances"
    (mkCollectorConfig true (5 * time.Minute) (30 * time.Second) 2
                       (10 * time.Millisecond) [] [] ∅).

(** Surroundings in which the context is never cancelled. *)
Definition quietSurroundings : Surroundings :=
  mkSurroundings (λ _, None) (λ _ _, None) (λ _, 0) 0 0.

(** A unit of work that fails with a network error in its first call and
    succeeds with no metrics from then on. *)
Definition failsThenEmpty : CollectFunc :=
  λ attempt _,
    if bool_decide (attempt = 0)
    then ([], Some (errors.Classified
                      (errors.NewNetworkError "CONNECTION_ERROR" "connection failed")))
    else ([], None).

(** *** The collector registry *)

(** The part of the interface [MetricCollector] the registry calls when
    a collector is registered. *)
Class MetricCollector (C : Type) := {
  Name : C → string;
  Description : C → string
}.

(** [CollectorRegistry.Register]: the error returned (nil is [None]) and
    the collector map after the call. The argument is an interface value
    and may be nil. *)
Definition Register {C} `{!MetricCollector C}
    (collectors : gmap string C) (collector : option C) : option string * gmap string C :=
  match collector with
  | None => (Some "collector cannot be nil", collectors)
  | Some c =>
      let name := Name c in
      if decide (name = "") then (Some "collector name cannot be empty", collectors)
      else
        match collectors !! name with
        | Some _ => (Some ("collector " +:+ name +:+ " already registered"), collectors)
        | None => (None, <[name := c]> collectors)
        end
  end.

(** [CollectorRegistry.Get]. *)
Definition Get {C} (collectors : gmap string C) (name : string) : option C :=
  collectors !! name.

(** [CollectorRegistry.Unregister]: the error returned and the map after
    the call. The collector found is stopped before it is deleted; that
    changes the collector, not the map. *)
Definition Unregister {C} (collectors : gmap string C) (name : string)
    : option string * gmap string C :=
  match collectors !! name with
  | None => (Some ("collector " +:+ name +:+ " not found"), collectors)
  | Some _ => (None, delete name collectors)
  end.

(** [CollectorRegistry.List], in the order [order] in which the [range]
    visits the keys. *)
Definition List {C} (collectors : gmap string C) (order : list string) : list C :=
  omap (λ k, collectors !! k) order.

(** *** The life cycle of the base collector *)

(** [getEnabledRegions]; [globalRegions] is the list [EnabledRegions] of
    the application configuration the collector points to. *)
Definition getEnabledRegions {H} (bc : BaseCollector H) (globalRegions : list string)
    : list string :=
  if bool_decide (0 < length (EnabledRegions (collectorConfig bc)))%nat
  then EnabledRegions (collectorConfig bc)
  else globalRegions.

(** [BaseCollector.validateConfig]. *)
Definition validateConfig {H} (bc : BaseCollector H) (globalRegions : list string)
    : option errors.Error :=
  if bool_decide (Interval (collectorConfig bc) ≤ 0) then
    Some (errors.NewConfigError "INVALID_INTERVAL" "collection interval must be positive")
  else if bool_decide (Timeout (collectorConfig bc) ≤ 0) then
    Some (errors.NewConfigError "INVALID_TIMEOUT" "collection timeout must be positive")
  else if bool_decide (Retries (collectorConfig bc) < 0) then
    Some (errors.NewConfigError "INVALID_RETRIES" "retries must be non-negative")
  else if bool_decide (length (getEnabledRegions bc globalRegions) = 0%nat) then
    Some (errors.NewConfigError "NO_REGIONS" "no regions enabled for collection")
  else None.

Definition withStatus {H} (bc : BaseCollector H) (status' : CollectorStatus)
    (lastError' : option errors.Error) : BaseCollector H :=
  mkBaseCollector (name bc) (description bc) (collectorConfig bc) (errorHandler bc) status'
                  (lastCollection bc) lastError' (metricsCollected bc) (errorCount bc)
                  (successfulCollections bc).

(** [BaseCollector.Start]: the error returned and the collector after the
    call. (The start time the call notes is not among the fields kept.) *)
Definition Start {H} (bc : BaseCollector H) (globalRegions : list string)
    : option errors.Error * BaseCollector H :=
  if decide (status bc = StatusRunning) then (None, bc)
  else
    match validateConfig bc globalRegions with
    | Some err => (Some err, withStatus bc StatusError (Some err))
    | None => (None, withStatus bc StatusRunning (lastError bc))
    end.

(** [BaseCollector.Stop]: it always returns nil; the collector after the
    call. *)
Definition Stop {H} (bc : BaseCollector H) : BaseCollector H :=
  if decide (status bc = StatusStopped) then bc
  else withStatus bc StatusStopped (lastError bc).

(** What [BaseCollector.Health] returns, a value of the interface [error]:
    nil; a pointer to a classified error, which is the field [lastError]
    and may itself be nil; or nothing the model can tell, when the
    counters leave the range in which the float64 quotient is decided by
    the integers. *)
Inductive HealthResult :=
| HealthNil
| HealthError (err : option errors.Error)
| HealthUnmodelled.

(** [BaseCollector.Health]. For counters [0 ≤ errorCount] and
    [0 < total < 2^53] both conversions to float64 are exact and the
    correctly rounded quotient exceeds 0.5 exactly when
    [2 * errorCount > total]. *)
Definition Health {H} (now : time.Time) (bc : BaseCollector H) : HealthResult :=
  if decide (status bc = StatusRunning) then
    let recent :=
      match lastCollection bc with
      | Some last =>
          bool_decide (time.Since now last
                       < time.wrap64 (2 * Interval (collectorConfig bc)))
      | None => false
      end in
    if recent then HealthNil
    else if bool_decide (successfulCollections bc > 0) then
      let total := time.wrap64 (successfulCollections bc + errorCount bc) in
      if bool_decide (0 ≤ errorCount bc ∧ 0 < total < 2 ^ 53) then
        if bool_decide (2 * errorCount bc > total) then
          HealthError (Some (errors.NewValidationError "HIGH_ERROR_RATE"
                                                       "collector has high error rate"))
        else HealthNil
      else HealthUnmodelled
    else HealthNil
  else if decide (status bc = StatusError) then HealthError (lastError bc)
  else if decide (status bc = StatusStopped) then
    HealthError (Some (errors.NewValidationError "COLLECTOR_STOPPED" "collector is stopped"))
  else
    HealthError (Some (errors.NewValidationError "COLLECTOR_NOT_READY"
                                                 "collector is not ready")).

(** A breaker has not been closed, and its failure count not touched,
    between [cb] and [cb']. *)
Definition notClosedSince (cb cb' : CircuitBreakerErrorHandler) : Prop :=
  (state cb ≠ CircuitBreakerClosed → state cb' ≠ CircuitBreakerClosed) ∧
  failureCount cb' = failureCount cb.

(** What the loop of [CollectWithRetry] leaves alone: the warnings and
    the metadata of the result, and the configuration, the status and the
    record of collections of the collector. *)
Definition sameFrame {H} (l l' : Locals H) : Prop :=
  Warnings (result l') = Warnings (result l) ∧
  Metadata (result l') = Metadata (result l) ∧
  collectorConfig (collector l') = collectorConfig (collector l) ∧
  status (collector l') = status (collector l) ∧
  lastCollection (collector l') = lastCollection (collector l) ∧
  metricsCollected (collector l') = metricsCollected (collector l).

(** The unit of work of the retry test: two network errors, then one
    metric. *)
Definition oneMetric : MetricData :=
  mkMetricData "retry_success_metric" math.one "Count" 0 ∅ "".

Definition failsTwiceThenOne : CollectFunc :=
  λ attempt _,
    if bool_decide (attempt < 2)
    then ([], Some (errors.Classified
                      (errors.NewNetworkError "CONNECTION_ERROR" "connection failed")))
    else ([oneMetric], None).

(** A unit of work that is throttled every time. *)
Definition alwaysThrottled : CollectFunc :=
  λ _ _, ([], Some (errors.Classified
                      (errors.NewNetworkError "THROTTLED" "Throttling: rate exceeded"))).

(** A unit of work that fails with an error of another package. *)
Definition failsForeign : CollectFunc :=
  λ _ _, ([], Some (errors.Foreign "unexpected EOF")).

(** Surroundings in which the context is cancelled from the start. *)
Definition cancelledSurroundings : Surroundings :=
  mkSurroundings (λ _, Some "context canceled") (λ _ _, Some "context canceled")
                 (λ _, 0) 0 0.

(** A collector configured with a retry count of -1. *)
Definition minusOneCollector : BaseCollector DefaultErrorHandler :=
  NewBaseCollector "ec2" "EC2 instances"
    (mkCollectorConfig true (5 * time.Minute) (30 * time.Second) (-1)
                       (10 * time.Millisecond) [] [] ∅).

(** The base collector as a [MetricCollector]: [Name] and [Description]
    return the two fields. *)
#[export] Instance BaseCollector_MetricCollector {H} : MetricCollector (BaseCollector H) := {
  Name := name;
  Description := description
}.

(** The collector of the examples, started. *)
Definition runningCollector : BaseCollector DefaultErrorHandler :=
  withStatus ec2Collector StatusRunning None.

(** A running collector that has succeeded once and failed three times,
    and has not collected lately. *)
Definition strugglingCollector : BaseCollector DefaultErrorHandler :=
  mkBaseCollector "ec2" "EC2 instances" DefaultCollectorConfig NewDefaultErrorHandler
                  StatusRunning None None 4 3 1.

(** A running collector holding a circuit breaker that is open. *)
Definition guardedCollector : BaseCollector CircuitBreakerErrorHandler :=
  SetErrorHandler (withStatus ec2Collector StatusRunning None)
    (mkCircuitBreaker (mkDefaultErrorHandler 3 time.Second)
                      CircuitBreakerOpen 5 0 0 5 (60 * time.Second) 3).

End collectors.

(** ** Package scheduler: the health accessor and the tick *)

Module scheduler.
Local Open Scope Z_scope.

(** [type Status string]. *)
Definition Status := string.
Definition StatusStarting : Status := "starting".
Definition StatusRunning : Status := "running".
Definition StatusStopping : Status := "stopping".
Definition StatusStopped : Status := "stopped".
Definition StatusError : Status := "error".

(** [ScheduledJob]. *)
Record ScheduledJob := mkScheduledJob {
  ID : string;
  CollectorName : string;
  Region : string;
  Interval : time.Duration;
  NextRun : time.Time;
  LastRun : option time.Time;
  LastResult : option collectors.CollectionResult;
  Enabled : bool
}.

(** [Config]. *)
Record Config := mkConfig {
  TickInterval : time.Duration;
  MaxConcurrentJobs : Z;
  JobTimeout : time.Duration;
  EnabledRegions : list string
}.

(** The state of a [MetricScheduler] behind its lock. [activeJobs] keeps
    the keys of the map of cancel functions; [jobSemaphore] is the number
    of tokens in the buffered channel, whose capacity is
    [MaxConcurrentJobs]. *)
Record MetricScheduler := mkMetricScheduler {
  config : Config;
  status : Status;
  startTime : option time.Time;
  lastTickTime : option time.Time;
  jobs : gmap string ScheduledJob;
  activeJobs : gset string;
  completedJobs : Z;
  failedJobs : Z;
  jobSemaphore : nat
}.

(** [MetricScheduler.Health]; nil is [None]. *)
Definition Health (now : time.Time) (s : MetricScheduler) : option errors.Error :=
  if decide (status s = StatusRunning) then
    match lastTickTime s with
    | Some lastTick =>
        if bool_decide (time.Since now lastTick
                        > time.wrap64 (2 * TickInterval (config s)))
        then Some (errors.NewValidationError "SCHEDULER_NOT_TICKING"
                                             "scheduler has not ticked recently")
        else None
    | None => None
    end
  else if decide (status s = StatusError) then
    Some (errors.NewValidationError "SCHEDULER_ERROR" "scheduler is in error state")
  else if decide (status s = StatusStopped) then
    Some (errors.NewValidationError "SCHEDULER_STOPPED" "scheduler is stopped")
  else
    Some (errors.NewValidationError "SCHEDULER_NOT_READY" "scheduler is not ready").

(** [DefaultConfig]. *)
Definition DefaultConfig : Config :=
  mkConfig (30 * time.Second) 10 (5 * time.Minute) [].

(** A scheduler caught between the two halves of [Stop]: the status is
    already [StatusStopping], the last tick is one nanosecond old. *)
Definition stoppingScheduler : MetricScheduler :=
  mkMetricScheduler DefaultConfig StatusStopping (Some 0) (Some 1000) ∅ ∅ 0 0 0.

(** The test of the first loop of [tick]. *)
Definition isDue (now : time.Time) (s : MetricScheduler) (job : ScheduledJob) : bool :=
  Enabled job && time.After now (NextRun job) && bool_decide (ID job ∉ activeJobs s).

(** The first loop of [tick]: [order] lists the keys of the job table in
    the order in which this [range] happens to visit them. *)
Definition jobsToRun (now : time.Time) (s : MetricScheduler) (order : list string)
    : list ScheduledJob :=
  filter (λ job, isDue now s job = true) (omap (λ k, jobs s !! k) order).

(** What the second loop of [tick] does with the jobs it selected. *)
Record Dispatch := mkDispatch {
  launched : list ScheduledJob;
  skipped : list ScheduledJob;
  tokens : nat
}.

(** The second loop of [tick]: a non-blocking send on the semaphore
    channel per selected job. Jobs launched earlier run concurrently and
    give their token back when they end: [finished] says how many do so
    just before each send. *)
Fixpoint dispatch (capacity used : nat) (selected : list ScheduledJob)
    (finished : list nat) : Dispatch :=
  match selected with
  | [] => mkDispatch [] [] used
  | job :: selected =>
      let used := (used - hd 0%nat finished)%nat in
      if bool_decide (used < capacity)%nat then
        let d := dispatch capacity (S used) selected (tl finished) in
        mkDispatch (job :: launched d) (skipped d) (tokens d)
      else
        let d := dispatch capacity used selected (tl finished) in
        mkDispatch (launched d) (job :: skipped d) (tokens d)
  end.

(** [MetricScheduler.tick]: the scheduler after the tick and what was
    done with the selected jobs. *)
Definition tick (now : time.Time) (s : MetricScheduler) (order : list string)
    (finished : list nat) : MetricScheduler * Dispatch :=
  let selected := jobsToRun now s order in
  let d := dispatch (Z.to_nat (MaxConcurrentJobs (config s))) (jobSemaphore s)
                    selected finished in
  (mkMetricScheduler (config s) (status s) (startTime s) (Some now) (jobs s)
                     (activeJobs s) (completedJobs s) (failedJobs s) (tokens d),
   d).

(** *** Starting and stopping *)

(** [MetricScheduler.validateConfig]. *)
Definition validateConfig (s : MetricScheduler) : option errors.Error :=
  if bool_decide (TickInterval (config s) ≤ 0) then
    Some (errors.NewConfigError "INVALID_TICK_INTERVAL" "tick interval must be positive")
  else if bool_decide (MaxConcurrentJobs (config s) ≤ 0) then
    Some (errors.NewConfigError "INVALID_MAX_CONCURRENT_JOBS"
                                "max concurrent jobs must be positive")
  else if bool_decide (JobTimeout (config s) ≤ 0) then
    Some (errors.NewConfigError "INVALID_JOB_TIMEOUT" "job timeout must be positive")
  else None.

Definition withStatus (s : MetricScheduler) (status' : Status)
    (startTime' : option time.Time) : MetricScheduler :=
  mkMetricScheduler (config s) status' startTime' (lastTickTime s) (jobs s)
                    (activeJobs s) (completedJobs s) (failedJobs s) (jobSemaphore s).

(** [NewMetricScheduler]: stopped, no jobs, an empty semaphore. *)
Definition NewMetricScheduler (config : Config) : MetricScheduler :=
  mkMetricScheduler config StatusStopped None None ∅ ∅ 0 0 0.

(** [MetricScheduler.Start]: the error returned and the scheduler after
    the call, in which a successful start has launched the loop of ticks. *)
Definition Start (now : time.Time) (s : MetricScheduler)
    : option errors.Error * MetricScheduler :=
  if decide (status s = StatusRunning) then (None, s)
  else
    let s := withStatus s StatusStarting (Some now) in
    match validateConfig s with
    | Some err => (Some err, withStatus s StatusError (startTime s))
    | None => (None, withStatus s StatusRunning (startTime s))
    end.

(** [errors.NewTimeoutError]; [formatted] is the text [fmt] prints for the
    duration under [%v]. *)
Definition NewTimeoutError (operation formatted : string) : errors.Error :=
  errors.WithRetryable
    (errors.WithOperation
       (errors.New errors.ErrorTypeTimeout "TIMEOUT"
                   ("operation timed out after " +:+ formatted))
       operation)
    true.

(** How a call of [Stop] ends: it returns, or it dies of the run-time
    panic of closing a channel that is closed already. *)
Inductive StopResult :=
| Stopped (err : option errors.Error) (s : MetricScheduler) (stopChClosed : bool)
| ClosePanic.

(** [MetricScheduler.Stop]. The channel [stopCh] is made once, when the
    scheduler is built; [stopChClosed] says whether it is closed.
    [drained] says which case of the [select] is taken: the loop has
    ended, or the caller's context is done first. [formatDuration] is the
    text of a duration under [%v]. Cancelling the active jobs leaves the
    map of active jobs as it is; the metadata attached to the time-out
    error is not among the fields kept of an error. *)
Definition Stop (formatDuration : time.Duration → string) (s : MetricScheduler)
    (stopChClosed drained : bool) : StopResult :=
  if decide (status s ≠ StatusRunning) then Stopped None s stopChClosed
  else if stopChClosed then ClosePanic
  else
    let s := withStatus s StatusStopping (startTime s) in
    if drained then Stopped None (withStatus s StatusStopped (startTime s)) true
    else
      Stopped (Some (NewTimeoutError "scheduler-stop"
                                     (formatDuration (JobTimeout (config s)))))
              s true.

(** *** The job table *)

(** The job identifier [fmt.Sprintf("%s-%s", collectorName, region)]. *)
Definition jobID (collectorName region : string) : string :=
  collectorName +:+ "-" +:+ region.

(** The regions [ScheduleCollector] keeps: all of them when the scheduler
    has no list of enabled regions, else those in the set built from that
    list. *)
Definition filterRegions (s : MetricScheduler) (regions : list string) : list string :=
  if bool_decide (0 < length (EnabledRegions (config s)))%nat then
    let enabledMap : gset string := list_to_set (EnabledRegions (config s)) in
    filter (λ region, region ∈ enabledMap) regions
  else regions.

Definition withJobs (s : MetricScheduler) (jobs' : gmap string ScheduledJob)
    (activeJobs' : gset string) : MetricScheduler :=
  mkMetricScheduler (config s) (status s) (startTime s) (lastTickTime s) jobs'
                    activeJobs' (completedJobs s) (failedJobs s) (jobSemaphore s).

(** The loop of [ScheduleCollector] that stores one job per region; the
    clock is read anew for every job, [clock i] being the reading for the
    region at index [i]. *)
Fixpoint storeJobs (collectorName : string) (interval : time.Duration)
    (clock : nat → time.Time) (i : nat) (regions : list string)
    (jobs : gmap string ScheduledJob) : gmap string ScheduledJob :=
  match regions with
  | [] => jobs
  | region :: regions =>
      let job :=
        mkScheduledJob (jobID collectorName region) collectorName region interval
                       (time.Add (clock i) (100 * time.Millisecond)) None None true in
      storeJobs collectorName interval clock (S i) regions
                (<[jobID collectorName region := job]> jobs)
  end.

(** [MetricScheduler.ScheduleCollector]; [registry] is the collector map
    of the registry the scheduler holds. *)
Definition ScheduleCollector {C} (registry : gmap string C) (clock : nat → time.Time)
    (s : MetricScheduler) (collectorName : string) (regions : list string)
    (interval : time.Duration) : option errors.Error * MetricScheduler :=
  match collectors.Get registry collectorName with
  | None =>
      (Some (errors.NewValidationError "COLLECTOR_NOT_FOUND"
               ("collector " +:+ collectorName +:+ " not found in registry")),
       s)
  | Some _ =>
      (None,
       withJobs s (storeJobs collectorName interval clock 0 (filterRegions s regions) (jobs s))
                (activeJobs s))
  end.

(** [MetricScheduler.UnscheduleCollector]. *)
Definition UnscheduleCollector (s : MetricScheduler) (collectorName region : string)
    : option errors.Error * MetricScheduler :=
  let jobID := jobID collectorName region in
  match jobs s !! jobID with
  | Some _ => (None, withJobs s (delete jobID (jobs s)) (activeJobs s ∖ {[jobID]}))
  | None =>
      (Some (errors.NewValidationError "JOB_NOT_FOUND" ("job " +:+ jobID +:+ " not found")), s)
  end.

(** [MetricScheduler.GetScheduledJobs], in the order [order] of the
    [range]. *)
Definition GetScheduledJobs (s : MetricScheduler) (order : list string) : list ScheduledJob :=
  omap (λ k, jobs s !! k) order.

(** [Info], without the two time stamps. *)
Record Info := mkInfo {
  info_Status : Status;
  JobCount : nat;
  ActiveJobs : nat;
  CompletedJobs : Z;
  FailedJobs : Z
}.

(** [MetricScheduler.GetInfo]. *)
Definition GetInfo (s : MetricScheduler) : Info :=
  mkInfo (status s) (size (jobs s)) (size (activeJobs s)) (completedJobs s) (failedJobs s).

(** *** Running one job *)

(** [DefaultJobExecutor.ExecuteJob]; [collect] is the method [Collect] of
    the collectors, which returns a result. The metadata attached to the
    error is not among the fields kept of an error. *)
Definition ExecuteJob {C} (registry : gmap string C)
    (collect : C → string → collectors.CollectionResult) (job : ScheduledJob)
    : collectors.CollectionResult :=
  match collectors.Get registry (CollectorName job) with
  | None =>
      collectors.mkCollectionResult (CollectorName job) (Region job) [] (NextRun job)
        (Some (errors.NewValidationError "COLLECTOR_NOT_FOUND"
                                         "collector not found in registry"))
        [] ∅
  | Some collector => collect collector (Region job)
  end.

(** [executeJob] in its three critical sections. First the job is noted
    as active. *)
Definition beginJob (s : MetricScheduler) (job : ScheduledJob) : MetricScheduler :=
  withJobs s (jobs s) ({[ID job]} ∪ activeJobs s).

(** The update of a job struct after its execution. *)
Definition ranAt (now : time.Time) (result : collectors.CollectionResult)
    (job : ScheduledJob) : ScheduledJob :=
  mkScheduledJob (ID job) (CollectorName job) (Region job) (Interval job)
                 (time.Add now (Interval job)) (Some now) (Some result) (Enabled job).

(** Then the outcome is noted: the struct the goroutine holds is updated
    and a counter is bumped. [current] says whether the table still holds
    that struct under the job's identifier; it does not when the job was
    unscheduled or scheduled anew while it ran, and then the update does
    not reach the table. *)
Definition recordJob (now : time.Time) (s : MetricScheduler) (job : ScheduledJob)
    (result : collectors.CollectionResult) (current : bool) : MetricScheduler :=
  let jobs' := if current then alter (ranAt now result) (ID job) (jobs s) else jobs s in
  match collectors.Error result with
  | Some _ =>
      mkMetricScheduler (config s) (status s) (startTime s) (lastTickTime s) jobs'
                        (activeJobs s) (completedJobs s) (time.wrap64 (failedJobs s + 1))
                        (jobSemaphore s)
  | None =>
      mkMetricScheduler (config s) (status s) (startTime s) (lastTickTime s) jobs'
                        (activeJobs s) (time.wrap64 (completedJobs s + 1)) (failedJobs s)
                        (jobSemaphore s)
  end.

(** Last, by the deferred calls, the job leaves the active set and its
    token leaves the semaphore. *)
Definition endJob (s : MetricScheduler) (job : ScheduledJob) : MetricScheduler :=
  mkMetricScheduler (config s) (status s) (startTime s) (lastTickTime s) (jobs s)
                    (activeJobs s ∖ {[ID job]}) (completedJobs s) (failedJobs s)
                    (pred (jobSemaphore s)).

(** [MetricScheduler.executeJob], run without any other operation in
    between. *)
Definition executeJob {C} (registry : gmap string C)
    (collect : C → string → collectors.CollectionResult)
    (now : time.Time) (s : MetricScheduler) (job : ScheduledJob) (current : bool)
    : MetricScheduler :=
  let s := beginJob s job in
  let result := ExecuteJob registry collect job in
  let s := recordJob now s job result current in
  endJob s job.

(** *** Examples *)

(** A registry holding the collector of the examples under its name, and
    under a second name that ends where a region begins. *)
Definition ec2Registry : gmap string (collectors.BaseCollector collectors.DefaultErrorHandler) :=
  <["ec2" := collectors.ec2Collector]> (<["ec2-us" := collectors.ec2Collector]> ∅).

(** A new scheduler with the default configuration. *)
Definition idleScheduler : MetricScheduler := NewMetricScheduler DefaultConfig.

(** A job of that collector, and a running scheduler that holds it and has
    handed out one token for it. *)
Definition sampleJob : ScheduledJob :=
  mkScheduledJob "ec2-us-east-1" "ec2" "us-east-1" (5 * time.Minute) 0 None None true.

Definition busyScheduler : MetricScheduler :=
  mkMetricScheduler DefaultConfig StatusRunning (Some 0) (Some 0)
                    (<["ec2-us-east-1" := sampleJob]> ∅) ∅ 0 0 1.

(** A [Collect] that returns an empty result without an error. *)
Definition quietCollect {H} (c : collectors.BaseCollector H) (region : string)
    : collectors.CollectionResult :=
  collectors.mkCollectionResult (collectors.name c) region [] 0 None [] ∅.

End scheduler.

(** * Properties *)

(** ** Counting in lists *)

Section ListCounting.
Context {A : Type} (P : A → Prop) `{!∀ x, Decision (P x)}.

Lemma filter_length_le (l : list A) : length (filter P l) ≤ length l.
Proof.
  induction l as [|x l IH]; simpl; [lia|].
  rewrite filter_cons. destruct (decide (P x)); simpl; lia.
Qed.

Lemma filter_length_all (l : list A) :
  length (filter P l) = length l ↔ Forall P l.
Proof.
  induction l as [|x l IH]; simpl.
  - split; [constructor | reflexivity].
  - rewrite filter_cons. pose proof (filter_length_le l) as Hle.
    destruct (decide (P x)) as [Hp|Hn]; simpl.
    + split.
      * intros Hlen. constructor; [exact Hp|]. apply IH. lia.
      * intros Hall. inversion Hall; subst. f_equal. by apply IH.
    + split; [lia|]. intros Hall. inversion Hall; subst. contradiction.
Qed.

Lemma filter_length_pos (l : list A) :
  0 < length (filter P l) ↔ Exists P l.
Proof.
  induction l as [|x l IH]; simpl.
  - split; [lia | intros Hex; inversion Hex].
  - rewrite filter_cons. destruct (decide (P x)) as [Hp|Hn]; simpl.
    + split; [intros _; by left | lia].
    + rewrite IH. split; [intros Hex; by right|].
      intros Hex. inversion Hex; subst; [contradiction | assumption].
Qed.
End ListCounting.

(** ** The health aggregator *)

Section HealthAggregation.
Import health.

Local Abbreviation tally l :=
  (foldr (uncurry (λ (_ : string) result acc, countStatus result acc)) noCounts l).

Local Abbreviation having s l := (length (filter (uncurry (hasStatus s)) l)).

(** Each counter is the number of results with its status. *)
Lemma tally_counts (l : list (string * CheckResult)) :
  healthyCount (tally l) = having StatusHealthy l ∧
  unhealthyCount (tally l) = having StatusUnhealthy l ∧
  degradedCount (tally l) = having StatusDegraded l ∧
  unknownCount (tally l) = having StatusUnknown l.
Proof.
  induction l as [|[k r] l IH]; [done|].
  cbn [foldr uncurry]. rewrite !filter_cons.
  destruct IH as (Hh & Hu & Hd & Hk). revert Hh Hu Hd Hk.
  generalize (tally l). intros c Hh Hu Hd Hk.
  unfold countStatus. cbn [uncurry hasStatus fst snd] in *.
  unfold StatusHealthy, StatusUnhealthy, StatusDegraded, StatusUnknown in *.
  repeat case_decide; simpl; rewrite ?Hh, ?Hu, ?Hd, ?Hk; try done.
  all: exfalso; congruence.
Qed.

(** When every status is a declared one, the counters add up to the
    number of results. *)
Lemma tally_total (l : list (string * CheckResult)) :
  Forall (uncurry (λ (_ : string) result, declaredStatus (cr_Status result))) l →
  healthyCount (tally l) + unhealthyCount (tally l)
    + degradedCount (tally l) + unknownCount (tally l) = length l.
Proof.
  induction 1 as [|[k r] l Hr _ IH]; [done|].
  cbn [foldr uncurry length]. revert IH. generalize (tally l). intros c IH.
  unfold countStatus. cbn [uncurry] in Hr.
  destruct Hr as [Hr|[Hr|[Hr|Hr]]]; rewrite Hr;
    unfold StatusHealthy, StatusUnhealthy, StatusDegraded, StatusUnknown;
    repeat case_decide; simpl; solve [lia | congruence].
Qed.

(** The counters of [aggregateStatus], read off the check map. *)
Lemma counters_spec (checks : gmap string CheckResult) :
  let c := map_fold (λ _ result acc, countStatus result acc) noCounts checks in
  (0 < unhealthyCount c ↔ anyCheck StatusUnhealthy checks) ∧
  (0 < degradedCount c ↔ anyCheck StatusDegraded checks) ∧
  (0 < unknownCount c ↔ anyCheck StatusUnknown checks) ∧
  (0 < healthyCount c ↔ anyCheck StatusHealthy checks) ∧
  (unknownCount c = size checks ↔ allChecks StatusUnknown checks) ∧
  (healthyCount c = size checks ↔ allChecks StatusHealthy checks) ∧
  (declaredChecks checks →
   healthyCount c + unhealthyCount c + degradedCount c + unknownCount c = size checks).
Proof.
  intros c. subst c. rewrite map_fold_foldr.
  destruct (tally_counts (map_to_list checks)) as (Hh & Hu & Hd & Hk).
  unfold anyCheck, allChecks, declaredChecks.
  rewrite !map_Exists_to_list, !map_Forall_to_list, <- !length_map_to_list.
  rewrite Hh, Hu, Hd, Hk, !filter_length_pos, !filter_length_all.
  repeat split; try tauto.
  intros Hdecl. rewrite <- Hh, <- Hu, <- Hd, <- Hk. by apply tally_total.
Qed.

Lemma size_zero_empty (checks : gmap string CheckResult) :
  size checks = 0 ↔ checks = ∅.
Proof. apply map_size_empty_iff. Qed.

(** On every check map the code follows the rule with the sixth step
    read as "at least one healthy": a status that is none of the four
    declared ones is counted nowhere and so behaves like an unknown one
    that keeps "all unknown" from holding. *)
Lemma aggregateStatus_any_status (checks : gmap string CheckResult) :
  fst (aggregateStatus checks) =
    if decide (checks = ∅) then StatusUnknown
    else if decide (anyCheck StatusUnhealthy checks) then StatusUnhealthy
    else if decide (anyCheck StatusDegraded checks) then StatusDegraded
    else if decide (allChecks StatusUnknown checks) then StatusUnknown
    else if decide (allChecks StatusHealthy checks) then StatusHealthy
    else if decide (anyCheck StatusHealthy checks) then StatusDegraded
    else StatusUnknown.
Proof.
  unfold aggregateStatus.
  destruct (counters_spec checks) as (Hu & Hd & Hk & Hh & Hak & Hah & _).
  pose proof (size_zero_empty checks) as Hsz.
  repeat case_decide; simpl; try done; tauto.
Qed.

Lemma aggregateStatus_follows_rule (checks : gmap string CheckResult) :
  declaredChecks checks →
  fst (aggregateStatus checks) = reductionRule checks.
Proof.
  intros Hdecl. rewrite aggregateStatus_any_status. unfold reductionRule.
  destruct (counters_spec checks) as (Hu & Hd & Hk & Hh & Hak & Hah & Htot).
  specialize (Htot Hdecl). revert Hu Hd Hk Hh Hak Hah Htot.
  generalize (map_fold (λ _ result acc, countStatus result acc) noCounts checks).
  intros c Hu Hd Hk Hh Hak Hah Htot.
  repeat case_decide; try done; exfalso.
  - (* some healthy, not all healthy, nothing unhealthy or degraded:
       the rest is unknown *)
    assert (unhealthyCount c = 0) by (destruct (decide (0 < unhealthyCount c)); [tauto|lia]).
    assert (degradedCount c = 0) by (destruct (decide (0 < degradedCount c)); [tauto|lia]).
    assert (healthyCount c ≠ size checks) by tauto.
    assert (0 < unknownCount c) by lia.
    tauto.
  - tauto.
Qed.

Lemma anyCheck_nonempty s (checks : gmap string CheckResult) :
  anyCheck s checks → checks ≠ ∅.
Proof. intros (k & r & Hk & _) ->. by rewrite lookup_empty in Hk. Qed.

Lemma anyCheck_among s s1 s2 (checks : gmap string CheckResult) :
  map_Forall (λ _ result, cr_Status result = s1 ∨ cr_Status result = s2) checks →
  anyCheck s checks → s = s1 ∨ s = s2.
Proof.
  intros Hall (k & r & Hk & Hs). unfold hasStatus in Hs. subst s.
  exact (Hall k r Hk).
Qed.

Lemma allChecks_any s s' (checks : gmap string CheckResult) :
  allChecks s checks → anyCheck s' checks → s' = s.
Proof.
  intros Hall (k & r & Hk & Hs). unfold hasStatus in Hs. subst s'.
  exact (Hall k r Hk).
Qed.

Lemma statusesAre_declared s1 s2 (checks : gmap string CheckResult) :
  declaredStatus s1 → declaredStatus s2 →
  statusesAre s1 s2 checks → declaredChecks checks.
Proof.
  intros H1 H2 (_ & _ & Hall) k r Hk. simpl.
  destruct (Hall k r Hk) as [-> | ->]; assumption.
Qed.

(** The value of the rule on a map whose statuses are exactly two
    given, different ones. *)
Ltac two_statuses Hs :=
  let H1 := fresh in let H2 := fresh in let Hall := fresh in
  destruct Hs as (H1 & H2 & Hall);
  pose proof (anyCheck_nonempty _ _ H1);
  unfold reductionRule;
  repeat (case_decide; try done);
  repeat match goal with
         | H : anyCheck _ _ ∧ anyCheck _ _ |- _ => destruct H
         | H : ¬ (anyCheck _ _ ∧ anyCheck _ _) |- _ => exfalso; apply H; by split
         | H : anyCheck ?s _ |- _ =>
             destruct (anyCheck_among _ _ _ _ Hall H); discriminate
         | H : allChecks ?s _ |- _ =>
             first [ pose proof (allChecks_any _ _ _ H H1); discriminate
                   | pose proof (allChecks_any _ _ _ H H2); discriminate ]
         end;
  try tauto.

(** C1. The overall status is the one the precedence rule gives: unknown
    with the summary "No health checks configured" for no checks; else
    unhealthy if any check is unhealthy; else degraded if any is
    degraded; else unknown if all are unknown; else healthy if all are
    healthy; else degraded for a mix of unknown and healthy; unknown as
    the fallback. A map with statuses healthy and degraded reduces to
    degraded, unhealthy and healthy to unhealthy, unknown and healthy to
    degraded, and only unknown to unknown. The statuses are the four
    declared ones. *)
Theorem aggregateStatus_precedence (checks : gmap string CheckResult) :
  declaredChecks checks →
  fst (aggregateStatus checks) = reductionRule checks ∧
  oh_Status (GetHealth checks) = reductionRule checks ∧
  (checks = ∅ →
   aggregateStatus checks = (StatusUnknown, "No health checks configured")) ∧
  (statusesAre StatusHealthy StatusDegraded checks →
   fst (aggregateStatus checks) = StatusDegraded) ∧
  (statusesAre StatusUnhealthy StatusHealthy checks →
   fst (aggregateStatus checks) = StatusUnhealthy) ∧
  (statusesAre StatusUnknown StatusHealthy checks →
   fst (aggregateStatus checks) = StatusDegraded) ∧
  (checks ≠ ∅ → allChecks StatusUnknown checks →
   fst (aggregateStatus checks) = StatusUnknown).
Proof.
  intros Hdecl. pose proof (aggregateStatus_follows_rule checks Hdecl) as Hrule.
  split; [exact Hrule|]. split; [exact Hrule|]. rewrite Hrule.
  split; [|split; [|split; [|split]]].
  - intros ->. reflexivity.
  - intros Hs. two_statuses Hs.
  - intros Hs. two_statuses Hs.
  - intros Hs. two_statuses Hs.
  - intros Hne Hall. unfold reductionRule.
    repeat (case_decide; try done).
    + pose proof (allChecks_any _ _ _ Hall ltac:(eassumption)). discriminate.
    + pose proof (allChecks_any _ _ _ Hall ltac:(eassumption)). discriminate.
Qed.

(** The rule at work on the checks [{A: unknown, B: healthy}]. *)
Lemma aggregateStatus_precedence_witness :
  declaredChecks mixedChecks ∧ fst (aggregateStatus mixedChecks) = StatusDegraded.
Proof.
  assert (Hdecl : declaredChecks mixedChecks)
    by (refine (bool_decide_unpack _ _); vm_compute; exact I).
  split; [exact Hdecl|].
  destruct (aggregateStatus_precedence mixedChecks Hdecl) as (Hrule & _).
  rewrite Hrule. vm_compute. reflexivity.
Defined.
End HealthAggregation.

(** ** The collector registry *)

Section Registry.
Import collectors.
Context {C : Type} `{!MetricCollector C}.

(** C10. [Register] returns an error when the collector is nil, when its
    name is empty, or when a collector of that name is registered already,
    and then leaves the collector map as it was; otherwise it returns nil
    and stores the collector under its name, all collectors registered
    before staying as they were. *)
Theorem Register_error_cases (registry : gmap string C) (collector : option C) :
  let err := fst (Register registry collector) in
  let registry' := snd (Register registry collector) in
  (is_Some err ↔
     collector = None ∨
     ∃ c, collector = Some c ∧ (Name c = "" ∨ is_Some (registry !! Name c))) ∧
  (is_Some err → registry' = registry) ∧
  (err = None →
     ∃ c, collector = Some c ∧
          registry' = <[Name c := c]> registry ∧
          registry' !! Name c = Some c ∧
          (∀ k, k ≠ Name c → registry' !! k = registry !! k) ∧
          (∀ k c', registry !! k = Some c' → registry' !! k = Some c')).
Proof.
  unfold Register. destruct collector as [c|]; simpl.
  - destruct (decide (Name c = "")) as [Hempty|Hname]; simpl.
    + split; [|split]; [|done|done].
      split; [intros _; right; exists c; auto | eauto].
    + destruct (registry !! Name c) as [c0|] eqn:Hlook; simpl.
      * split; [|split]; [|done|done].
        split; [intros _; right; exists c; rewrite Hlook; eauto | eauto].
      * split; [|split].
        -- split; [intros []; discriminate|].
           intros [Hnil|(c1 & Hc1 & [Hn|Hreg])]; [discriminate| |].
           ++ injection Hc1 as <-. contradiction.
           ++ injection Hc1 as <-. rewrite Hlook in Hreg. by destruct Hreg.
        -- intros []; discriminate.
        -- intros _. exists c. repeat split.
           ++ apply lookup_insert_eq.
           ++ intros k Hk. by apply lookup_insert_ne.
           ++ intros k c' Hk. rewrite lookup_insert_ne; [done|]. congruence.
  - split; [|split]; [|done|intros; discriminate].
    split; [intros _; by left | eauto].
Qed.
End Registry.

(** ** Metric labels *)

Section Labels.
Import collectors.

(** Storing every entry of [m] into [b]. *)
Lemma store_all_lookup (b m : gmap string string) (i : string) :
  map_fold (λ k v labels, <[k := v]> labels) b m !! i =
    match m !! i with Some v => Some v | None => b !! i end.
Proof.
  revert i. apply (map_fold_weak_ind
    (λ r m, ∀ i, r !! i = match m !! i with Some v => Some v | None => b !! i end)).
  - intros i. by rewrite lookup_empty.
  - intros k x m' r Hk IH i. destruct (decide (k = i)) as [->|Hne].
    + by rewrite !lookup_insert_eq.
    + rewrite !lookup_insert_ne by done. apply IH.
Qed.

(** Storing the entries of [m] into [b] under the keys [b] lacks. *)
Lemma fill_missing_lookup (b m : gmap string string) (i : string) :
  map_fold (λ k v labels,
              match labels !! k with
              | Some _ => labels
              | None => <[k := v]> labels
              end) b m !! i =
    match b !! i with Some v => Some v | None => m !! i end.
Proof.
  revert i. apply (map_fold_weak_ind
    (λ r m, ∀ i, r !! i = match b !! i with Some v => Some v | None => m !! i end)).
  - intros i. rewrite lookup_empty. by destruct (b !! i).
  - intros k x m' r Hk IH i. destruct (decide (k = i)) as [->|Hne].
    + rewrite lookup_insert_eq. pose proof (IH i) as Hi. rewrite Hk in Hi.
      destruct (r !! i) as [v|] eqn:Hr.
      * rewrite Hr, Hi. by destruct (b !! i).
      * rewrite lookup_insert_eq. destruct (b !! i); [discriminate|done].
    + rewrite lookup_insert_ne by done. rewrite <- IH.
      destruct (r !! k); [done|]. by rewrite lookup_insert_ne.
Qed.

Lemma getCommonLabels_lookup {H} (bc : BaseCollector H) (k : string) :
  getCommonLabels bc !! k =
    match CustomTags (collectorConfig bc) !! k with
    | Some v => Some v
    | None =>
        if decide (k = "service") then Some "aws-monitor"
        else if decide (k = "collector") then Some (name bc)
        else None
    end.
Proof.
  unfold getCommonLabels. rewrite store_all_lookup.
  destruct (CustomTags (collectorConfig bc) !! k); [done|].
  repeat case_decide; subst; simplify_map_eq; done.
Qed.

Lemma CreateMetric_lookup {H} (bc : BaseCollector H) now name value unit labels k :
  md_Labels (CreateMetric bc now name value unit labels) !! k =
    match labels with
    | None => getCommonLabels bc !! k
    | Some labels =>
        match labels !! k with
        | Some v => Some v
        | None => getCommonLabels bc !! k
        end
    end.
Proof.
  unfold CreateMetric. destruct labels as [labels|]; simpl; [|done].
  apply fill_missing_lookup.
Qed.

(** C7, as the code has it. Every metric built by [CreateMetric] carries a
    label "collector"; the caller's value wins for every key, "collector"
    included; the common labels fill in the keys the caller's map lacks,
    and among them a custom tag wins over the two fixed labels. The label
    "collector" holds the name of the producing collector whenever neither
    the caller's map nor the custom tags have that key. *)
Theorem CreateMetric_labels {H} (bc : BaseCollector H) now name value unit
    (labels : option (gmap string string)) :
  let callers := default ∅ labels in
  let result := md_Labels (CreateMetric bc now name value unit labels) in
  is_Some (result !! "collector") ∧
  (∀ k v, callers !! k = Some v → result !! k = Some v) ∧
  (∀ k, callers !! k = None → result !! k = getCommonLabels bc !! k) ∧
  (∀ k v, CustomTags (collectorConfig bc) !! k = Some v →
          getCommonLabels bc !! k = Some v) ∧
  (callers !! "collector" = None →
   CustomTags (collectorConfig bc) !! "collector" = None →
   result !! "collector" = Some (collectors.name bc)).
Proof.
  intros callers result. subst callers result.
  assert (Hc : ∀ k, md_Labels (CreateMetric bc now name value unit labels) !! k =
                    match default ∅ labels !! k with
                    | Some v => Some v
                    | None => getCommonLabels bc !! k
                    end).
  { intros k. rewrite CreateMetric_lookup. destruct labels; simpl; [done|].
    by rewrite lookup_empty. }
  repeat split.
  - rewrite Hc. destruct (default ∅ labels !! "collector"); [eauto|].
    rewrite getCommonLabels_lookup.
    destruct (CustomTags (collectorConfig bc) !! "collector"); eauto.
  - intros k v Hk. by rewrite Hc, Hk.
  - intros k Hk. by rewrite Hc, Hk.
  - intros k v Hk. by rewrite getCommonLabels_lookup, Hk.
  - intros Hcall Htag. by rewrite Hc, Hcall, getCommonLabels_lookup, Htag.
Qed.

(** C7, as stated, fails: a caller's label "collector" replaces the name
    of the producing collector. *)
Lemma CreateMetric_collector_label_overwritten :
  md_Labels (CreateMetric ec2Collector 0%Z "instance_count" math.one "Count"
                          (Some {["collector" := "other"]})) !! "collector"
  ≠ Some (collectors.name ec2Collector).
Proof. rewrite CreateMetric_lookup. vm_compute. discriminate. Qed.

End Labels.

(** ** 64-bit arithmetic *)

Section Int64.
Local Open Scope Z_scope.

Lemma wrap64_small (z : Z) : - 2 ^ 63 ≤ z < 2 ^ 63 → time.wrap64 z = z.
Proof.
  intros Hz. unfold time.wrap64.
  rewrite Z.mod_small by lia. lia.
Qed.

(** The saturation of [Sub] does not show against a bound inside the
    range of [Duration]. *)
Lemma Since_gt (now t d : Z) :
  time.minDuration ≤ d < time.maxDuration →
  (time.Since now t > d ↔ now - t > d).
Proof.
  unfold time.Since, time.Sub, time.minDuration, time.maxDuration. lia.
Qed.

End Int64.

(** ** The scheduler *)

Section SchedulerHealth.
Import scheduler.
Local Open Scope Z_scope.

(** C8, as the code has it. [Health] returns nil exactly when the
    scheduler is running and its last tick, if there is one, is not older
    than twice the tick interval; in every other status (stopped, error,
    and also starting and stopping) and for a stale tick it returns a
    validation error. Twice the interval is computed in int64, which is
    the plain double for an interval within 2^62 nanoseconds. *)
Theorem Health_nil_iff (now : time.Time) (s : MetricScheduler) :
  (Health now s = None ↔
     status s = StatusRunning ∧
     ∀ lastTick, lastTickTime s = Some lastTick →
                 ¬ time.Since now lastTick > time.wrap64 (2 * TickInterval (config s))) ∧
  (∀ e, Health now s = Some e →
        errors.Type_ e = errors.ErrorTypeValidation ∧
        errors.Code e =
          if decide (status s = StatusRunning) then "SCHEDULER_NOT_TICKING"
          else if decide (status s = StatusError) then "SCHEDULER_ERROR"
          else if decide (status s = StatusStopped) then "SCHEDULER_STOPPED"
          else "SCHEDULER_NOT_READY") ∧
  (- 2 ^ 62 ≤ TickInterval (config s) < 2 ^ 62 →
   time.wrap64 (2 * TickInterval (config s)) = 2 * TickInterval (config s)).
Proof.
  unfold Health. split; [|split].
  - destruct (decide (status s = StatusRunning)) as [Hrun|Hrun].
    + destruct (lastTickTime s) as [t|].
      * case_bool_decide as Hstale.
        -- split; [discriminate|]. intros [_ Hfresh]. exfalso. by eapply Hfresh.
        -- split; [|done]. intros _. split; [done|].
           intros t' [= <-]. exact Hstale.
      * split; [|done]. intros _. split; [done|]. intros t' [=].
    + repeat case_decide; split; try discriminate; intros [? _]; contradiction.
  - intros e. destruct (decide (status s = StatusRunning)) as [Hrun|Hrun].
    + destruct (lastTickTime s) as [t|]; [|discriminate].
      case_bool_decide; [|discriminate]. intros [= <-]. done.
    + repeat case_decide; intros [= <-]; done.
  - intros Hrange. apply wrap64_small. lia.
Qed.

(** C8, as stated, fails: a scheduler that is stopping is neither stopped
    nor in the error state and has a fresh tick, and yet [Health] returns
    an error. *)
Lemma Health_error_while_stopping :
  status stoppingScheduler ≠ StatusStopped ∧
  status stoppingScheduler ≠ StatusError ∧
  lastTickTime stoppingScheduler = Some 1000 ∧
  ¬ (1001 - 1000 > 2 * TickInterval (config stoppingScheduler)) ∧
  Health 1001 stoppingScheduler ≠ None.
Proof. vm_compute. repeat split; discriminate. Qed.

End SchedulerHealth.

Section SchedulerTick.
Import scheduler.
Local Open Scope Z_scope.

Lemma isDue_spec (now : time.Time) (s : MetricScheduler) (job : ScheduledJob) :
  isDue now s job = true ↔
    Enabled job = true ∧ NextRun job < now ∧ ID job ∉ activeJobs s.
Proof.
  unfold isDue, time.After.
  rewrite !andb_true_iff, !bool_decide_eq_true. tauto.
Qed.

Lemma jobsToRun_spec (now : time.Time) (s : MetricScheduler) (order : list string)
    (job : ScheduledJob) :
  job ∈ jobsToRun now s order ↔
    (∃ k, k ∈ order ∧ jobs s !! k = Some job) ∧
    Enabled job = true ∧ NextRun job < now ∧ ID job ∉ activeJobs s.
Proof.
  unfold jobsToRun. rewrite list_elem_of_filter, list_elem_of_omap, isDue_spec. tauto.
Qed.

(** Every selected job is either launched or skipped. *)
Lemma dispatch_partition (capacity : nat) (selected : list ScheduledJob) :
  ∀ used finished,
    selected ≡ₚ launched (dispatch capacity used selected finished)
                ++ skipped (dispatch capacity used selected finished).
Proof.
  induction selected as [|job selected IH]; intros used finished; [done|].
  cbn [dispatch]. case_bool_decide; cbn [launched skipped].
  - rewrite <- app_comm_cons. f_equiv. apply IH.
  - rewrite <- Permutation_middle. f_equiv. apply IH.
Qed.

(** When no running job ends during the tick, the free slots go to the
    first selected jobs and the others are skipped. *)
Lemma dispatch_quiescent (capacity : nat) (selected : list ScheduledJob) :
  ∀ used,
    launched (dispatch capacity used selected []) = take (capacity - used) selected ∧
    skipped (dispatch capacity used selected []) = drop (capacity - used) selected.
Proof.
  induction selected as [|job selected IH]; intros used.
  - cbn [dispatch launched skipped]. by rewrite take_nil, drop_nil.
  - cbn [dispatch hd tl]. rewrite Nat.sub_0_r.
    case_bool_decide as Hfree; cbn [launched skipped].
    + destruct (IH (S used)) as [Hl Hs]. rewrite Hl, Hs.
      replace (capacity - used)%nat with (S (capacity - S used)) by lia. done.
    + destruct (IH used) as [Hl Hs]. rewrite Hl, Hs.
      replace (capacity - used)%nat with 0%nat by lia. by rewrite take_0, drop_0.
Qed.

(** C9. The jobs a tick selects are exactly the jobs of the table that are
    enabled, whose next run lies before now, and that are not in the
    active set; each of them is launched if the semaphore has a free slot
    at its turn and skipped otherwise, so only such jobs are launched and a
    job that is not enabled never is; a skipped job is stored nowhere (the
    tick changes the last tick time and the semaphore only) and is due
    again at every later tick. *)
Theorem tick_dispatches_due_jobs (now : time.Time) (s : MetricScheduler)
    (order : list string) (finished : list nat) :
  let selected := jobsToRun now s order in
  let s' := fst (tick now s order finished) in
  let d := snd (tick now s order finished) in
  let free := (Z.to_nat (MaxConcurrentJobs (config s)) - jobSemaphore s)%nat in
  (∀ job, job ∈ selected ↔
            (∃ k, k ∈ order ∧ jobs s !! k = Some job) ∧
            Enabled job = true ∧ NextRun job < now ∧ ID job ∉ activeJobs s) ∧
  ((∀ k, is_Some (jobs s !! k) → k ∈ order) →
   ∀ job, job ∈ selected ↔
            (∃ k, jobs s !! k = Some job) ∧
            Enabled job = true ∧ NextRun job < now ∧ ID job ∉ activeJobs s) ∧
  selected ≡ₚ launched d ++ skipped d ∧
  (∀ job, job ∈ launched d →
          Enabled job = true ∧ NextRun job < now ∧ ID job ∉ activeJobs s) ∧
  (∀ job, Enabled job = false → job ∉ launched d) ∧
  (finished = [] →
   launched d = take free selected ∧ skipped d = drop free selected) ∧
  ((length selected ≤ free)%nat → finished = [] →
   launched d = selected ∧ skipped d = []) ∧
  s' = mkMetricScheduler (config s) (status s) (startTime s) (Some now) (jobs s)
                         (activeJobs s) (completedJobs s) (failedJobs s) (tokens d) ∧
  (∀ job now', job ∈ skipped d → now ≤ now' → isDue now' s' job = true).
Proof.
  intros selected s' d free. subst selected s' d free. unfold tick. cbn [fst snd].
  set (selected := jobsToRun now s order).
  set (capacity := Z.to_nat (MaxConcurrentJobs (config s))).
  pose proof (dispatch_partition capacity selected (jobSemaphore s) finished) as Hpart.
  assert (Hsel : ∀ job, job ∈ selected →
            Enabled job = true ∧ NextRun job < now ∧ ID job ∉ activeJobs s).
  { intros job Hjob. by apply jobsToRun_spec in Hjob as (_ & ?). }
  assert (Hlaunched : ∀ job,
            job ∈ launched (dispatch capacity (jobSemaphore s) selected finished) →
            Enabled job = true ∧ NextRun job < now ∧ ID job ∉ activeJobs s).
  { intros job Hjob. apply Hsel. rewrite Hpart. apply elem_of_app. by left. }
  split_and!.
  - intros job. subst selected. apply jobsToRun_spec.
  - intros Hall job. subst selected. rewrite jobsToRun_spec. split.
    + intros ((k & _ & Hk) & Hdue). eauto.
    + intros ((k & Hk) & Hdue). split; [|done]. exists k. split; [|done].
      apply Hall. by rewrite Hk.
  - exact Hpart.
  - exact Hlaunched.
  - intros job Hoff Hjob. apply Hlaunched in Hjob as (Hon & _). congruence.
  - intros ->. apply dispatch_quiescent.
  - intros Hfits ->.
    destruct (dispatch_quiescent capacity selected (jobSemaphore s)) as [-> ->].
    split; [by apply take_ge | by apply drop_ge].
  - reflexivity.
  - intros job now' Hjob Hlater. apply isDue_spec. cbn [activeJobs].
    destruct (Hsel job) as (? & ? & ?); [|repeat split; [done|lia|done]].
    rewrite Hpart. apply elem_of_app. by right.
Qed.

End SchedulerTick.

(** ** The default retry policy *)

Section RetryPolicy.
Import collectors.
Local Open Scope Z_scope.





End RetryPolicy.

(** ** CollectWithRetry *)

Section CollectWithRetryFacts.
Import collectors.
Local Open Scope Z_scope.

Context {H : Type} `{!ErrorHandler H}.
Variable env : Surroundings.
Variable region : string.
Variable collectFunc : CollectFunc.

(** Inside the loop the result holds no metrics and no error; it is left
    with metrics only by the [break] after a success, and then without an
    error. *)
Lemma attemptLoop_invariant (fuel : nat) :
  ∀ attempt (l : Locals H),
    Metrics (result l) = [] → Error (result l) = None →
    match attemptLoop env region collectFunc fuel attempt l with
    | LoopLeft l' => Metrics (result l') = [] ∨ Error (result l') = None
    | Returned l' => Metrics (result l') = []
    | Aborted _ => True
    end.
Proof.
  induction fuel as [|fuel IH]; intros attempt l Hm He; cbn [attemptLoop].
  - by left.
  - destruct (ctxErrAt env attempt); [by left|].
    destruct (collectFunc attempt region) as [metrics [err|]]; [|by right].
    destruct (shouldRetry _ _ _ _) as [retry handler].
    destruct retry; cbn [negb]; [|by left].
    case_bool_decide.
    + destruct (getRetryDelay _ _ _ _); [|done|done].
      destruct (ctxDoneInBackoff env attempt d); [done|]. by apply IH.
    + by apply IH.
Qed.

(** The statements after the loop keep the metrics, and set the error to
    the last one when there is one and no metrics. *)
Lemma afterLoop_Metrics (l : Locals H) :
  Metrics (returned (afterLoop env l)) = Metrics (result l).
Proof.
  unfold afterLoop. destruct l as [[cn rg ms ct er ws md] [e|] bc c]; cbn;
    [case_bool_decide|]; cbn; destruct er; reflexivity.
Qed.

Lemma afterLoop_Error (l : Locals H) :
  Error (returned (afterLoop env l)) =
    match lastErr l with
    | Some e =>
        if bool_decide (length (Metrics (result l)) = 0%nat) then Some e
        else Error (result l)
    | None => Error (result l)
    end.
Proof.
  unfold afterLoop. destruct l as [[cn rg ms ct er ws md] [e|] bc c]; cbn;
    [case_bool_decide|]; cbn; destruct er; reflexivity.
Qed.

Lemma afterLoop_calls (l : Locals H) :
  attemptsMade (afterLoop env l) = calls l.
Proof.
  unfold afterLoop. destruct (lastErr l) as [e|]; [case_bool_decide|]; reflexivity.
Qed.

Lemma afterLoop_error_no_metrics (l : Locals H) :
  Metrics (result l) = [] ∨ Error (result l) = None →
  is_Some (Error (returned (afterLoop env l))) →
  Metrics (returned (afterLoop env l)) = [].
Proof.
  rewrite afterLoop_Metrics, afterLoop_Error. intros Hinv.
  destruct (lastErr l) as [e|].
  - case_bool_decide as Hlen.
    + intros _. by apply length_zero_iff_nil.
    + destruct Hinv as [Hm|He]; [by rewrite Hm in Hlen|].
      rewrite He. by intros [? [=]].
  - destruct Hinv as [Hm|He]; [done|]. rewrite He. by intros [? [=]].
Qed.

Lemma CollectWithRetry_error_no_metrics (bc : BaseCollector H) (run : Run) :
  CollectWithRetry env region collectFunc bc = Some run →
  is_Some (Error (returned run)) → Metrics (returned run) = [].
Proof.
  unfold CollectWithRetry.
  set (l0 := mkLocals _ None bc 0%nat).
  pose proof (attemptLoop_invariant
                (Z.to_nat (time.wrap64 (Retries (collectorConfig bc) + 1))) 0 l0
                eq_refl eq_refl) as Hinv.
  destruct (attemptLoop _ _ _ _ _ _) as [l|l|why]; [| |discriminate].
  - intros [= <-]. by apply afterLoop_error_no_metrics.
  - intros [= <-]. done.
Qed.

End CollectWithRetryFacts.

Section DefaultHandlerRuns.
Import collectors.
Local Open Scope Z_scope.

Lemma ShouldRetry_true_budget (eh : DefaultErrorHandler) err attempt :
  ShouldRetry eh err attempt = true → attempt < maxRetries eh.
Proof.
  unfold ShouldRetry. destruct err as [e|]; [|discriminate].
  case_bool_decide; [discriminate|]. intros _. lia.
Qed.

Lemma pow2_bounds (attempt : Z) :
  0 ≤ attempt ≤ 33 → 1 ≤ 2 ^ attempt ≤ 2 ^ 33.
Proof.
  intros Ha. split.
  - apply (Z.pow_le_mono_r 2 0 attempt); lia.
  - apply Z.pow_le_mono_r; lia.
Qed.

(** With the base delay of one second the handler returns a delay for
    every attempt number from 0 to 33. *)
Lemma GetRetryDelay_returns (now : time.Time) err (attempt : Z) :
  0 ≤ attempt ≤ 33 →
  ∃ d, GetRetryDelay NewDefaultErrorHandler now err attempt = Delay d.
Proof.
  intros Ha. unfold GetRetryDelay. destruct err as [e|]; [|eauto].
  destruct (errors.GetRetryAfter e); [eauto|].
  pose proof (pow2_bounds attempt Ha) as Hp.
  unfold expBackoff, NewDefaultErrorHandler, baseDelay, time.Second.
  change (2 ^ 33) with 8589934592 in Hp.
  rewrite bool_decide_eq_true_2 by lia.
  rewrite bool_decide_eq_true_2 by lia.
  rewrite bool_decide_eq_true_2 by (change (2 ^ 63) with 9223372036854775808; nia).
  rewrite bool_decide_eq_false_2; [eauto|].
  intros Hq. apply Z.quot_small_iff in Hq; [|lia].
  revert Hq. rewrite Z.abs_eq by nia. simpl Z.abs. nia.
Qed.

Context (env : Surroundings) (region : string) (collectFunc : CollectFunc).

(** A collector holding the default handler as [NewBaseCollector]
    installs it is never stopped by [GetRetryDelay]. *)
Lemma attemptLoop_default_returns (fuel : nat) :
  ∀ attempt (l : Locals DefaultErrorHandler),
    0 ≤ attempt →
    errorHandler (collector l) = NewDefaultErrorHandler →
    ∀ why, attemptLoop env region collectFunc fuel attempt l ≠ Aborted why.
Proof.
  induction fuel as [|fuel IH]; intros attempt l Ha Hh why; cbn [attemptLoop]; [done|].
  destruct (ctxErrAt env attempt); [done|].
  destruct (collectFunc attempt region) as [metrics [err|]]; [|done].
  cbn [shouldRetry DefaultErrorHandler_ErrorHandler]. rewrite Hh.
  match goal with |- context [ShouldRetry _ (Some ?e) _] => set (e' := e) end.
  destruct (ShouldRetry NewDefaultErrorHandler (Some e') attempt) eqn:Hretry;
    cbn [negb]; [|done].
  apply ShouldRetry_true_budget in Hretry. cbn in Hretry.
  case_bool_decide.
  - cbn [getRetryDelay DefaultErrorHandler_ErrorHandler].
    destruct (GetRetryDelay_returns (clockAt env attempt) (Some e') attempt) as [d ->];
      [lia|].
    destruct (ctxDoneInBackoff env attempt d); [done|].
    apply IH; [lia|done].
  - apply IH; [lia|done].
Qed.

Lemma CollectWithRetry_default_returns (bc : BaseCollector DefaultErrorHandler) :
  errorHandler bc = NewDefaultErrorHandler →
  is_Some (CollectWithRetry env region collectFunc bc).
Proof.
  intros Hh. unfold CollectWithRetry.
  set (l0 := mkLocals _ None bc 0%nat).
  pose proof (attemptLoop_default_returns
                (Z.to_nat (time.wrap64 (Retries (collectorConfig bc) + 1))) 0 l0
                ltac:(lia) Hh) as Hret.
  destruct (attemptLoop _ _ _ _ _ _) as [l|l|why]; [eauto|eauto|].
  by destruct (Hret why).
Qed.


End DefaultHandlerRuns.

Section RetryClaims.
Import collectors.
Local Open Scope Z_scope.



(** C5. A result returned by [CollectWithRetry] with its error set holds
    no metrics, whatever the unit of work returns in its attempts, whatever
    the retry budget and handler, and wherever the context is cancelled.
    With the default handler the call always returns. *)
Theorem CollectWithRetry_error_excludes_metrics :
  (∀ H (EH : ErrorHandler H) env region collectFunc (bc : BaseCollector H) run,
     CollectWithRetry env region collectFunc bc = Some run →
     is_Some (Error (returned run)) → Metrics (returned run) = []) ∧
  (∀ env region collectFunc (bc : BaseCollector DefaultErrorHandler),
     errorHandler bc = NewDefaultErrorHandler →
     ∃ run, CollectWithRetry env region collectFunc bc = Some run ∧
            (is_Some (Error (returned run)) → Metrics (returned run) = [])).
Proof.
  split.
  - intros H EH env region collectFunc bc run.
    apply CollectWithRetry_error_no_metrics.
  - intros env region collectFunc bc Hh.
    destruct (CollectWithRetry_default_returns env region collectFunc bc Hh) as [run Hrun].
    exists run. split; [done|]. by eapply CollectWithRetry_error_no_metrics.
Qed.

End RetryClaims.

Section SuccessAfterFailure.
Import collectors.
Local Open Scope Z_scope.

(** A success in the first attempt is reported as such: no error, the
    metrics of that attempt, one call, one success recorded. *)
Lemma CollectWithRetry_first_attempt_success {H} `{!ErrorHandler H}
    env region (collectFunc : CollectFunc) (bc : BaseCollector H) metrics :
  0 ≤ Retries (collectorConfig bc) < 2 ^ 63 - 1 →
  ctxErrAt env 0 = None →
  collectFunc 0 region = (metrics, None) →
  ∃ run,
    CollectWithRetry env region collectFunc bc = Some run ∧
    Error (returned run) = None ∧
    Metrics (returned run) = metrics ∧
    attemptsMade run = 1%nat ∧
    successfulCollections (collectorAfter run) = successfulCollections bc + 1 ∧
    errorCount (collectorAfter run) = errorCount bc.
Proof.
  intros Hretries Hctx Hcall. unfold CollectWithRetry.
  rewrite wrap64_small by lia.
  destruct (Z.to_nat (Retries (collectorConfig bc) + 1)) as [|fuel] eqn:Hfuel; [lia|].
  cbn [attemptLoop]. rewrite Hctx, Hcall.
  eexists. split; [reflexivity|].
  rewrite afterLoop_calls, afterLoop_Metrics, afterLoop_Error. cbn. done.
Qed.

(** C6 fails on the code. The unit of work fails once with a network
    error and then succeeds with an empty list of metrics: the success is
    recorded, no further call is made, and yet the result carries the
    error of the first attempt, which is recorded as well. *)
Theorem CollectWithRetry_empty_success_reported_as_error :
  ∃ run,
    CollectWithRetry quietSurroundings "us-east-1" failsThenEmpty ec2Collector = Some run ∧
    attemptsMade run = 2%nat ∧
    Metrics (returned run) = [] ∧
    Error (returned run)
      = Some (errors.WithRegion
                (errors.WithOperation
                   (errors.NewNetworkError "CONNECTION_ERROR" "connection failed")
                   "collect")
                "us-east-1") ∧
    successfulCollections (collectorAfter run) = 1 ∧
    errorCount (collectorAfter run) = 1.
Proof.
  eexists. split; [vm_compute; reflexivity|]. vm_compute. done.
Qed.

End SuccessAfterFailure.

(** ** The retry delay *)

Section RetryDelay.
Import collectors.
Local Open Scope Z_scope.

(** The two clamps of [GetRetryDelay] together. *)
Lemma clamp_cases (x : Z) :
  (if bool_decide ((if bool_decide (x > maxDelay) then maxDelay else x) < minDelay)
   then minDelay
   else if bool_decide (x > maxDelay) then maxDelay else x)
  = Z.max minDelay (Z.min maxDelay x).
Proof.
  unfold maxDelay, minDelay, time.Second, time.Millisecond.
  repeat case_bool_decide; lia.
Qed.

(** The computed delay: the exponential value plus a jitter of at most a
    quarter of it, clamped. *)
Lemma GetRetryDelay_computed (eh : DefaultErrorHandler) (now : time.Time)
    (err : errors.Error) (attempt : Z) :
  errors.RetryAfter err = None →
  4 ≤ baseDelay eh < 2 ^ 53 →
  0 ≤ attempt →
  baseDelay eh * 2 ^ attempt < 2 ^ 63 →
  0 ≤ now < 2 ^ 62 →
  ∃ jitter,
    - (baseDelay eh * 2 ^ attempt / 4) ≤ jitter < 0 ∧
    GetRetryDelay eh now (Some err) attempt
      = Delay (Z.max minDelay (Z.min maxDelay (baseDelay eh * 2 ^ attempt + jitter))).
Proof.
  intros Hafter Hbase Hatt Hfits Hnow.
  assert (Hpow : 1 ≤ 2 ^ attempt) by (apply (Z.pow_le_mono_r 2 0 attempt); lia).
  assert (Hatt' : attempt < 63).
  { apply (Z.pow_lt_mono_r_iff 2); [lia|lia|]. nia. }
  set (e := baseDelay eh * 2 ^ attempt) in *.
  assert (He : 4 ≤ e) by (subst e; nia).
  unfold GetRetryDelay, errors.GetRetryAfter. rewrite Hafter.
  unfold expBackoff.
  rewrite bool_decide_eq_true_2 by lia.
  rewrite bool_decide_eq_true_2 by lia.
  fold e. rewrite bool_decide_eq_true_2 by lia.
  rewrite Z.quot_div_nonneg by lia.
  pose proof (Z.div_mod e 4 ltac:(lia)) as Hdiv.
  pose proof (Z.mod_pos_bound e 4 ltac:(lia)) as Hmod.
  set (J := e / 4) in *.
  assert (HJ : 1 ≤ J) by lia.
  rewrite bool_decide_eq_false_2 by lia.
  rewrite (wrap64_small (2 * now)) by lia.
  pose proof (Z.rem_bound_pos (2 * now) J ltac:(lia) ltac:(lia)) as Hrem.
  set (r := Z.rem (2 * now) J) in *.
  assert (HJ63 : J < 2 ^ 63) by lia.
  rewrite (wrap64_small (r - J)) by lia.
  rewrite (wrap64_small (e + (r - J))) by lia.
  exists (r - J). split; [lia|].
  f_equal. apply clamp_cases.
Qed.



End RetryDelay.

(** ** The circuit breaker *)

Section CircuitBreaker.
Import collectors.
Local Open Scope Z_scope.

Lemma inPhase_phaseOf cb p : inPhase cb p → phaseOf cb = Some p.
Proof.
  intros (_ & _ & _ & _ & Hp). unfold phaseOf.
  destruct p; destruct Hp as [-> <-]; reflexivity.
Qed.

Lemma cooldown_elapsed (now last : time.Time) :
  time.Since now last > 60 * time.Second ↔ now - last > 60 * time.Second.
Proof.
  apply Since_gt. unfold time.minDuration, time.maxDuration, time.Second. lia.
Qed.

(** Each operation of the breaker is a transition of the machine. *)
Lemma breakerStep_machine cb p ev :
  inPhase cb p → inPhase (breakerStep cb ev) (breakerMachine p ev).
Proof.
  destruct cb as [d st fc lf sc ft tmo rt].
  intros (Hd & Hf & Ht & Hr & Hp). cbn in Hd, Hf, Ht, Hr, Hp. subst d ft tmo rt.
  destruct p as [failures|last|successes]; destruct Hp as [-> <-];
    destruct ev as [now| |now err attempt];
    unfold breakerStep, breakerMachine, statedStep, cbHandleError, recordFailure,
      RecordSuccess, cbShouldRetry, isCircuitOpen, openCircuit, closeCircuit,
      transitionToHalfOpen, inPhase,
      CircuitBreakerClosed, CircuitBreakerOpen, CircuitBreakerHalfOpen;
    cbn [state failureCount successCount lastFailure failureThreshold timeout
         recoveryThreshold cb_Default];
    repeat (case_decide; try discriminate);
    try rewrite (bool_decide_ext _ _ (cooldown_elapsed _ _));
    repeat case_bool_decide; try (exfalso; lia);
    cbn [fst snd state failureCount successCount lastFailure failureThreshold
         timeout recoveryThreshold cb_Default];
    done.
Qed.

Lemma breakerRun_machine events :
  ∀ cb p, inPhase cb p →
          inPhase (breakerRun events cb) (fold_left breakerMachine events p).
Proof.
  induction events as [|ev events IH]; intros cb p Hp; [done|].
  cbn [breakerRun fold_left]. apply IH. by apply breakerStep_machine.
Qed.

Lemma inPhase_new : inPhase NewCircuitBreakerErrorHandler (Closed 0).
Proof. repeat split. Qed.

(** The answer to a retry request: a refusal while open and within the
    cool-down, whatever the error and the attempt; the answer of the
    default policy otherwise. *)
Lemma cbShouldRetry_answer cb p now err attempt :
  inPhase cb p →
  fst (cbShouldRetry now cb err attempt) =
    match p with
    | Open last =>
        if bool_decide (now - last > 60 * time.Second)
        then ShouldRetry (mkDefaultErrorHandler 3 time.Second) err attempt
        else false
    | _ => ShouldRetry (mkDefaultErrorHandler 3 time.Second) err attempt
    end.
Proof.
  destruct cb as [d st fc lf sc ft tmo rt].
  intros (Hd & Hf & Ht & Hr & Hp). cbn in Hd, Hf, Ht, Hr, Hp. subst d ft tmo rt.
  destruct p as [failures|last|successes]; destruct Hp as [-> <-];
    unfold cbShouldRetry, isCircuitOpen, transitionToHalfOpen,
      CircuitBreakerClosed, CircuitBreakerOpen, CircuitBreakerHalfOpen;
    cbn [state lastFailure timeout cb_Default];
    repeat (case_decide; try discriminate);
    try rewrite (bool_decide_ext _ _ (cooldown_elapsed _ _));
    repeat case_bool_decide; done.
Qed.

(** C2, as the code has it. The breaker starts closed and every operation
    on it is a transition of the machine: closed to open at the fifth
    consecutive failure, a success while closed resetting the count; while
    open every retry request is refused, whatever the default policy would
    answer, unless more than 60 seconds have passed since the last
    recorded failure, and the first request after that moves it to
    half-open and is answered by the default policy; half-open to closed at
    the third consecutive success; half-open to open on any failure; and,
    besides, open to closed on a success recorded while open. *)
Theorem breaker_follows_machine :
  inPhase NewCircuitBreakerErrorHandler (Closed 0) ∧
  (∀ cb p ev, inPhase cb p → inPhase (breakerStep cb ev) (breakerMachine p ev)) ∧
  (∀ events,
     phaseOf (breakerRun events NewCircuitBreakerErrorHandler)
     = Some (fold_left breakerMachine events (Closed 0))) ∧
  (∀ cb p now err attempt,
     inPhase cb p →
     fst (cbShouldRetry now cb err attempt) =
       match p with
       | Open last =>
           if bool_decide (now - last > 60 * time.Second)
           then ShouldRetry (mkDefaultErrorHandler 3 time.Second) err attempt
           else false
       | _ => ShouldRetry (mkDefaultErrorHandler 3 time.Second) err attempt
       end) ∧
  (∀ t1 t2 t3 t4 t5,
     phaseOf (breakerRun [FailureRecorded t1; FailureRecorded t2; FailureRecorded t3;
                          FailureRecorded t4]
                         NewCircuitBreakerErrorHandler) = Some (Closed 4) ∧
     phaseOf (breakerRun [FailureRecorded t1; FailureRecorded t2; FailureRecorded t3;
                          FailureRecorded t4; FailureRecorded t5]
                         NewCircuitBreakerErrorHandler) = Some (Open t5) ∧
     phaseOf (breakerRun [FailureRecorded t1; FailureRecorded t2; SuccessRecorded;
                          FailureRecorded t3; FailureRecorded t4; FailureRecorded t5]
                         NewCircuitBreakerErrorHandler) = Some (Closed 3)) ∧
  (∀ cb last now err attempt,
     inPhase cb (Open last) →
     (now - last ≤ 60 * time.Second →
      cbShouldRetry now cb err attempt = (false, cb)) ∧
     (now - last > 60 * time.Second →
      inPhase (snd (cbShouldRetry now cb err attempt)) (HalfOpen 0) ∧
      fst (cbShouldRetry now cb err attempt)
      = ShouldRetry (mkDefaultErrorHandler 3 time.Second) err attempt)) ∧
  (∀ cb, inPhase cb (HalfOpen 0) →
         inPhase (RecordSuccess (RecordSuccess cb)) (HalfOpen 2) ∧
         inPhase (RecordSuccess (RecordSuccess (RecordSuccess cb))) (Closed 0)) ∧
  (∀ cb successes now,
     inPhase cb (HalfOpen successes) → inPhase (recordFailure now cb) (Open now)) ∧
  (∀ cb last, inPhase cb (Open last) → inPhase (RecordSuccess cb) (Closed 0)).
Proof.
  pose proof breakerStep_machine as Hstep.
  split_and!.
  - exact inPhase_new.
  - exact Hstep.
  - intros events. apply inPhase_phaseOf, breakerRun_machine, inPhase_new.
  - intros cb p now err attempt. apply cbShouldRetry_answer.
  - intros t1 t2 t3 t4 t5.
    split_and!; apply inPhase_phaseOf;
      match goal with
      | |- inPhase (breakerRun ?evs _) _ =>
          exact (breakerRun_machine evs _ _ inPhase_new)
      end.
  - intros cb last now err attempt Hopen. split.
    + intros Hearly.
      destruct cb as [d st fc lf sc ft tmo rt].
      destruct Hopen as (Hd & Hf & Ht & Hr & Hs & Hl).
      cbn in Hd, Hf, Ht, Hr, Hs, Hl. subst.
      unfold cbShouldRetry, isCircuitOpen. cbn [state lastFailure timeout].
      rewrite decide_True by done.
      rewrite (bool_decide_ext _ _ (cooldown_elapsed _ _)).
      rewrite bool_decide_eq_false_2 by lia. reflexivity.
    + intros Hlate. split.
      * pose proof (Hstep cb (Open last) (RetryRequested now err attempt) Hopen) as Hs.
        cbn [breakerStep breakerMachine statedStep] in Hs.
        by rewrite bool_decide_eq_true_2 in Hs.
      * rewrite (cbShouldRetry_answer cb (Open last)) by done.
        by rewrite bool_decide_eq_true_2.
  - intros cb Hhalf.
    pose proof (Hstep _ _ SuccessRecorded Hhalf) as H1.
    pose proof (Hstep _ _ SuccessRecorded H1) as H2.
    pose proof (Hstep _ _ SuccessRecorded H2) as H3.
    split; [exact H2 | exact H3].
  - intros cb successes now Hhalf.
    exact (Hstep _ _ (FailureRecorded now) Hhalf).
  - intros cb last Hopen. exact (Hstep _ _ SuccessRecorded Hopen).
Qed.

(** C2, as stated, fails: after five failures in a row the breaker is
    open, and a success recorded then closes it, a move the stated machine
    does not have. *)
Lemma breaker_leaves_stated_machine :
  phaseOf (breakerRun fiveFailuresThenSuccess NewCircuitBreakerErrorHandler)
  ≠ Some (fold_left statedStep fiveFailuresThenSuccess (Closed 0)).
Proof. vm_compute. discriminate. Qed.

End CircuitBreaker.

(** * Further properties of the retry policy *)

Section RetryPolicyMore.
Import collectors.
Local Open Scope Z_scope.

(** X1. A retry that is refused at one attempt is refused at every later
    attempt: the answer of [ShouldRetry] can only turn from yes to no as
    the attempt number grows. *)
Theorem ShouldRetry_antitone (eh : DefaultErrorHandler) (err : option errors.Error)
    (attempt attempt' : Z) :
  attempt ≤ attempt' →
  ShouldRetry eh err attempt = false →
  ShouldRetry eh err attempt' = false.
Proof.
  intros Hle. unfold ShouldRetry. destruct err as [e|]; [|done].
  repeat case_bool_decide; try done; lia.
Qed.

Lemma ShouldRetry_antitone_witness :
  1 ≤ 7 ∧
  ShouldRetry NewDefaultErrorHandler
    (Some (errors.NewPermissionError "describe" "ec2:instances")) 7 = false.
Proof.
  split; [lia|].
  apply (ShouldRetry_antitone NewDefaultErrorHandler _ 1 7); [lia | reflexivity].
Defined.

(** X2. The back-off grows with the attempt number whatever the jitter:
    the delay for an attempt is at most the delay for the next one, for
    any two clock readings, and it never exceeds the exponential value
    itself (the jitter is never positive). *)
Theorem GetRetryDelay_grows (eh : DefaultErrorHandler) (now now' : time.Time)
    (err : errors.Error) (attempt : Z) :
  errors.RetryAfter err = None →
  4 ≤ baseDelay eh < 2 ^ 53 →
  0 ≤ attempt →
  baseDelay eh * 2 ^ (attempt + 1) < 2 ^ 63 →
  0 ≤ now < 2 ^ 62 →
  0 ≤ now' < 2 ^ 62 →
  ∃ d d',
    GetRetryDelay eh now (Some err) attempt = Delay d ∧
    GetRetryDelay eh now' (Some err) (attempt + 1) = Delay d' ∧
    d ≤ d' ∧
    d ≤ Z.max minDelay (baseDelay eh * 2 ^ attempt - 1).
Proof.
  intros Hafter Hbase Hatt Hfits Hnow Hnow'.
  assert (Hpow : 1 ≤ 2 ^ attempt) by (apply (Z.pow_le_mono_r 2 0 attempt); lia).
  assert (Hsucc : 2 ^ (attempt + 1) = 2 * 2 ^ attempt) by (rewrite Z.pow_add_r by lia; change (2 ^ 1) with 2; lia).
  destruct (GetRetryDelay_computed eh now err attempt) as (j & Hj & Hd); try done.
  { rewrite Hsucc in Hfits. nia. }
  destruct (GetRetryDelay_computed eh now' err (attempt + 1)) as (j' & Hj' & Hd');
    try done; [lia|].
  rewrite Hsucc in Hj', Hd'.
  set (e := baseDelay eh * 2 ^ attempt) in *.
  replace (baseDelay eh * (2 * 2 ^ attempt)) with (2 * e) in Hj', Hd' by (subst e; lia).
  assert (He : 4 ≤ e) by (subst e; nia).
  pose proof (Z.div_mod (2 * e) 4 ltac:(lia)) as Hdiv.
  pose proof (Z.mod_pos_bound (2 * e) 4 ltac:(lia)) as Hmod.
  eexists. eexists. split; [exact Hd|]. split; [exact Hd'|].
  unfold minDelay, maxDelay, time.Millisecond, time.Second. lia.
Qed.

Lemma GetRetryDelay_grows_witness :
  ∃ d d',
    GetRetryDelay NewDefaultErrorHandler 1700000000123456789
                  (Some (errors.NewValidationError "X" "x")) 1 = Delay d ∧
    GetRetryDelay NewDefaultErrorHandler 1700000000999999999
                  (Some (errors.NewValidationError "X" "x")) 2 = Delay d' ∧
    d ≤ d'.
Proof.
  assert (Hbase : 4 ≤ baseDelay NewDefaultErrorHandler < 2 ^ 53)
    by (vm_compute; split; [discriminate | reflexivity]).
  assert (Hfits : baseDelay NewDefaultErrorHandler * 2 ^ (1 + 1) < 2 ^ 63)
    by (vm_compute; reflexivity).
  assert (Hnow : 0 ≤ 1700000000123456789 < 2 ^ 62)
    by (vm_compute; split; [discriminate | reflexivity]).
  assert (Hnow' : 0 ≤ 1700000000999999999 < 2 ^ 62)
    by (vm_compute; split; [discriminate | reflexivity]).
  destruct (GetRetryDelay_grows NewDefaultErrorHandler 1700000000123456789
              1700000000999999999 (errors.NewValidationError "X" "x") 1
              eq_refl Hbase ltac:(lia) Hfits Hnow Hnow')
    as (d & d' & Hd & Hd' & Hle & _).
  exists d, d'. split; [exact Hd|]. split; [exact Hd'|]. exact Hle.
Defined.

(** X3. For an attempt number of -28 or less the default handler does not
    return a delay: the exponential value of one second scaled down falls
    below four nanoseconds, its quarter is zero, and the remainder by it
    is a run-time panic. *)
Theorem GetRetryDelay_negative_attempt_panics (now : time.Time) (err : errors.Error)
    (attempt : Z) :
  errors.RetryAfter err = None →
  -1000 ≤ attempt ≤ -28 →
  GetRetryDelay NewDefaultErrorHandler now (Some err) attempt = DivideByZero.
Proof.
  intros Hafter Hatt. unfold GetRetryDelay, errors.GetRetryAfter. rewrite Hafter.
  unfold expBackoff, NewDefaultErrorHandler, baseDelay, time.Second.
  rewrite bool_decide_eq_true_2
    by (split; [split; [lia | reflexivity] | lia]).
  rewrite bool_decide_eq_false_2 by lia.
  assert (Hpow : 2 ^ 28 ≤ 2 ^ (- attempt)) by (apply Z.pow_le_mono_r; lia).
  change (2 ^ 28) with 268435456 in Hpow.
  rewrite (Z.quot_div_nonneg 1000000000) by lia.
  assert (Hsmall : 0 ≤ 1000000000 / 2 ^ (- attempt) ≤ 3).
  { split; [apply Z.div_pos; lia|].
    transitivity (1000000000 / 268435456); [|by vm_compute].
    apply Z.div_le_compat_l; lia. }
  rewrite bool_decide_eq_true_2; [done|].
  apply Z.quot_small. lia.
Qed.

Lemma GetRetryDelay_negative_attempt_panics_witness :
  GetRetryDelay NewDefaultErrorHandler 1700000000123456789
                (Some (errors.NewValidationError "X" "x")) (-30) = DivideByZero.
Proof.
  apply GetRetryDelay_negative_attempt_panics; [reflexivity | lia].
Defined.

End RetryPolicyMore.

(** * Further properties of CollectWithRetry *)

Section CollectWithRetryMore.
Import collectors.
Local Open Scope Z_scope.

Context {H : Type} `{!ErrorHandler H}.
Variable env : Surroundings.
Variable region : string.
Variable collectFunc : CollectFunc.

(** Each turn of the loop calls the unit of work at most once. *)
Lemma attemptLoop_calls_bound (fuel : nat) :
  ∀ attempt (l : Locals H),
    match attemptLoop env region collectFunc fuel attempt l with
    | LoopLeft l' | Returned l' => (calls l ≤ calls l' ≤ calls l + fuel)%nat
    | Aborted _ => True
    end.
Proof.
  induction fuel as [|fuel IH]; intros attempt l; cbn [attemptLoop]; [lia|].
  destruct (ctxErrAt env attempt); [cbn; lia|].
  destruct (collectFunc attempt region) as [metrics [err|]]; [|cbn; lia].
  destruct (shouldRetry _ _ _ _) as [retry handler].
  destruct retry; cbn [negb]; [|cbn; lia].
  match goal with
  | |- context [attemptLoop _ _ _ fuel (attempt + 1) ?l1] =>
      pose proof (IH (attempt + 1) l1) as IH1; cbn [calls] in IH1
  end.
  case_bool_decide.
  - destruct (getRetryDelay _ _ _ _); [|done|done].
    destruct (ctxDoneInBackoff env attempt d); [cbn; lia|].
    destruct (attemptLoop _ _ _ _ _ _); [lia|lia|done].
  - destruct (attemptLoop _ _ _ _ _ _); [lia|lia|done].
Qed.

(** The loop leaves the frame alone. *)
Lemma attemptLoop_frame (fuel : nat) :
  ∀ attempt (l0 l : Locals H),
    sameFrame l0 l →
    match attemptLoop env region collectFunc fuel attempt l with
    | LoopLeft l' | Returned l' => sameFrame l0 l'
    | Aborted _ => True
    end.
Proof.
  induction fuel as [|fuel IH]; intros attempt l0 l Hl; cbn [attemptLoop]; [done|].
  destruct (ctxErrAt env attempt); [exact Hl|].
  destruct (collectFunc attempt region) as [metrics [err|]]; [|exact Hl].
  destruct (shouldRetry _ _ _ _) as [retry handler].
  destruct retry; cbn [negb]; [|exact Hl].
  case_bool_decide.
  - destruct (getRetryDelay _ _ _ _); [|done|done].
    destruct (ctxDoneInBackoff env attempt d); [exact Hl|].
    apply IH. exact Hl.
  - apply IH. exact Hl.
Qed.

(** When the loop is left with metrics, they are what the last call of
    the unit of work returned without an error; that success is recorded
    and no error is. *)
Lemma attemptLoop_metrics_from_success (fuel : nat) :
  ∀ attempt (l0 l : Locals H),
    attempt = Z.of_nat (calls l) →
    Metrics (result l) = [] → Error (result l) = None →
    successfulCollections (collector l) = successfulCollections (collector l0) →
    errorCount (collector l) = errorCount (collector l0) →
    match attemptLoop env region collectFunc fuel attempt l with
    | LoopLeft l' =>
        Metrics (result l') ≠ [] →
        Error (result l') = None ∧
        successfulCollections (collector l')
          = successfulCollections (collector l0) + 1 ∧
        errorCount (collector l') = errorCount (collector l0) ∧
        ∃ n, calls l' = S n ∧
             collectFunc (Z.of_nat n) region = (Metrics (result l'), None)
    | Returned l' => Metrics (result l') = []
    | Aborted _ => True
    end.
Proof.
  induction fuel as [|fuel IH]; intros attempt l0 l Ha Hm He Hs Hc; cbn [attemptLoop].
  - intros Hne. by rewrite Hm in Hne.
  - destruct (ctxErrAt env attempt); [cbn; intros Hne; by rewrite Hm in Hne|].
    destruct (collectFunc attempt region) as [metrics [err|]] eqn:Hcall.
    + destruct (shouldRetry _ _ _ _) as [retry handler].
      destruct retry; cbn [negb]; [|cbn; intros Hne; by rewrite Hm in Hne].
      match goal with
      | |- context [attemptLoop _ _ _ fuel (attempt + 1) ?l1] =>
          pose proof (IH (attempt + 1) l0 l1) as IH1; cbn in IH1
      end.
      specialize (IH1 ltac:(lia) Hm He Hs Hc).
      case_bool_decide.
      * destruct (getRetryDelay _ _ _ _); [|done|done].
        destruct (ctxDoneInBackoff env attempt d); [exact Hm|]. exact IH1.
      * exact IH1.
    + cbn. intros _. split; [exact He|]. split; [by rewrite Hs|].
      split; [exact Hc|]. exists (calls l). split; [done|]. by rewrite <- Ha.
Qed.

Lemma afterLoop_collectorAfter (l : Locals H) :
  Metrics (result l) ≠ [] →
  collectorAfter (afterLoop env l) = recordCollection (collector l) (clockEnd env).
Proof.
  intros Hne. unfold afterLoop.
  destruct l as [[cn rg ms ct er ws md] [e|] bc c]; cbn in *; [|done].
  rewrite bool_decide_eq_false_2; [done|]. by destruct ms.
Qed.

(** X4. A result that holds metrics carries no error, and its metrics are
    exactly what the last call of the unit of work returned, without an
    error; one success and no error have been recorded for it. *)
Theorem CollectWithRetry_metrics_are_last_output (bc : BaseCollector H) (run : Run) :
  CollectWithRetry env region collectFunc bc = Some run →
  Metrics (returned run) ≠ [] →
  Error (returned run) = None ∧
  (∃ n, attemptsMade run = S n ∧
        collectFunc (Z.of_nat n) region = (Metrics (returned run), None)) ∧
  successfulCollections (collectorAfter run) = successfulCollections bc + 1 ∧
  errorCount (collectorAfter run) = errorCount bc.
Proof.
  unfold CollectWithRetry.
  set (l0 := mkLocals _ None bc 0%nat).
  pose proof (attemptLoop_metrics_from_success
                (Z.to_nat (time.wrap64 (Retries (collectorConfig bc) + 1))) 0 l0 l0
                eq_refl eq_refl eq_refl eq_refl eq_refl) as Hloop.
  destruct (attemptLoop _ _ _ _ _ _) as [l|l|why]; [| |discriminate].
  - intros [= <-]. rewrite afterLoop_Metrics, afterLoop_calls. intros Hne.
    destruct (Hloop Hne) as (He & Hs & Hc & n & Hn & Hcall).
    rewrite afterLoop_Error, afterLoop_collectorAfter by done.
    split.
    { destruct (lastErr l); [|done]. rewrite bool_decide_eq_false_2; [done|].
      by destruct (Metrics (result l)). }
    split; [eauto|]. done.
  - intros [= <-]. cbn. intros Hne. by rewrite Hloop in Hne.
Qed.

(** X5. The unit of work is never called more often than the retry budget
    allows: at most [Retries + 1] times, with any handler. *)
Theorem CollectWithRetry_calls_within_budget (bc : BaseCollector H) (run : Run) :
  CollectWithRetry env region collectFunc bc = Some run →
  0 ≤ Retries (collectorConfig bc) < 2 ^ 63 - 1 →
  Z.of_nat (attemptsMade run) ≤ Retries (collectorConfig bc) + 1.
Proof.
  unfold CollectWithRetry. intros Hrun Hretries. revert Hrun.
  rewrite wrap64_small by lia.
  set (l0 := mkLocals _ None bc 0%nat).
  pose proof (attemptLoop_calls_bound
                (Z.to_nat (Retries (collectorConfig bc) + 1)) 0 l0) as Hloop.
  destruct (attemptLoop _ _ _ _ _ _) as [l|l|why]; [| |discriminate].
  - intros [= <-]. rewrite afterLoop_calls. cbn in Hloop. lia.
  - intros [= <-]. cbn in *. lia.
Qed.

(** The [return] inside the back-off wait carries its error. *)
Lemma attemptLoop_returned_error (fuel : nat) :
  ∀ attempt (l : Locals H),
    match attemptLoop env region collectFunc fuel attempt l with
    | Returned l' => is_Some (Error (result l'))
    | _ => True
    end.
Proof.
  induction fuel as [|fuel IH]; intros attempt l; cbn [attemptLoop]; [done|].
  destruct (ctxErrAt env attempt); [done|].
  destruct (collectFunc attempt region) as [metrics [err|]]; [|done].
  destruct (shouldRetry _ _ _ _) as [retry handler].
  destruct retry; cbn [negb]; [|done].
  case_bool_decide.
  - destruct (getRetryDelay _ _ _ _); [|done|done].
    destruct (ctxDoneInBackoff env attempt d); [cbn; eauto|]. apply IH.
  - apply IH.
Qed.

(** X6. The entry "attempts" of the metadata does not count the calls
    made: it is 1 for every result without an error, and the retry budget
    plus one for a result that got its error after the loop, whatever the
    number of calls; the entry "metric_count" is the number of metrics. *)
Theorem CollectWithRetry_attempts_metadata (bc : BaseCollector H) (run : Run) :
  CollectWithRetry env region collectFunc bc = Some run →
  (Error (returned run) = None →
   Metadata (returned run) !! "attempts" = Some 1 ∧
   Metadata (returned run) !! "metric_count"
     = Some (Z.of_nat (length (Metrics (returned run))))) ∧
  (is_Some (Error (returned run)) →
   Metadata (returned run) !! "attempts" = None ∨
   Metadata (returned run) !! "attempts"
     = Some (time.wrap64 (Retries (collectorConfig bc) + 1))).
Proof.
  unfold CollectWithRetry.
  set (l0 := mkLocals _ None bc 0%nat).
  pose proof (attemptLoop_frame
                (Z.to_nat (time.wrap64 (Retries (collectorConfig bc) + 1))) 0 l0 l0
                ltac:(by repeat split)) as Hframe.
  pose proof (attemptLoop_returned_error
                (Z.to_nat (time.wrap64 (Retries (collectorConfig bc) + 1))) 0 l0) as Hret.
  destruct (attemptLoop _ _ _ _ _ _) as [l|l|why]; [| |discriminate].
  - intros [= <-]. destruct Hframe as (Hw & Hmd & Hcfg & _).
    unfold afterLoop.
    destruct l as [[cn rg ms ct er ws md] le c0 k]; cbn in Hw, Hmd, Hcfg. subst ws md.
    destruct le as [e|]; cbn [lastErr result Metrics Error];
      [case_bool_decide|]; cbn.
    + split; [intros [=]|]. intros _. right. by rewrite Hcfg.
    + destruct er; cbn.
      * split; [intros [=]|]. intros _. right. by rewrite Hcfg.
      * split; [done|]. by intros [? [=]].
    + destruct er; cbn.
      * split; [intros [=]|]. intros _. right. by rewrite Hcfg.
      * split; [done|]. by intros [? [=]].
  - intros [= <-]. destruct Hframe as (Hw & Hmd & _). cbn in *. split.
    + intros Hnone. rewrite Hnone in Hret. by destruct Hret.
    + intros _. left. by rewrite Hmd.
Qed.

End CollectWithRetryMore.

Section CollectWithRetryDefault.
Import collectors.
Local Open Scope Z_scope.

Context (env : Surroundings) (region : string) (collectFunc : CollectFunc).

(** With the default handler and an unfailing context, a unit of work
    that fails every time with an error flagged retryable is called until
    one of the two budgets is used up. *)
Lemma attemptLoop_retryable_failures (fuel : nat) :
  ∀ attempt (l : Locals DefaultErrorHandler),
    errorHandler (collector l) = NewDefaultErrorHandler →
    (∀ n, ctxErrAt env n = None) →
    (∀ n d, ctxDoneInBackoff env n d = None) →
    (∀ n, ∃ metrics e, collectFunc n region = (metrics, Some (errors.Classified e)) ∧
                       errors.Retryable e = true) →
    0 ≤ attempt ≤ 3 →
    attempt ≤ Retries (collectorConfig (collector l)) →
    fuel = Z.to_nat (Retries (collectorConfig (collector l)) + 1 - attempt) →
    calls l = Z.to_nat attempt →
    Metrics (result l) = [] →
    ∃ l', attemptLoop env region collectFunc fuel attempt l = LoopLeft l' ∧
          calls l' = Z.to_nat (Z.min (Retries (collectorConfig (collector l))) 3 + 1) ∧
          is_Some (lastErr l') ∧
          Metrics (result l') = [].
Proof.
  induction fuel as [|fuel IH];
    intros attempt l Hh Hctx Hwait Hfails Ha Hle Hfuel Hcalls Hm; [lia|].
  cbn [attemptLoop]. rewrite Hctx.
  destruct (Hfails attempt) as (metrics & e & -> & Hflag).
  cbn [shouldRetry DefaultErrorHandler_ErrorHandler]. rewrite Hh.
  match goal with |- context [ShouldRetry _ (Some ?e0) _] => set (e' := e0) end.
  assert (Hretry : ShouldRetry NewDefaultErrorHandler (Some e') attempt
                   = bool_decide (attempt < 3)).
  { unfold ShouldRetry. cbn [maxRetries NewDefaultErrorHandler].
    subst e'. cbn [errors.Retryable errors.WithRegion errors.WithOperation].
    rewrite Hflag. repeat case_bool_decide; try done; lia. }
  rewrite Hretry. case_bool_decide as Hlt; cbn [negb].
  - cbn [getRetryDelay DefaultErrorHandler_ErrorHandler collector collectorConfig
         withErrorHandler SetErrorHandler].
    destruct (GetRetryDelay_returns (clockAt env attempt) (Some e') attempt) as [d Hd];
      [lia|].
    case_bool_decide as Hmore.
    + rewrite Hd, Hwait.
      match goal with
      | |- context [attemptLoop _ _ _ fuel (attempt + 1) ?l1] =>
          destruct (IH (attempt + 1) l1) as (l' & Hl' & Hc' & He' & Hm'); cbn;
            try done; try lia
      end.
      exists l'. split; [exact Hl'|]. cbn in Hc'. done.
    + assert (fuel = 0%nat) by lia. subst fuel. cbn [attemptLoop].
      eexists. split; [reflexivity|]. cbn. split_and!; [lia|eauto|done].
  - eexists. split; [reflexivity|]. cbn. split_and!; [lia|eauto|done].
Qed.

(** X7. With the default handler, a context that is never cancelled and a
    unit of work that always fails with an error flagged retryable, the
    unit of work is called exactly [min(Retries, 3) + 1] times, 3 being
    the budget of the handler; the result carries an error and no
    metrics. *)
Theorem CollectWithRetry_two_budgets (bc : BaseCollector DefaultErrorHandler) :
  errorHandler bc = NewDefaultErrorHandler →
  0 ≤ Retries (collectorConfig bc) < 2 ^ 63 - 1 →
  (∀ n, ctxErrAt env n = None) →
  (∀ n d, ctxDoneInBackoff env n d = None) →
  (∀ n, ∃ metrics e, collectFunc n region = (metrics, Some (errors.Classified e)) ∧
                     errors.Retryable e = true) →
  ∃ run,
    CollectWithRetry env region collectFunc bc = Some run ∧
    Z.of_nat (attemptsMade run) = Z.min (Retries (collectorConfig bc)) 3 + 1 ∧
    is_Some (Error (returned run)) ∧
    Metrics (returned run) = [].
Proof.
  intros Hh Hretries Hctx Hwait Hfails. unfold CollectWithRetry.
  rewrite wrap64_small by lia.
  set (l0 := mkLocals _ None bc 0%nat).
  destruct (attemptLoop_retryable_failures
              (Z.to_nat (Retries (collectorConfig bc) + 1)) 0 l0)
    as (l' & -> & Hcalls & [e He] & Hm); cbn; try done; try lia.
  eexists. split; [reflexivity|].
  rewrite afterLoop_calls, afterLoop_Error, afterLoop_Metrics, He, Hm. cbn in Hcalls.
  split_and!; [lia | cbn; eauto | done].
Qed.

(** X8. A context found cancelled before the first attempt: the unit of
    work is not called, the result carries an internal error with the
    code CONTEXT_CANCELLED and no metrics, and the collector counts a
    collection but neither an error nor a success. *)
Theorem CollectWithRetry_cancelled_at_start {H} `{!ErrorHandler H}
    (bc : BaseCollector H) (cause : string) :
  0 ≤ Retries (collectorConfig bc) < 2 ^ 63 - 1 →
  ctxErrAt env 0 = Some cause →
  ∃ run e,
    CollectWithRetry env region collectFunc bc = Some run ∧
    attemptsMade run = 0%nat ∧
    Error (returned run) = Some e ∧
    errors.Type_ e = errors.ErrorTypeInternal ∧
    errors.Code e = "CONTEXT_CANCELLED" ∧
    errors.Cause e = Some cause ∧
    Metrics (returned run) = [] ∧
    errorCount (collectorAfter run) = errorCount bc ∧
    successfulCollections (collectorAfter run) = successfulCollections bc ∧
    metricsCollected (collectorAfter run) = metricsCollected bc + 1.
Proof.
  intros Hretries Hctx. unfold CollectWithRetry.
  rewrite wrap64_small by lia.
  destruct (Z.to_nat (Retries (collectorConfig bc) + 1)) as [|fuel] eqn:Hfuel; [lia|].
  cbn [attemptLoop]. rewrite Hctx.
  eexists. eexists. split; [reflexivity|].
  rewrite afterLoop_calls, afterLoop_Error, afterLoop_Metrics. cbn. done.
Qed.

(** X9. With a negative retry count the loop is not entered: the unit of
    work is not called and the result is an empty success. *)
Theorem CollectWithRetry_negative_retries {H} `{!ErrorHandler H} (bc : BaseCollector H) :
  - 2 ^ 63 ≤ Retries (collectorConfig bc) < 0 →
  ∃ run,
    CollectWithRetry env region collectFunc bc = Some run ∧
    attemptsMade run = 0%nat ∧
    Error (returned run) = None ∧
    Metrics (returned run) = [] ∧
    Metadata (returned run) !! "attempts" = Some 1 ∧
    errorCount (collectorAfter run) = errorCount bc ∧
    successfulCollections (collectorAfter run) = successfulCollections bc.
Proof.
  intros Hretries. unfold CollectWithRetry.
  rewrite wrap64_small by lia.
  replace (Z.to_nat (Retries (collectorConfig bc) + 1)) with 0%nat by lia.
  cbn [attemptLoop]. eexists. split; [reflexivity|]. cbn. done.
Qed.

(** X10. An error of the unit of work that is not a classified one is
    wrapped as an internal error with the code COLLECTION_ERROR, which the
    default handler does not retry: the unit of work is called once. *)
Theorem CollectWithRetry_foreign_error_once (bc : BaseCollector DefaultErrorHandler)
    (metrics : list MetricData) (msg : string) :
  0 ≤ Retries (collectorConfig bc) < 2 ^ 63 - 1 →
  ctxErrAt env 0 = None →
  collectFunc 0 region = (metrics, Some (errors.Foreign msg)) →
  ∃ run e,
    CollectWithRetry env region collectFunc bc = Some run ∧
    attemptsMade run = 1%nat ∧
    Error (returned run) = Some e ∧
    errors.Type_ e = errors.ErrorTypeInternal ∧
    errors.Code e = "COLLECTION_ERROR" ∧
    errors.Cause e = Some msg ∧
    errors.Operation e = "collect" ∧
    errors.Region e = region ∧
    Metrics (returned run) = [].
Proof.
  intros Hretries Hctx Hcall. unfold CollectWithRetry.
  rewrite wrap64_small by lia.
  destruct (Z.to_nat (Retries (collectorConfig bc) + 1)) as [|fuel] eqn:Hfuel; [lia|].
  cbn [attemptLoop]. rewrite Hctx, Hcall.
  cbn [shouldRetry DefaultErrorHandler_ErrorHandler result collector lastErr calls].
  match goal with |- context [ShouldRetry ?eh (Some ?e0) 0] =>
    assert (Hno : ShouldRetry eh (Some e0) 0 = false)
  end.
  { unfold ShouldRetry. case_bool_decide; [done|]. reflexivity. }
  rewrite Hno. cbn [negb].
  eexists. eexists. split; [reflexivity|].
  rewrite afterLoop_calls, afterLoop_Error, afterLoop_Metrics. cbn. done.
Qed.

End CollectWithRetryDefault.

Section CollectWithRetryExamples.
Import collectors.
Local Open Scope Z_scope.

(** The retry test: two network errors, then one metric. *)
Lemma retry_test_run :
  ∃ run, CollectWithRetry quietSurroundings "us-east-1" failsTwiceThenOne ec2Collector
         = Some run ∧
         Metrics (returned run) = [oneMetric] ∧ attemptsMade run = 3%nat ∧
         Error (returned run) = None.
Proof. eexists. split; [vm_compute; reflexivity|]. repeat split. Defined.

Lemma CollectWithRetry_metrics_are_last_output_witness :
  ∃ run, CollectWithRetry quietSurroundings "us-east-1" failsTwiceThenOne ec2Collector
         = Some run ∧
         Error (returned run) = None ∧
         successfulCollections (collectorAfter run) = 1.
Proof.
  destruct retry_test_run as (run & Hrun & Hm & _).
  exists run. split; [exact Hrun|].
  assert (Hne : Metrics (returned run) ≠ []) by (rewrite Hm; discriminate).
  destruct (CollectWithRetry_metrics_are_last_output
              quietSurroundings "us-east-1" failsTwiceThenOne ec2Collector run Hrun Hne)
    as (He & _ & Hs & _).
  split; [exact He | exact Hs].
Defined.

Lemma CollectWithRetry_calls_within_budget_witness :
  ∃ run, CollectWithRetry quietSurroundings "us-east-1" failsTwiceThenOne ec2Collector
         = Some run ∧
         Z.of_nat (attemptsMade run) ≤ 2 + 1.
Proof.
  destruct retry_test_run as (run & Hrun & _).
  exists run. split; [exact Hrun|].
  apply (CollectWithRetry_calls_within_budget
           quietSurroundings "us-east-1" failsTwiceThenOne ec2Collector run Hrun).
  vm_compute. split; [discriminate | reflexivity].
Defined.

(** Three calls are made in the retry test, and the metadata says one. *)
Lemma CollectWithRetry_attempts_metadata_witness :
  ∃ run, CollectWithRetry quietSurroundings "us-east-1" failsTwiceThenOne ec2Collector
         = Some run ∧
         attemptsMade run = 3%nat ∧
         Metadata (returned run) !! "attempts" = Some 1.
Proof.
  destruct retry_test_run as (run & Hrun & Hm & Hcalls & He).
  exists run. split; [exact Hrun|]. split; [exact Hcalls|].
  destruct (CollectWithRetry_attempts_metadata
              quietSurroundings "us-east-1" failsTwiceThenOne ec2Collector run Hrun)
    as (Hok & _).
  exact (proj1 (Hok He)).
Defined.

Lemma CollectWithRetry_two_budgets_witness :
  ∃ run, CollectWithRetry quietSurroundings "us-east-1" alwaysThrottled ec2Collector
         = Some run ∧
         Z.of_nat (attemptsMade run) = 3.
Proof.
  destruct (CollectWithRetry_two_budgets quietSurroundings "us-east-1" alwaysThrottled
              ec2Collector)
    as (run & Hrun & Hcalls & _).
  - reflexivity.
  - vm_compute. split; [discriminate | reflexivity].
  - intros n. reflexivity.
  - intros n d. reflexivity.
  - intros n. eexists. eexists. split; reflexivity.
  - exists run. split; [exact Hrun|]. exact Hcalls.
Defined.

Lemma CollectWithRetry_cancelled_at_start_witness :
  ∃ run, CollectWithRetry cancelledSurroundings "us-east-1" failsTwiceThenOne ec2Collector
         = Some run ∧
         attemptsMade run = 0%nat ∧ errorCount (collectorAfter run) = 0.
Proof.
  destruct (CollectWithRetry_cancelled_at_start cancelledSurroundings "us-east-1"
              failsTwiceThenOne ec2Collector "context canceled")
    as (run & e & Hrun & Hcalls & _ & _ & _ & _ & _ & Herrs & _).
  - vm_compute. split; [discriminate | reflexivity].
  - reflexivity.
  - exists run. split; [exact Hrun|]. split; [exact Hcalls | exact Herrs].
Defined.

Lemma CollectWithRetry_negative_retries_witness :
  ∃ run, CollectWithRetry quietSurroundings "us-east-1" alwaysThrottled minusOneCollector
         = Some run ∧
         attemptsMade run = 0%nat ∧ Error (returned run) = None.
Proof.
  destruct (CollectWithRetry_negative_retries quietSurroundings "us-east-1"
              alwaysThrottled minusOneCollector)
    as (run & Hrun & Hcalls & Herr & _).
  - vm_compute. split; [discriminate | reflexivity].
  - exists run. split; [exact Hrun|]. split; [exact Hcalls | exact Herr].
Defined.

Lemma CollectWithRetry_foreign_error_once_witness :
  ∃ run, CollectWithRetry quietSurroundings "us-east-1" failsForeign ec2Collector
         = Some run ∧
         attemptsMade run = 1%nat.
Proof.
  destruct (CollectWithRetry_foreign_error_once quietSurroundings "us-east-1"
              failsForeign ec2Collector [] "unexpected EOF")
    as (run & e & Hrun & Hcalls & _).
  - vm_compute. split; [discriminate | reflexivity].
  - reflexivity.
  - reflexivity.
  - exists run. split; [exact Hrun|]. exact Hcalls.
Defined.

End CollectWithRetryExamples.

(** * The circuit breaker inside the wrapper *)

Section BreakerInWrapper.
Import collectors.
Local Open Scope Z_scope.

Lemma cbShouldRetry_notClosed now cb err attempt :
  notClosedSince cb (snd (cbShouldRetry now cb err attempt)).
Proof.
  unfold cbShouldRetry, isCircuitOpen, notClosedSince.
  case_decide as Hopen; [case_bool_decide|]; cbn; split; done.
Qed.

Lemma recordFailure_notClosed now cb :
  (state cb ≠ CircuitBreakerClosed → state (recordFailure now cb) ≠ CircuitBreakerClosed) ∧
  failureCount cb ≤ failureCount (recordFailure now cb) ≤ failureCount cb + 1.
Proof.
  unfold recordFailure, openCircuit. cbn.
  repeat case_decide; try case_bool_decide; cbn; split; try done; try lia;
    intros _; discriminate.
Qed.

Context (env : Surroundings) (region : string) (collectFunc : CollectFunc).

Lemma attemptLoop_breaker (fuel : nat) :
  ∀ attempt (l : Locals CircuitBreakerErrorHandler) cb,
    notClosedSince cb (errorHandler (collector l)) →
    match attemptLoop env region collectFunc fuel attempt l with
    | LoopLeft l' | Returned l' => notClosedSince cb (errorHandler (collector l'))
    | Aborted _ => True
    end.
Proof.
  induction fuel as [|fuel IH]; intros attempt l cb Hcb; cbn [attemptLoop]; [done|].
  destruct (ctxErrAt env attempt); [exact Hcb|].
  destruct (collectFunc attempt region) as [metrics [err|]]; [|exact Hcb].
  cbn [shouldRetry CircuitBreaker_ErrorHandler].
  match goal with
  | |- context [cbShouldRetry ?now ?h ?e ?a] =>
      pose proof (cbShouldRetry_notClosed now h e a) as Hstep;
      destruct (cbShouldRetry now h e a) as [retry handler]
  end.
  cbn [snd] in Hstep.
  assert (Hcb' : notClosedSince cb handler).
  { destruct Hcb as [Hs Hf], Hstep as [Hs' Hf']. split; [auto | congruence]. }
  destruct retry; cbn [negb]; [|exact Hcb'].
  case_bool_decide.
  - destruct (getRetryDelay _ _ _ _); [|done|done].
    destruct (ctxDoneInBackoff env attempt d); [exact Hcb'|].
    apply IH. exact Hcb'.
  - apply IH. exact Hcb'.
Qed.

(** X11. A breaker held by a collector only hears of failures: the
    wrapper never records a success on it. So an execution never closes a
    breaker that is open or half-open and never lowers its failure count;
    it adds at most one failure, and none when the result has no error. *)
Theorem CollectWithRetry_never_closes_breaker
    (bc : BaseCollector CircuitBreakerErrorHandler) run :
  CollectWithRetry env region collectFunc bc = Some run →
  let cb := errorHandler bc in
  let cb' := errorHandler (collectorAfter run) in
  (state cb ≠ CircuitBreakerClosed → state cb' ≠ CircuitBreakerClosed) ∧
  failureCount cb ≤ failureCount cb' ≤ failureCount cb + 1 ∧
  (Error (returned run) = None → failureCount cb' = failureCount cb).
Proof.
  unfold CollectWithRetry.
  set (l0 := mkLocals _ None bc 0%nat).
  pose proof (attemptLoop_breaker
                (Z.to_nat (time.wrap64 (Retries (collectorConfig bc) + 1))) 0 l0
                (errorHandler bc) ltac:(by split)) as Hloop.
  destruct (attemptLoop _ _ _ _ _ _) as [l|l|why]; [| |discriminate].
  - intros [= <-]. cbv zeta. destruct Hloop as [Hs Hf].
    rewrite afterLoop_Error. unfold afterLoop.
    destruct l as [r [e|] c k]; cbn [lastErr result collector] in *.
    + case_bool_decide; cbn.
      * pose proof (recordFailure_notClosed (clockEnd env) (errorHandler c)) as [Hs' Hf'].
        unfold cbHandleError. split_and!; [auto | lia | lia | intros [=]].
      * split_and!; [done | lia | lia | done].
    + cbn. split_and!; [done | lia | lia | done].
  - intros [= <-]. cbv zeta. destruct Hloop as [Hs Hf]. cbn in *.
    split_and!; [done | lia | lia | done].
Qed.

End BreakerInWrapper.

Section BreakerInWrapperExample.
Import collectors.

(** An open breaker after a successful collection: still not closed. *)
Lemma CollectWithRetry_never_closes_breaker_witness :
  ∃ run,
    CollectWithRetry quietSurroundings "us-east-1" failsTwiceThenOne guardedCollector
    = Some run ∧
    state (errorHandler (collectorAfter run)) ≠ CircuitBreakerClosed.
Proof.
  assert (Hrun : ∃ run,
            CollectWithRetry quietSurroundings "us-east-1" failsTwiceThenOne
                             guardedCollector = Some run)
    by (eexists; vm_compute; reflexivity).
  destruct Hrun as [run Hrun]. exists run. split; [exact Hrun|].
  destruct (CollectWithRetry_never_closes_breaker
              quietSurroundings "us-east-1" failsTwiceThenOne guardedCollector run Hrun)
    as (Hstate & _).
  apply Hstate. vm_compute. discriminate.
Defined.

End BreakerInWrapperExample.

(** * The life cycle and the health of a collector *)

Section CollectorHealth.
Import collectors.
Local Open Scope Z_scope.

Context {H : Type} `{!ErrorHandler H}.

(** Without a cancellation during a back-off wait the wrapper reaches
    the statements after its loop. *)
Lemma attemptLoop_not_returned env region collectFunc (fuel : nat) :
  (∀ attempt d, ctxDoneInBackoff env attempt d = None) →
  ∀ attempt (l : Locals H),
    match attemptLoop env region collectFunc fuel attempt l with
    | Returned _ => False
    | _ => True
    end.
Proof.
  intros Hquiet.
  induction fuel as [|fuel IH]; intros attempt l; cbn [attemptLoop]; [done|].
  destruct (ctxErrAt env attempt); [done|].
  destruct (collectFunc attempt region) as [metrics [err|]]; [|done].
  destruct (shouldRetry _ _ _ _) as [retry handler].
  destruct retry; cbn [negb]; [|done].
  case_bool_decide.
  - destruct (getRetryDelay _ _ _ _); [|done|done].
    rewrite Hquiet. apply IH.
  - apply IH.
Qed.

Lemma afterLoop_collection_recorded env (l : Locals H) :
  let bc := collectorAfter (afterLoop env l) in
  status bc = status (collector l) ∧
  collectorConfig bc = collectorConfig (collector l) ∧
  lastCollection bc = Some (clockEnd env) ∧
  metricsCollected bc = metricsCollected (collector l) + 1.
Proof.
  unfold afterLoop.
  destruct l as [r [e|] c k]; cbn; [case_bool_decide|]; cbn; done.
Qed.

(** X12. Every collection that runs to the end of the wrapper is
    recorded as a collection, also one whose every attempt failed. So a
    running collector answers its health check with nil for two intervals
    after the collection ended, whatever the collection returned. *)
Theorem Health_nil_after_any_collection env region collectFunc
    (bc : BaseCollector H) (run : Run) (t : time.Time) :
  status bc = StatusRunning →
  (∀ attempt d, ctxDoneInBackoff env attempt d = None) →
  CollectWithRetry env region collectFunc bc = Some run →
  0 < Interval (collectorConfig bc) < 2 ^ 62 →
  clockEnd env ≤ t < clockEnd env + 2 * Interval (collectorConfig bc) →
  metricsCollected (collectorAfter run) = metricsCollected bc + 1 ∧
  Health t (collectorAfter run) = HealthNil.
Proof.
  intros Hrunning Hquiet Hrun Hinterval Ht. revert Hrun.
  unfold CollectWithRetry.
  set (l0 := mkLocals _ None bc 0%nat).
  pose proof (attemptLoop_not_returned env region collectFunc
                (Z.to_nat (time.wrap64 (Retries (collectorConfig bc) + 1)))
                Hquiet 0 l0) as Hnot.
  pose proof (attemptLoop_frame env region collectFunc
                (Z.to_nat (time.wrap64 (Retries (collectorConfig bc) + 1)))
                0 l0 l0 ltac:(by unfold sameFrame)) as Hframe.
  destruct (attemptLoop _ _ _ _ _ _) as [l|l|why]; [|done|discriminate].
  intros [= <-].
  destruct Hframe as (_ & _ & Hcfg & Hst & _ & Hm).
  destruct (afterLoop_collection_recorded env l) as (Hst' & Hcfg' & Hlast & Hm').
  cbn [collector l0] in *.
  split; [lia|].
  unfold Health. rewrite Hst', Hst, Hlast, Hcfg', Hcfg.
  rewrite decide_True by exact Hrunning.
  rewrite wrap64_small by lia.
  rewrite bool_decide_eq_true_2; [done|].
  unfold time.Since, time.Sub, time.minDuration, time.maxDuration. lia.
Qed.

(** X13. A running collector whose last collection is not recent is
    judged by its counters: its health check returns HIGH_ERROR_RATE
    exactly when it has succeeded at least once and has failed more often
    than it has succeeded. A collector that has never succeeded is
    reported healthy, however many errors it has counted. *)
Theorem Health_error_rate (now : time.Time) (bc : BaseCollector H) :
  status bc = StatusRunning →
  match lastCollection bc with
  | Some last => time.wrap64 (2 * Interval (collectorConfig bc)) ≤ time.Since now last
  | None => True
  end →
  0 ≤ successfulCollections bc →
  0 ≤ errorCount bc →
  successfulCollections bc + errorCount bc < 2 ^ 53 →
  (Health now bc
   = HealthError (Some (errors.NewValidationError "HIGH_ERROR_RATE"
                                                  "collector has high error rate"))
   ↔ 0 < successfulCollections bc < errorCount bc) ∧
  (Health now bc = HealthNil
   ↔ successfulCollections bc = 0 ∨ errorCount bc ≤ successfulCollections bc).
Proof.
  intros Hrunning Hstale Hs He Hsum.
  unfold Health. rewrite decide_True by exact Hrunning.
  assert (Hrecent :
            match lastCollection bc with
            | Some last =>
                bool_decide (time.Since now last
                             < time.wrap64 (2 * Interval (collectorConfig bc)))
            | None => false
            end = false).
  { destruct (lastCollection bc); [|done].
    apply bool_decide_eq_false_2. lia. }
  rewrite Hrecent.
  case_bool_decide as Hpos.
  - rewrite wrap64_small by lia.
    rewrite bool_decide_eq_true_2 by lia.
    case_bool_decide; split; split; intros Hgoal; try done; try lia.
  - split; split; intros Hgoal; try done; try lia.
Qed.

End CollectorHealth.

Section CollectorLifeCycle.
Import collectors.
Local Open Scope Z_scope.

Context {H : Type}.

Lemma validateConfig_None (bc : BaseCollector H) (globalRegions : list string) :
  validateConfig bc globalRegions = None ↔
  0 < Interval (collectorConfig bc) ∧ 0 < Timeout (collectorConfig bc) ∧
  0 ≤ Retries (collectorConfig bc) ∧
  (EnabledRegions (collectorConfig bc) ≠ [] ∨ globalRegions ≠ []).
Proof.
  unfold validateConfig, getEnabledRegions.
  destruct (EnabledRegions (collectorConfig bc)) as [|own owns];
    destruct globalRegions as [|region regions]; cbn [length];
    repeat case_bool_decide; cbn [length] in *;
    split; intros Hvalid; try done; try lia;
    try (destruct Hvalid as (? & ? & ? & [?|?]); done || lia);
    split_and!; try lia; (by left) || (by right).
Qed.

(** X14. Starting a collector that is not running succeeds exactly when
    its configuration is valid: positive interval and timeout, a
    non-negative retry budget, and a region of its own or of the global
    configuration. It then runs and keeps its last error. Otherwise it is
    left in the error state with the returned error as its last error,
    which is what its health check returns from then on; nothing else of
    the collector changes in either case. *)
Theorem Start_succeeds_iff_config_valid (bc : BaseCollector H) (globalRegions : list string) :
  status bc ≠ StatusRunning →
  let '(err, bc') := Start bc globalRegions in
  (err = None ↔
     0 < Interval (collectorConfig bc) ∧ 0 < Timeout (collectorConfig bc) ∧
     0 ≤ Retries (collectorConfig bc) ∧
     (EnabledRegions (collectorConfig bc) ≠ [] ∨ globalRegions ≠ [])) ∧
  (err = None → status bc' = StatusRunning ∧ lastError bc' = lastError bc) ∧
  (err ≠ None →
     status bc' = StatusError ∧ lastError bc' = err ∧
     ∀ now, Health now bc' = HealthError err) ∧
  collectorConfig bc' = collectorConfig bc ∧
  errorCount bc' = errorCount bc ∧
  successfulCollections bc' = successfulCollections bc ∧
  lastCollection bc' = lastCollection bc.
Proof.
  intros Hnot. unfold Start. rewrite decide_False by exact Hnot.
  pose proof (validateConfig_None bc globalRegions) as Hvalid.
  destruct (validateConfig bc globalRegions) as [err|].
  - split_and!; done.
  - split_and!; done.
Qed.

End CollectorLifeCycle.

(** * The collector registry: removing *)

Section RegistryMore.
Import collectors.

Context {C : Type} `{!MetricCollector C}.

(** X15. Registering a collector and then unregistering its name gives
    back the registry as it was; in between the collector is found under
    its name. *)
Theorem Register_then_Unregister (collectors : gmap string C) (c : C)
    (collectors' : gmap string C) :
  Register collectors (Some c) = (None, collectors') →
  Get collectors' (Name c) = Some c ∧
  Unregister collectors' (Name c) = (None, collectors).
Proof.
  unfold Register, Unregister, Get.
  case_decide; [discriminate|].
  destruct (collectors !! Name c) eqn:Hfresh; [discriminate|].
  intros [= <-]. rewrite lookup_insert_eq. split; [done|].
  f_equal. rewrite delete_insert_eq. by apply delete_id.
Qed.

(** X16. Unregistering fails exactly for a name that is not registered,
    and then leaves the registry alone. When it succeeds the name is no
    longer found, every other name is found as before, and the name can
    be registered again. *)
Theorem Unregister_cases (collectors : gmap string C) (name : string) :
  let '(err, collectors') := Unregister collectors name in
  (err = None ↔ is_Some (Get collectors name)) ∧
  (err ≠ None → err = Some ("collector " +:+ name +:+ " not found") ∧
                collectors' = collectors) ∧
  (err = None →
     Get collectors' name = None ∧
     (∀ other, other ≠ name → Get collectors' other = Get collectors other) ∧
     size collectors = S (size collectors')).
Proof.
  unfold Unregister, Get.
  destruct (collectors !! name) as [c|] eqn:Hname.
  - split_and!; try done.
    intros _. split_and!.
    + apply lookup_delete_eq.
    + intros other Hother. by apply lookup_delete_ne.
    + rewrite <- (insert_delete_id collectors name c) at 1 by exact Hname.
      rewrite map_size_insert_None; [done|]. apply lookup_delete_eq.
  - split_and!; try done; try (split; [done|]; intros [? ?]; done).
Qed.

End RegistryMore.

(** * The health package beyond the reduction rule *)

Section HealthStatuses.
Import health.

Lemma allChecks_nonempty_any s (checks : gmap string CheckResult) :
  checks ≠ ∅ → allChecks s checks → anyCheck s checks.
Proof.
  intros Hne Hall.
  destruct (map_choose checks Hne) as (k & r & Hk).
  exists k, r. split; [exact Hk|]. exact (Hall k r Hk).
Qed.

(** What the hypotheses about a check map entail, spelt out until two of
    them clash. *)
Ltac status_facts :=
  repeat match goal with
         | H : _ ∧ _ |- _ => destruct H
         | H : _ ∨ _ |- _ => destruct H
         | Hne : ?c ≠ ∅, Ha : allChecks ?s ?c |- _ =>
             lazymatch goal with
             | _ : anyCheck s c |- _ => fail
             | _ => pose proof (allChecks_nonempty_any s c Hne Ha)
             end
         | Hany : anyCheck ?s ?c |- _ =>
             lazymatch goal with
             | _ : c ≠ ∅ |- _ => fail
             | _ => pose proof (anyCheck_nonempty s c Hany)
             end
         end;
  try match goal with
      | Ha : allChecks ?s ?c, Hb : anyCheck ?s' ?c |- _ =>
          let E := fresh in pose proof (allChecks_any s s' c Ha Hb) as E; discriminate E
      end.

Ltac status_cases :=
  rewrite aggregateStatus_any_status;
  repeat case_decide; split; intros ?; try done; status_facts; try done; try tauto.

(** The overall status is one of the four constants. *)
Lemma aggregateStatus_declared (checks : gmap string CheckResult) :
  declaredStatus (fst (aggregateStatus checks)).
Proof.
  rewrite aggregateStatus_any_status. unfold declaredStatus.
  repeat case_decide; auto.
Qed.

Lemma overall_healthy_iff (checks : gmap string CheckResult) :
  fst (aggregateStatus checks) = StatusHealthy ↔
  checks ≠ ∅ ∧ allChecks StatusHealthy checks.
Proof. status_cases. Qed.

Lemma overall_unhealthy_iff (checks : gmap string CheckResult) :
  fst (aggregateStatus checks) = StatusUnhealthy ↔ anyCheck StatusUnhealthy checks.
Proof. status_cases. Qed.

Lemma overall_degraded_iff (checks : gmap string CheckResult) :
  fst (aggregateStatus checks) = StatusDegraded ↔
  ¬ anyCheck StatusUnhealthy checks ∧
  (anyCheck StatusDegraded checks ∨
   (anyCheck StatusHealthy checks ∧ ¬ allChecks StatusHealthy checks)).
Proof. status_cases. Qed.

(** X17. Whatever statuses the results carry, also ones that are none of
    the four constants: the overall status is healthy exactly when there
    is a result and every result is healthy, and then the summary reads
    "All systems operational"; it is unhealthy exactly when some result is
    unhealthy; it is degraded exactly when none is unhealthy and either
    one is degraded or some but not all are healthy. *)
Theorem aggregateStatus_any_results (checks : gmap string CheckResult) :
  (fst (aggregateStatus checks) = StatusHealthy ↔
     checks ≠ ∅ ∧ allChecks StatusHealthy checks) ∧
  (fst (aggregateStatus checks) = StatusHealthy →
     snd (aggregateStatus checks) = "All systems operational") ∧
  (fst (aggregateStatus checks) = StatusUnhealthy ↔ anyCheck StatusUnhealthy checks) ∧
  (fst (aggregateStatus checks) = StatusDegraded ↔
     ¬ anyCheck StatusUnhealthy checks ∧
     (anyCheck StatusDegraded checks ∨
      (anyCheck StatusHealthy checks ∧ ¬ allChecks StatusHealthy checks))).
Proof.
  split_and!.
  - apply overall_healthy_iff.
  - intros Hh. apply overall_healthy_iff in Hh as (Hne & Hall).
    unfold aggregateStatus.
    destruct (counters_spec checks) as (Hu & Hd & Hk & Hhc & Hak & Hah & _).
    revert Hu Hd Hk Hhc Hak Hah.
    generalize (map_fold (λ _ result acc, countStatus result acc) noCounts checks).
    intros c Hu Hd Hk Hhc Hak Hah.
    assert (Hsize : size checks ≠ 0) by (by rewrite size_zero_empty).
    rewrite decide_False by exact Hsize.
    assert (healthyCount c = size checks) by tauto.
    assert (¬ 0 < unhealthyCount c).
    { intros Hpos. apply Hu in Hpos. pose proof (allChecks_any _ _ _ Hall Hpos). done. }
    assert (¬ 0 < degradedCount c).
    { intros Hpos. apply Hd in Hpos. pose proof (allChecks_any _ _ _ Hall Hpos). done. }
    assert (¬ 0 < unknownCount c).
    { intros Hpos. apply Hk in Hpos. pose proof (allChecks_any _ _ _ Hall Hpos). done. }
    assert (Hsummary : generateSummary (healthyCount c) (unhealthyCount c) (degradedCount c)
                                       (unknownCount c) (size checks)
                       = "All systems operational").
    { unfold generateSummary. repeat case_decide; try done; lia. }
    repeat case_decide; cbn [snd]; exact Hsummary.
  - apply overall_unhealthy_iff.
  - apply overall_degraded_iff.
Qed.

(** X18. The status codes of the HTTP surface. A request that is not a
    GET gets 405 from every handler; a GET gets 200 from the liveness
    probe. The health handler answers a GET with 200 or 503, never 500,
    and with 200 exactly when no result is unhealthy and some result is
    degraded or healthy. The readiness probe answers 200 exactly when no
    result is unhealthy; so it says ready whenever the health handler
    says 200, and also for a manager that holds no result yet. *)
Theorem http_status_codes (method : string) (results : gmap string CheckResult) :
  (method ≠ "GET" →
     handleHealth method results = 405%Z ∧ handleReadiness method results = 405%Z ∧
     handleLiveness method = 405%Z) ∧
  handleLiveness "GET" = 200%Z ∧
  (handleHealth "GET" results = 200%Z ∨ handleHealth "GET" results = 503%Z) ∧
  (handleHealth "GET" results = 200%Z ↔
     ¬ anyCheck StatusUnhealthy results ∧
     (anyCheck StatusDegraded results ∨ anyCheck StatusHealthy results)) ∧
  (handleReadiness "GET" results = 200%Z ↔ ¬ anyCheck StatusUnhealthy results) ∧
  handleReadiness "GET" ∅ = 200%Z ∧ handleHealth "GET" ∅ = 503%Z.
Proof.
  split_and!.
  - intros Hm. unfold handleHealth, handleReadiness, handleLiveness.
    rewrite !decide_False by exact Hm. done.
  - done.
  - unfold handleHealth, GetHealth. cbn.
    destruct (aggregateStatus_declared results) as [-> | [-> | [-> | ->]]]; auto.
  - unfold handleHealth, GetHealth. cbn -[aggregateStatus].
    rewrite aggregateStatus_any_status. unfold statusToHTTPCode.
    repeat case_decide; split; intros ?; try done; status_facts; try done; try tauto.
  - unfold handleReadiness, GetHealth. cbn -[aggregateStatus].
    pose proof (overall_unhealthy_iff results) as Hu.
    case_bool_decide; split; try done; tauto.
  - done.
  - done.
Qed.

End HealthStatuses.

(** * The checker table and the built-in checkers *)

Section ManagerRounds.
Import health.

Context {C : Type}.

(** One result taken from the channel. *)
Local Abbreviation store check m :=
  (λ (results : gmap string CheckResult) (k : string),
     match checkers m !! k with
     | Some c =>
         match check c with
         | Some result => <[cr_Name result := result]> results
         | None => results
         end
     | None => results
     end).

Lemma store_lookup (check : C → option CheckResult) (m : Manager C) :
  (∀ k c r, checkers m !! k = Some c → check c = Some r → cr_Name r = k) →
  ∀ (arrival : list string) (results : gmap string CheckResult) (k : string),
    foldl (store check m) results arrival !! k =
      match checkers m !! k ≫= check with
      | Some r => if decide (k ∈ arrival) then Some r else results !! k
      | None => results !! k
      end.
Proof.
  intros Hnames arrival.
  induction arrival as [|a arrival IH]; intros results k; cbn [foldl].
  - destruct (checkers m !! k ≫= check); [|done].
    rewrite decide_False; [done|]. apply not_elem_of_nil.
  - rewrite IH.
    destruct (checkers m !! k) as [c|] eqn:Hk; cbn [mbind option_bind].
    + destruct (check c) as [r|] eqn:Hr.
      * destruct (decide (k ∈ arrival)) as [Hin|Hnotin].
        { rewrite decide_True; [done|]. by right. }
        destruct (decide (a = k)) as [->|Hne].
        { rewrite decide_True by (by left). rewrite Hk, Hr.
          rewrite (Hnames k c r Hk Hr). by rewrite lookup_insert_eq. }
        rewrite decide_False.
        2: { intros Hin. apply elem_of_cons in Hin as [->|Hin]; done. }
        destruct (checkers m !! a) as [c'|] eqn:Ha; [|done].
        destruct (check c') as [r'|] eqn:Hr'; [|done].
        rewrite lookup_insert_ne; [done|].
        rewrite (Hnames a c' r' Ha Hr'). exact Hne.
      * destruct (checkers m !! a) as [c'|] eqn:Ha; [|done].
        destruct (check c') as [r'|] eqn:Hr'; [|done].
        rewrite lookup_insert_ne; [done|].
        rewrite (Hnames a c' r' Ha Hr'). intros ->. congruence.
    + destruct (checkers m !! a) as [c'|] eqn:Ha; [|done].
      destruct (check c') as [r'|] eqn:Hr'; [|done].
      rewrite lookup_insert_ne; [done|].
      rewrite (Hnames a c' r' Ha Hr'). intros ->. congruence.
Qed.

Lemma RunChecks_lookup (check : C → option CheckResult) (arrival : list string)
    (m : Manager C) :
  arrival ≡ₚ (map_to_list (checkers m)).*1 →
  (∀ k c r, checkers m !! k = Some c → check c = Some r → cr_Name r = k) →
  ∀ k, results (RunChecks check arrival m) !! k =
         match checkers m !! k ≫= check with
         | Some r => Some r
         | None => results m !! k
         end.
Proof.
  intros Harrival Hnames k. unfold RunChecks.
  case_decide as Hsize.
  - apply map_size_empty_iff in Hsize. rewrite Hsize, lookup_empty. done.
  - cbn. rewrite (store_lookup check m Hnames).
    destruct (checkers m !! k) as [c|] eqn:Hk; cbn [mbind option_bind]; [|done].
    destruct (check c); [|done].
    rewrite decide_True; [done|].
    rewrite Harrival. apply list_elem_of_fmap. exists (k, c). split; [done|].
    by apply elem_of_map_to_list.
Qed.

(** X19. One round of checks, every checker answering under the name it
    is registered by: the result table then holds, for every registered
    checker whose result was not dropped, that result; every other entry
    is as before. So a round never removes a result: the result of a
    checker whose answer was dropped, and a result stored under a name no
    checker has, stay as they were. The checker table and the running
    flag are not touched. *)
Theorem RunChecks_results (check : C → option CheckResult) (arrival : list string)
    (m : Manager C) :
  arrival ≡ₚ (map_to_list (checkers m)).*1 →
  (∀ k c r, checkers m !! k = Some c → check c = Some r → cr_Name r = k) →
  let m' := RunChecks check arrival m in
  checkers m' = checkers m ∧ running m' = running m ∧
  ∀ k, results m' !! k =
         match checkers m !! k ≫= check with
         | Some r => Some r
         | None => results m !! k
         end.
Proof.
  intros Harrival Hnames. cbv zeta. split_and!.
  - unfold RunChecks. by case_decide.
  - unfold RunChecks. by case_decide.
  - by apply RunChecks_lookup.
Qed.

(** Registering keeps every checker under its own name. *)
Lemma RegisterChecker_names `{!Checker C} (m : Manager C) (checker : C) :
  (∀ k c, checkers m !! k = Some c → checkerName c = k) →
  ∀ k c, checkers (RegisterChecker m checker) !! k = Some c → checkerName c = k.
Proof.
  intros Hm k c. unfold RegisterChecker. cbn.
  destruct (decide (checkerName checker = k)) as [<-|Hne].
  - rewrite lookup_insert_eq. by intros [= <-].
  - rewrite lookup_insert_ne by exact Hne. apply Hm.
Qed.

End ManagerRounds.

Section BuiltinCheckers.
Import health.

Lemma AWSCheck_cases (name : string) (regions : list string) (reachable : string → bool) :
  let result := AWSCheck name regions reachable in
  cr_Name result = name ∧
  (cr_Status result = StatusHealthy ↔
     regions ≠ [] ∧ Forall (λ region, reachable region = true) regions) ∧
  (cr_Status result = StatusUnhealthy ↔
     regions ≠ [] ∧ Forall (λ region, reachable region = false) regions) ∧
  (cr_Status result = StatusDegraded ↔
     regions = [] ∨
     (Exists (λ region, reachable region = true) regions ∧
      Exists (λ region, reachable region = false) regions)) ∧
  (cr_Error result ≠ "" ↔ cr_Status result = StatusUnhealthy).
Proof.
  cbv zeta. unfold AWSCheck.
  pose proof (filter_length_all (λ region, reachable region = true) regions) as Hall.
  pose proof (filter_length_pos (λ region, reachable region = true) regions) as Hpos.
  assert (Hnone : Forall (λ region, reachable region = false) regions ↔
                  ¬ Exists (λ region, reachable region = true) regions).
  { rewrite <- Forall_Exists_neg. apply Forall_proper; [|done].
    intros region. destruct (reachable region); split; done. }
  assert (Hsome : Exists (λ region, reachable region = false) regions ↔
                  ¬ Forall (λ region, reachable region = true) regions).
  { rewrite <- Exists_Forall_neg by (intros region; destruct (reachable region); auto).
    apply Exists_proper; [|done].
    intros region. destruct (reachable region); split; done. }
  assert (Hlen : length regions = 0 ↔ regions = []) by (destruct regions; done).
  pose proof (filter_length_le (λ region, reachable region = true) regions) as Hle.
  rewrite Hnone, Hsome, <- Hall, <- Hpos, <- Hlen.
  clear Hall Hpos Hnone Hsome Hlen. revert Hle.
  generalize (length (filter (λ region, reachable region = true) regions)).
  generalize (length regions).
  intros total n Hle.
  repeat case_decide; cbn; split_and!; try done;
    split; intros Hx; first [done | lia | exfalso; lia].
Qed.

(** X20. The AWS checker reports healthy exactly when there is a region
    and every region answers, unhealthy exactly when there is a region and
    none answers, and degraded otherwise: for no region at all, or for
    some but not all answering. It fills in the error text exactly when it
    reports unhealthy, and never reports unknown. *)
Theorem AWSCheck_status (name : string) (regions : list string) (reachable : string → bool) :
  let result := AWSCheck name regions reachable in
  cr_Name result = name ∧
  (cr_Status result = StatusHealthy ↔
     regions ≠ [] ∧ Forall (λ region, reachable region = true) regions) ∧
  (cr_Status result = StatusUnhealthy ↔
     regions ≠ [] ∧ Forall (λ region, reachable region = false) regions) ∧
  (cr_Status result = StatusDegraded ↔
     regions = [] ∨
     (Exists (λ region, reachable region = true) regions ∧
      Exists (λ region, reachable region = false) regions)) ∧
  (cr_Error result ≠ "" ↔ cr_Status result = StatusUnhealthy).
Proof. apply AWSCheck_cases. Qed.

Lemma configIssues_length (cfg : CheckedConfig) :
  length (configIssues cfg) = configFaults cfg.
Proof.
  unfold configIssues, configFaults.
  rewrite !length_app.
  assert (Hlen : length (cfg_EnabledRegions cfg) = 0 ↔ cfg_EnabledRegions cfg = [])
    by (destruct (cfg_EnabledRegions cfg); done).
  repeat case_decide; repeat case_bool_decide; destruct (anyEnabled cfg); cbn;
    try done; tauto.
Qed.

Lemma configFaults_zero (cfg : CheckedConfig) :
  configFaults cfg = 0 ↔
  cfg_EnabledRegions cfg ≠ [] ∧ cfg_CollectorEndpoint cfg ≠ "" ∧
  cfg_ServiceName cfg ≠ "" ∧ anyEnabled cfg = true.
Proof.
  unfold configFaults.
  repeat case_bool_decide; destruct (anyEnabled cfg); cbn; split; try done; try lia;
    tauto.
Qed.

Lemma ConfigCheck_cases (name : string) (cfg : CheckedConfig) :
  let result := ConfigCheck name cfg in
  cr_Name result = name ∧
  (cr_Status result = StatusHealthy ↔
     cfg_EnabledRegions cfg ≠ [] ∧ cfg_CollectorEndpoint cfg ≠ "" ∧
     cfg_ServiceName cfg ≠ "" ∧ anyEnabled cfg = true) ∧
  (cr_Status result = StatusDegraded ↔ 1 ≤ configFaults cfg ≤ 2) ∧
  (cr_Status result = StatusUnhealthy ↔ 3 ≤ configFaults cfg) ∧
  (cr_Error result ≠ "" ↔ cr_Status result = StatusUnhealthy).
Proof.
  cbv zeta. unfold ConfigCheck. rewrite configIssues_length.
  assert (Hnone : configFaults cfg = 0 ↔
                  cfg_EnabledRegions cfg ≠ [] ∧ cfg_CollectorEndpoint cfg ≠ "" ∧
                  cfg_ServiceName cfg ≠ "" ∧ anyEnabled cfg = true).
  { unfold configFaults.
    repeat case_bool_decide; destruct (anyEnabled cfg); cbn; split; try done; try lia;
      tauto. }
  repeat case_decide; cbn; split_and!; try done; split; intros Hx; try done;
    try lia; try tauto.
Qed.

(** X21. The configuration checker grades by the number of faults among
    four: no region, no collector endpoint, no service name, no collector
    enabled. It reports healthy for none, degraded for one or two,
    unhealthy for three or four, and fills in the error text exactly when
    it reports unhealthy. *)
Theorem ConfigCheck_status (name : string) (cfg : CheckedConfig) :
  let result := ConfigCheck name cfg in
  cr_Name result = name ∧
  (cr_Status result = StatusHealthy ↔
     cfg_EnabledRegions cfg ≠ [] ∧ cfg_CollectorEndpoint cfg ≠ "" ∧
     cfg_ServiceName cfg ≠ "" ∧ anyEnabled cfg = true) ∧
  (cr_Status result = StatusDegraded ↔ 1 ≤ configFaults cfg ≤ 2) ∧
  (cr_Status result = StatusUnhealthy ↔ 3 ≤ configFaults cfg) ∧
  (cr_Error result ≠ "" ↔ cr_Status result = StatusUnhealthy).
Proof. apply ConfigCheck_cases. Qed.

End BuiltinCheckers.

(** * The health manager as the program wires it *)

Section WiredManager.
Import health.

Lemma wiredManager_names (cfg : CheckedConfig) :
  ∀ k c, checkers (wiredManager cfg) !! k = Some c → checkerName c = k.
Proof.
  unfold wiredManager. repeat apply RegisterChecker_names.
  intros k c. cbn. by rewrite lookup_empty.
Qed.

Lemma builtinCheck_name (reachable : string → bool) (c : BuiltinChecker) :
  cr_Name (builtinCheck reachable c) = checkerName c.
Proof.
  destruct c as [regions|service|cfg]; cbn.
  - by destruct (AWSCheck_cases "aws_connectivity" regions reachable) as (-> & _).
  - done.
  - by destruct (ConfigCheck_cases "configuration" cfg) as (-> & _).
Qed.

(** The result table after a full round on the wired manager. *)
Lemma wiredManager_round (cfg : CheckedConfig) (reachable : string → bool)
    (arrival : list string) :
  arrival ≡ₚ (map_to_list (checkers (wiredManager cfg))).*1 →
  results (RunChecks (λ c, Some (builtinCheck reachable c)) arrival (wiredManager cfg))
  = <["aws_connectivity" := AWSCheck "aws_connectivity" (cfg_EnabledRegions cfg) reachable]>
      (<["configuration" := ConfigCheck "configuration" cfg]>
         (<["basic" := BasicCheck "aws-monitor"]> ∅)).
Proof.
  intros Harrival. apply map_eq. intros k.
  rewrite (RunChecks_lookup _ _ _ Harrival).
  2: { intros k' c r Hk' [= <-]. rewrite builtinCheck_name.
       by apply (wiredManager_names cfg). }
  unfold wiredManager, RegisterChecker, NewManager. cbn.
  destruct (decide (k = "aws_connectivity")) as [->|Haws]; [by simplify_map_eq|].
  destruct (decide (k = "configuration")) as [->|Hcfg]; [by simplify_map_eq|].
  destruct (decide (k = "basic")) as [->|Hbasic]; [by simplify_map_eq|].
  by simplify_map_eq.
Qed.

Lemma anyCheck_three (s : Status) (aws config basic : CheckResult) :
  anyCheck s (<["aws_connectivity" := aws]>
                (<["configuration" := config]> (<["basic" := basic]> ∅)))
  ↔ cr_Status aws = s ∨ cr_Status config = s ∨ cr_Status basic = s.
Proof.
  unfold anyCheck.
  rewrite map_Exists_insert by (by simplify_map_eq).
  rewrite map_Exists_insert by (by simplify_map_eq).
  rewrite map_Exists_insert by (by simplify_map_eq).
  unfold hasStatus. split; [|tauto].
  intros [?|[?|[?|Hempty]]]; try tauto.
  by apply map_Exists_empty in Hempty.
Qed.

Lemma allChecks_three (s : Status) (aws config basic : CheckResult) :
  allChecks s (<["aws_connectivity" := aws]>
                 (<["configuration" := config]> (<["basic" := basic]> ∅)))
  ↔ cr_Status aws = s ∧ cr_Status config = s ∧ cr_Status basic = s.
Proof.
  unfold allChecks.
  rewrite map_Forall_insert by (by simplify_map_eq).
  rewrite map_Forall_insert by (by simplify_map_eq).
  rewrite map_Forall_insert by (by simplify_map_eq).
  unfold hasStatus. split; [tauto|].
  intros (? & ? & ?). split_and!; try done; apply map_Forall_empty.
Qed.

(** X22. The program registers the basic, the configuration and the AWS
    checker on one manager. After a full round of checks its overall
    status is healthy exactly when the configuration has no fault and
    every enabled region answers; unhealthy exactly when the
    configuration has three or more faults or there are regions and none
    answers; and degraded otherwise, never unknown. The health endpoint
    and the readiness probe then both answer 200 exactly when the status
    is not unhealthy. *)
Theorem wiredManager_overall (cfg : CheckedConfig) (reachable : string → bool)
    (arrival : list string) :
  arrival ≡ₚ (map_to_list (checkers (wiredManager cfg))).*1 →
  let m := RunChecks (λ c, Some (builtinCheck reachable c)) arrival (wiredManager cfg) in
  let overall := oh_Status (GetHealth (results m)) in
  let regions := cfg_EnabledRegions cfg in
  (overall = StatusHealthy ↔
     configFaults cfg = 0 ∧ Forall (λ region, reachable region = true) regions) ∧
  (overall = StatusUnhealthy ↔
     3 ≤ configFaults cfg ∨
     (regions ≠ [] ∧ Forall (λ region, reachable region = false) regions)) ∧
  (overall = StatusHealthy ∨ overall = StatusUnhealthy ∨ overall = StatusDegraded) ∧
  (handleHealth "GET" (results m) = 200%Z ↔ overall ≠ StatusUnhealthy) ∧
  (handleReadiness "GET" (results m) = 200%Z ↔ overall ≠ StatusUnhealthy).
Proof.
  intros Harrival. cbv zeta. rewrite (wiredManager_round cfg reachable arrival Harrival).
  destruct (AWSCheck_cases "aws_connectivity" (cfg_EnabledRegions cfg) reachable)
    as (_ & Hah & Hau & _).
  destruct (ConfigCheck_cases "configuration" cfg) as (_ & Hch & _ & Hcu & _).
  rewrite <- configFaults_zero in Hch.
  assert (Hbasic : cr_Status (BasicCheck "aws-monitor") = StatusHealthy) by reflexivity.
  pose proof (λ s, anyCheck_three s
                     (AWSCheck "aws_connectivity" (cfg_EnabledRegions cfg) reachable)
                     (ConfigCheck "configuration" cfg) (BasicCheck "aws-monitor"))
    as Hany3.
  pose proof (λ s, allChecks_three s
                     (AWSCheck "aws_connectivity" (cfg_EnabledRegions cfg) reachable)
                     (ConfigCheck "configuration" cfg) (BasicCheck "aws-monitor"))
    as Hall3.
  revert Hah Hau Hch Hcu Hbasic Hany3 Hall3.
  generalize (AWSCheck "aws_connectivity" (cfg_EnabledRegions cfg) reachable).
  generalize (ConfigCheck "configuration" cfg).
  generalize (BasicCheck "aws-monitor").
  intros basic config aws Hah Hau Hch Hcu Hbasic Hany3 Hall3.
  set (table := <["aws_connectivity" := aws]>
                  (<["configuration" := config]>
                     (<["basic" := basic]> (∅ : gmap string CheckResult)))) in *.
  assert (Hne : table ≠ ∅) by (apply insert_non_empty).
  clearbody table.
  assert (Hfaults : configFaults cfg = 0 → cfg_EnabledRegions cfg ≠ []).
  { rewrite configFaults_zero. tauto. }
  assert (Hhealthy : fst (aggregateStatus table) = StatusHealthy ↔
                     configFaults cfg = 0 ∧
                     Forall (λ region, reachable region = true) (cfg_EnabledRegions cfg)).
  { rewrite overall_healthy_iff, Hall3, Hch, Hah. tauto. }
  assert (Hunhealthy : fst (aggregateStatus table) = StatusUnhealthy ↔
                       3 ≤ configFaults cfg ∨
                       (cfg_EnabledRegions cfg ≠ [] ∧
                        Forall (λ region, reachable region = false)
                               (cfg_EnabledRegions cfg))).
  { rewrite overall_unhealthy_iff, Hany3, Hbasic, Hau, Hcu.
    split; [intros [Hx|[Hx|Hx]]; [by right | by left | discriminate Hx] | tauto]. }
  assert (Hdeclared : fst (aggregateStatus table) = StatusHealthy ∨
                      fst (aggregateStatus table) = StatusUnhealthy ∨
                      fst (aggregateStatus table) = StatusDegraded).
  { assert (Hany : anyCheck StatusHealthy table) by (apply Hany3; tauto).
    rewrite aggregateStatus_any_status.
    destruct (decide (table = ∅)); [contradiction|].
    destruct (decide (anyCheck StatusUnhealthy table)); [tauto|].
    destruct (decide (anyCheck StatusDegraded table)); [tauto|].
    destruct (decide (allChecks StatusUnknown table)) as [Hall|_].
    { pose proof (allChecks_any _ _ _ Hall Hany) as E. discriminate E. }
    destruct (decide (allChecks StatusHealthy table)); [tauto|].
    destruct (decide (anyCheck StatusHealthy table)); [tauto|contradiction]. }
  clear Hany3 Hall3 Hne Hah Hau Hch Hcu Hbasic.
  split_and!.
  - exact Hhealthy.
  - exact Hunhealthy.
  - exact Hdeclared.
  - unfold handleHealth, GetHealth.
    rewrite decide_True by reflexivity. cbn [oh_Status].
    clear Hhealthy Hunhealthy. revert Hdeclared.
    generalize (fst (aggregateStatus table)). intros overall [-> | [-> | ->]].
    + split; [discriminate | reflexivity].
    + split; [intros E; vm_compute in E; discriminate E | intros E; by destruct E].
    + split; [discriminate | reflexivity].
  - unfold handleReadiness, GetHealth.
    rewrite decide_True by reflexivity. cbn [oh_Status].
    clear Hhealthy Hunhealthy Hdeclared.
    generalize (fst (aggregateStatus table)). intros overall.
    case_bool_decide as Hx; split; intros E; done.
Qed.

End WiredManager.

(** * The scheduler: life cycle, job table and job execution *)

Section SchedulerLifeCycle.
Import scheduler.
Local Open Scope Z_scope.

Lemma scheduler_validateConfig_None (s : MetricScheduler) :
  validateConfig s = None ↔
  0 < TickInterval (config s) ∧ 0 < MaxConcurrentJobs (config s) ∧
  0 < JobTimeout (config s).
Proof.
  unfold validateConfig. repeat case_bool_decide; split; try done; lia.
Qed.

(** X23. Starting a scheduler that is not running succeeds exactly when
    the tick interval, the number of concurrent jobs and the job timeout
    are all positive. It notes the start time either way. After a
    success it runs, and as long as it has never ticked its health check
    returns nil at any later time. After a failure it is in the error
    state, and its health check returns SCHEDULER_ERROR, not the
    configuration error. The job table and the counters are not touched. *)
Theorem scheduler_Start_outcomes (now : time.Time) (s : MetricScheduler) :
  status s ≠ StatusRunning →
  let '(err, s') := Start now s in
  (err = None ↔
     0 < TickInterval (config s) ∧ 0 < MaxConcurrentJobs (config s) ∧
     0 < JobTimeout (config s)) ∧
  startTime s' = Some now ∧
  (err = None →
     status s' = StatusRunning ∧
     (lastTickTime s = None → ∀ later, Health later s' = None)) ∧
  (err ≠ None →
     status s' = StatusError ∧
     ∀ later, Health later s'
              = Some (errors.NewValidationError "SCHEDULER_ERROR"
                                                "scheduler is in error state")) ∧
  jobs s' = jobs s ∧ activeJobs s' = activeJobs s ∧ lastTickTime s' = lastTickTime s ∧
  completedJobs s' = completedJobs s ∧ failedJobs s' = failedJobs s.
Proof.
  intros Hnot. unfold Start. rewrite decide_False by exact Hnot.
  pose proof (scheduler_validateConfig_None (withStatus s StatusStarting (Some now)))
    as Hvalid.
  cbn [config withStatus] in Hvalid.
  destruct (validateConfig (withStatus s StatusStarting (Some now))) as [err|].
  - split_and!; done.
  - split_and!; try done.
    intros _. split; [done|]. intros Hnever later.
    unfold Health. cbn. by rewrite Hnever.
Qed.

(** X24. Stopping. A scheduler that is not running is left alone and nil
    is returned. A running one whose loop ends in time becomes stopped. If
    the caller's context is done first, a retryable time-out error for the
    operation "scheduler-stop" is returned and the scheduler stays in the
    stopping state: every later call of Stop returns nil without doing
    anything, and the health check keeps returning SCHEDULER_NOT_READY.
    The stop channel is closed by both and never made anew. *)
Theorem scheduler_Stop_outcomes (formatDuration : time.Duration → string)
    (s : MetricScheduler) (stopChClosed drained : bool) :
  (status s ≠ StatusRunning →
     Stop formatDuration s stopChClosed drained = Stopped None s stopChClosed) ∧
  (status s = StatusRunning → stopChClosed = false → drained = true →
     ∃ s', Stop formatDuration s stopChClosed drained = Stopped None s' true ∧
           status s' = StatusStopped ∧ jobs s' = jobs s ∧ activeJobs s' = activeJobs s) ∧
  (status s = StatusRunning → stopChClosed = false → drained = false →
     ∃ err s',
       Stop formatDuration s stopChClosed drained = Stopped (Some err) s' true ∧
       errors.Type_ err = errors.ErrorTypeTimeout ∧ errors.Code err = "TIMEOUT" ∧
       errors.Operation err = "scheduler-stop" ∧ errors.Retryable err = true ∧
       status s' = StatusStopping ∧
       (∀ again, Stop formatDuration s' true again = Stopped None s' true) ∧
       (∀ later, Health later s'
                 = Some (errors.NewValidationError "SCHEDULER_NOT_READY"
                                                   "scheduler is not ready"))).
Proof.
  split_and!.
  - intros Hnot. unfold Stop. by rewrite decide_True.
  - intros Hrun -> ->. unfold Stop.
    rewrite decide_False by (intros Hx; by apply Hx).
    eexists. split; [reflexivity|]. done.
  - intros Hrun -> ->. unfold Stop.
    rewrite decide_False by (intros Hx; by apply Hx).
    eexists _, _. split; [reflexivity|]. split_and!; try done.
Qed.

(** X25. A scheduler cannot be stopped twice. Start it with a valid
    configuration, stop it with the loop ending in time, start it again:
    the second start succeeds, and the next call of Stop ends in the panic
    of closing the stop channel that the first Stop closed. *)
Theorem scheduler_second_Stop_panics (formatDuration : time.Duration → string)
    (now now' : time.Time) (s : MetricScheduler) :
  status s ≠ StatusRunning →
  validateConfig s = None →
  ∃ s1 s2 s3,
    Start now s = (None, s1) ∧
    Stop formatDuration s1 false true = Stopped None s2 true ∧
    Start now' s2 = (None, s3) ∧
    status s3 = StatusRunning ∧
    ∀ drained, Stop formatDuration s3 true drained = ClosePanic.
Proof.
  intros Hnot Hvalid.
  assert (Hv : ∀ st t, validateConfig (withStatus s st t) = None) by (intros; exact Hvalid).
  eexists _, _, _. split_and!.
  - unfold Start. rewrite decide_False by exact Hnot. rewrite Hv. reflexivity.
  - unfold Stop. cbn [status withStatus].
    rewrite decide_False by (intros Hx; by apply Hx). reflexivity.
  - unfold Start. cbn [status withStatus].
    rewrite decide_False by discriminate.
    unfold validateConfig in *. cbn [config withStatus] in *. rewrite Hvalid. reflexivity.
  - reflexivity.
  - intros drained. unfold Stop. cbn [status withStatus].
    rewrite decide_False by (intros Hx; by apply Hx). reflexivity.
Qed.

End SchedulerLifeCycle.

Section SchedulerJobTable.
Import scheduler.
Local Open Scope Z_scope.

Lemma jobID_region_inj (collectorName region region' : string) :
  jobID collectorName region = jobID collectorName region' → region = region'.
Proof.
  unfold jobID. intros Heq.
  apply (inj (String.app collectorName)) in Heq.
  by apply (inj (String.app "-")) in Heq.
Qed.

(** The job [ScheduleCollector] builds for a region, with the clock
    reading it was built at. *)
Local Abbreviation newJob collectorName interval region reading :=
  (mkScheduledJob (jobID collectorName region) collectorName region interval
                  (time.Add reading (100 * time.Millisecond)) None None true).

Lemma storeJobs_other (collectorName : string) (interval : time.Duration)
    (clock : nat → time.Time) (regions : list string) :
  ∀ i jobs k,
    (∀ region, region ∈ regions → k ≠ jobID collectorName region) →
    storeJobs collectorName interval clock i regions jobs !! k = jobs !! k.
Proof.
  induction regions as [|r regions IH]; intros i jobs k Hk; cbn [storeJobs]; [done|].
  rewrite IH by (intros region Hin; apply Hk; by right).
  rewrite lookup_insert_ne; [done|]. apply not_eq_sym, Hk. by left.
Qed.

Lemma storeJobs_stored (collectorName : string) (interval : time.Duration)
    (clock : nat → time.Time) (regions : list string) :
  ∀ i jobs region,
    region ∈ regions →
    ∃ j, (i ≤ j < i + length regions)%nat ∧
         storeJobs collectorName interval clock i regions jobs
           !! jobID collectorName region
         = Some (newJob collectorName interval region (clock j)).
Proof.
  induction regions as [|r regions IH]; intros i jobs region Hin; cbn [storeJobs].
  - by apply elem_of_nil in Hin.
  - destruct (decide (region ∈ regions)) as [Hlater|Hnot].
    + destruct (IH (S i) (<[jobID collectorName r :=
                               newJob collectorName interval r (clock i)]> jobs)
                   region Hlater) as (j & Hj & Hlookup).
      exists j. split; [cbn [length]; lia | exact Hlookup].
    + apply elem_of_cons in Hin as [->|Hin]; [|done].
      exists i. split; [cbn [length]; lia|].
      rewrite storeJobs_other.
      * by rewrite lookup_insert_eq.
      * intros region Hin Heq. apply jobID_region_inj in Heq. by subst.
Qed.

Lemma filterRegions_spec (s : MetricScheduler) (regions : list string) (region : string) :
  region ∈ filterRegions s regions ↔
  region ∈ regions ∧
  (EnabledRegions (config s) = [] ∨ region ∈ EnabledRegions (config s)).
Proof.
  unfold filterRegions. case_bool_decide as Hlen.
  - rewrite list_elem_of_filter, elem_of_list_to_set.
    destruct (EnabledRegions (config s)); [cbn in Hlen; lia|]. split; [|intros (? & [?|?])]; try done.
    intros (? & ?). split; [done|]. by right.
  - destruct (EnabledRegions (config s)); [|cbn in Hlen; lia].
    split; [|tauto]. intros ?. split; [done|]. by left.
Qed.

(** X26. Scheduling a collector. For a name the registry does not hold,
    COLLECTOR_NOT_FOUND is returned and the scheduler is left alone. For
    a registered one, nil is returned; the regions kept are those of the
    request that the scheduler's own list of enabled regions holds, all of
    them when that list is empty; for every kept region the table then
    holds, under the identifier made of the name and the region, a fresh
    enabled job with no last run, due 100 ms after a clock reading taken
    during the call; every other entry of the table, the active jobs and
    the counters are as before. *)
Theorem ScheduleCollector_outcomes {C} (registry : gmap string C) (clock : nat → time.Time)
    (s : MetricScheduler) (collectorName : string) (regions : list string)
    (interval : time.Duration) :
  let '(err, s') := ScheduleCollector registry clock s collectorName regions interval in
  (registry !! collectorName = None →
     (∃ e, err = Some e ∧ errors.Code e = "COLLECTOR_NOT_FOUND" ∧
           errors.Type_ e = errors.ErrorTypeValidation) ∧ s' = s) ∧
  (is_Some (registry !! collectorName) →
     err = None ∧
     (∀ region,
        region ∈ regions →
        EnabledRegions (config s) = [] ∨ region ∈ EnabledRegions (config s) →
        ∃ j, (j < length regions)%nat ∧
             jobs s' !! jobID collectorName region
             = Some (mkScheduledJob (jobID collectorName region) collectorName region
                                    interval (clock j + 100 * time.Millisecond)
                                    None None true)) ∧
     (∀ k, (∀ region, region ∈ regions → k ≠ jobID collectorName region) →
           jobs s' !! k = jobs s !! k) ∧
     (∀ k, jobs s' !! k = jobs s !! k ∨
           ∃ region, region ∈ regions ∧ k = jobID collectorName region) ∧
     activeJobs s' = activeJobs s ∧ status s' = status s ∧
     completedJobs s' = completedJobs s ∧ failedJobs s' = failedJobs s).
Proof.
  unfold ScheduleCollector, collectors.Get.
  destruct (registry !! collectorName) as [c|] eqn:Hreg.
  - split; [done|]. intros _. split_and!; try done.
    + intros region Hin Hkept. cbn [jobs withJobs].
      assert (Hk : region ∈ filterRegions s regions) by (by apply filterRegions_spec).
      destruct (storeJobs_stored collectorName interval clock (filterRegions s regions)
                                 0%nat (jobs s) region Hk) as (j & Hj & Hlookup).
      exists j. split; [|exact Hlookup].
      assert (length (filterRegions s regions) ≤ length regions)%nat; [|lia].
      unfold filterRegions. case_bool_decide; [apply length_filter|done].
    + intros k Hk. cbn [jobs withJobs]. apply storeJobs_other.
      intros region Hin. apply Hk. by apply filterRegions_spec in Hin as (? & _).
    + intros k. cbn [jobs withJobs].
      destruct (decide (k ∈ jobID collectorName <$> regions)) as [Hin|Hnot].
      * right. apply list_elem_of_fmap in Hin as (region & -> & Hin). by exists region.
      * left. apply storeJobs_other. intros region Hin ->. apply Hnot.
        apply list_elem_of_fmap. exists region. split; [done|].
        by apply filterRegions_spec in Hin as (? & _).
  - split; [|by intros [? ?]]. intros _. split; [|done].
    eexists. split; [reflexivity|]. done.
Qed.

(** A tick launches only jobs it selected. *)
Lemma tick_launched_due (now : time.Time) (s : MetricScheduler) (order : list string)
    (finished : list nat) (job : ScheduledJob) :
  job ∈ launched (snd (tick now s order finished)) →
  (∃ k, jobs s !! k = Some job) ∧ NextRun job < now.
Proof.
  intros Hin. unfold tick in Hin. cbn [snd] in Hin.
  assert (Hsel : job ∈ jobsToRun now s order).
  { rewrite (dispatch_partition (Z.to_nat (MaxConcurrentJobs (config s)))
                                (jobsToRun now s order) (jobSemaphore s) finished).
    apply elem_of_app. by left. }
  apply jobsToRun_spec in Hsel as ((k & _ & Hk) & _ & Hdue & _).
  split; [by exists k | exact Hdue].
Qed.

(** X27. A freshly scheduled job waits. No tick whose clock reading is at
    most 100 ms after every reading taken while the collector was
    scheduled launches a job with the identifier of one of the kept
    regions, whatever the order of the table and the state of the
    semaphore. *)
Theorem scheduled_job_waits_100ms {C} (registry : gmap string C) (clock : nat → time.Time)
    (s : MetricScheduler) (collectorName : string) (regions : list string)
    (interval : time.Duration) (now : time.Time) (order : list string)
    (finished : list nat) (region : string) :
  is_Some (registry !! collectorName) →
  region ∈ filterRegions s regions →
  (∀ j, now ≤ clock j + 100 * time.Millisecond) →
  let s' := snd (ScheduleCollector registry clock s collectorName regions interval) in
  ∀ job, job ∈ launched (snd (tick now s' order finished)) →
         jobs s' !! jobID collectorName region ≠ Some job.
Proof.
  intros [c Hreg] Hkept Hearly. cbv zeta. intros job Hlaunched Hjob.
  apply tick_launched_due in Hlaunched as (_ & Hdue).
  unfold ScheduleCollector, collectors.Get in Hjob. rewrite Hreg in Hjob.
  cbn [snd jobs withJobs] in Hjob.
  destruct (storeJobs_stored collectorName interval clock (filterRegions s regions)
                             0%nat (jobs s) region Hkept) as (j & _ & Hlookup).
  rewrite Hlookup in Hjob. injection Hjob as <-.
  cbn [NextRun] in Hdue. unfold time.Add in Hdue. specialize (Hearly j). lia.
Qed.

(** X28. Unscheduling. For an identifier the table does not hold,
    JOB_NOT_FOUND is returned and the scheduler is left alone. Otherwise
    nil is returned and the identifier leaves both the table and the
    active jobs, every other entry staying. So scheduling one region of a
    registered collector under an identifier that was free, and then
    unscheduling it, gives back the job table. *)
Theorem UnscheduleCollector_outcomes {C} (registry : gmap string C) (clock : nat → time.Time)
    (s : MetricScheduler) (collectorName region : string) (interval : time.Duration) :
  (let '(err, s') := UnscheduleCollector s collectorName region in
   (err = None ↔ is_Some (jobs s !! jobID collectorName region)) ∧
   (err ≠ None →
      (∃ e, err = Some e ∧ errors.Code e = "JOB_NOT_FOUND") ∧ s' = s) ∧
   (err = None →
      jobs s' = delete (jobID collectorName region) (jobs s) ∧
      (jobID collectorName region ∉ activeJobs s') ∧
      (∀ k, k ≠ jobID collectorName region → (k ∈ activeJobs s' ↔ k ∈ activeJobs s)))) ∧
  (is_Some (registry !! collectorName) →
   jobs s !! jobID collectorName region = None →
   EnabledRegions (config s) = [] ∨ region ∈ EnabledRegions (config s) →
   let s1 := snd (ScheduleCollector registry clock s collectorName [region] interval) in
   fst (UnscheduleCollector s1 collectorName region) = None ∧
   jobs (snd (UnscheduleCollector s1 collectorName region)) = jobs s).
Proof.
  split.
  - unfold UnscheduleCollector.
    destruct (jobs s !! jobID collectorName region) as [job|] eqn:Hjob.
    + split; [|split].
      * split; [by eexists | done].
      * intros Herr. by destruct Herr.
      * intros _. cbn [jobs activeJobs withJobs].
        split; [done|]. split.
        { rewrite elem_of_difference, elem_of_singleton. tauto. }
        intros k Hk. rewrite elem_of_difference, elem_of_singleton. tauto.
    + split; [|split].
      * split; [discriminate | by intros [? ?]].
      * intros _. split; [|done]. eexists. split; [reflexivity|]. done.
      * discriminate.
  - intros [c Hreg] Hfree Hkept. cbv zeta.
    unfold ScheduleCollector, collectors.Get. rewrite Hreg. cbn [snd].
    assert (Hfilter : filterRegions s [region] = [region]).
    { unfold filterRegions. case_bool_decide as Hlen; [|done].
      destruct Hkept as [Hnil|Hin]; [rewrite Hnil in Hlen; cbn in Hlen; lia|].
      rewrite filter_cons, decide_True by (by apply elem_of_list_to_set). done. }
    rewrite Hfilter. cbn [storeJobs].
    unfold UnscheduleCollector. cbn [jobs withJobs].
    rewrite lookup_insert_eq. cbn [fst snd jobs withJobs]. split; [done|].
    rewrite delete_insert_eq. by apply delete_id.
Qed.

(** X29. Job identifiers are not unique. The identifier joins the name of
    the collector and the region by a hyphen; when two different pairs
    give the same identifier, scheduling the second pair replaces the job
    of the first: the table then holds the job of the second collector
    under the shared identifier, and no job of the first one. *)
Theorem jobID_collision_replaces_job {C} (registry : gmap string C)
    (clock clock' : nat → time.Time) (s : MetricScheduler)
    (first second : string) (region region' : string)
    (interval interval' : time.Duration) :
  jobID first region = jobID second region' →
  first ≠ second →
  is_Some (registry !! first) → is_Some (registry !! second) →
  EnabledRegions (config s) = [] →
  (∀ k job, jobs s !! k = Some job → CollectorName job ≠ first) →
  let s1 := snd (ScheduleCollector registry clock s first [region] interval) in
  let s2 := snd (ScheduleCollector registry clock' s1 second [region'] interval') in
  (∃ job, jobs s1 !! jobID first region = Some job ∧ CollectorName job = first) ∧
  (∃ job, jobs s2 !! jobID first region = Some job ∧
          CollectorName job = second ∧ Region job = region') ∧
  (∀ k job, jobs s2 !! k = Some job → CollectorName job ≠ first).
Proof.
  intros Hsame Hdiff [c Hc] [c' Hc'] Hall Hnone. cbv zeta.
  unfold ScheduleCollector, collectors.Get. rewrite Hc. cbn [snd].
  rewrite Hc'. cbn [snd].
  assert (Hf : ∀ (s0 : MetricScheduler) l,
             EnabledRegions (config s0) = [] → filterRegions s0 l = l).
  { intros s0 l Hs0. unfold filterRegions. rewrite Hs0. done. }
  rewrite !Hf by done. cbn [storeJobs jobs withJobs].
  split_and!.
  - eexists. rewrite lookup_insert_eq. done.
  - eexists. rewrite Hsame, lookup_insert_eq. done.
  - intros k job. rewrite <- Hsame.
    destruct (decide (k = jobID first region)) as [->|Hne].
    + rewrite lookup_insert_eq. intros [= <-]. cbn. by apply not_eq_sym.
    + rewrite !lookup_insert_ne by (by apply not_eq_sym). apply Hnone.
Qed.

End SchedulerJobTable.

Section SchedulerJobRun.
Import scheduler.
Local Open Scope Z_scope.

(** X30. Running one job whose struct the table still holds. Exactly one
    counter moves by one: the failures when the result carries an error,
    as it does when the registry lacks the job's collector, the
    completions otherwise. The job leaves the active set and gives back
    its token. Its entry in the table records the result and the time of
    the run, and is due next one interval later: no tick up to then
    selects it. Every other entry is as before. Had the table lost the
    struct meanwhile, the job being unscheduled or scheduled anew, the
    run would have left the whole table as it was. *)
Theorem executeJob_bookkeeping {C} (registry : gmap string C)
    (collect : C → string → collectors.CollectionResult)
    (now : time.Time) (s : MetricScheduler) (job : ScheduledJob) :
  jobs s !! ID job = Some job →
  completedJobs s < 2 ^ 63 - 1 → failedJobs s < 2 ^ 63 - 1 →
  - 2 ^ 63 ≤ completedJobs s → - 2 ^ 63 ≤ failedJobs s →
  let result := ExecuteJob registry collect job in
  let s' := executeJob registry collect now s job true in
  (registry !! CollectorName job = None → collectors.Error result ≠ None) ∧
  (collectors.Error result ≠ None →
     failedJobs s' = failedJobs s + 1 ∧ completedJobs s' = completedJobs s) ∧
  (collectors.Error result = None →
     completedJobs s' = completedJobs s + 1 ∧ failedJobs s' = failedJobs s) ∧
  (ID job ∉ activeJobs s') ∧
  jobSemaphore s' = pred (jobSemaphore s) ∧
  (∃ job', jobs s' !! ID job = Some job' ∧
           ID job' = ID job ∧ Interval job' = Interval job ∧
           LastRun job' = Some now ∧ LastResult job' = Some result ∧
           NextRun job' = now + Interval job ∧
           ∀ t, t ≤ now + Interval job → isDue t s' job' = false) ∧
  (∀ k, k ≠ ID job → jobs s' !! k = jobs s !! k) ∧
  jobs (executeJob registry collect now s job false) = jobs s.
Proof.
  intros Hjob Hc Hf Hc' Hf'. cbv zeta.
  unfold executeJob, endJob, recordJob, beginJob.
  set (result := ExecuteJob registry collect job).
  split_and!.
  - intros Hnone. unfold result, ExecuteJob, collectors.Get. by rewrite Hnone.
  - intros Herr. destruct (collectors.Error result); [|done]. cbn.
    rewrite wrap64_small by lia. done.
  - intros Herr. rewrite Herr. cbn. rewrite wrap64_small by lia. done.
  - destruct (collectors.Error result); cbn;
      rewrite elem_of_difference, elem_of_singleton; tauto.
  - destruct (collectors.Error result); done.
  - exists (ranAt now result job). split_and!; try done.
    + destruct (collectors.Error result); cbn;
        rewrite lookup_alter_eq, Hjob; done.
    + intros t Ht. apply not_true_is_false. intros Hdue.
      apply isDue_spec in Hdue as (_ & Hnext & _).
      cbn [NextRun ranAt] in Hnext. unfold time.Add in Hnext. lia.
  - intros k Hk.
    destruct (collectors.Error result); cbn; by rewrite lookup_alter_ne.
  - by destruct (collectors.Error result).
Qed.

End SchedulerJobRun.

(** * The properties at work on examples *)

Section CollectorExamples.
Import collectors.
Local Open Scope Z_scope.

(** A collection in which every attempt is throttled still leaves the
    running collector healthy right after it. *)
Lemma Health_nil_after_any_collection_witness :
  ∃ run,
    CollectWithRetry quietSurroundings "us-east-1" alwaysThrottled runningCollector
    = Some run ∧
    Error (returned run) ≠ None ∧
    Health 0 (collectorAfter run) = HealthNil.
Proof.
  assert (Hrun : ∃ run,
            CollectWithRetry quietSurroundings "us-east-1" alwaysThrottled
                             runningCollector = Some run ∧
            Error (returned run) ≠ None)
    by (eexists; split; [vm_compute; reflexivity | discriminate]).
  destruct Hrun as (run & Hrun & Herr). exists run.
  split; [exact Hrun|]. split; [exact Herr|].
  apply (Health_nil_after_any_collection quietSurroundings "us-east-1" alwaysThrottled
           runningCollector run 0).
  - reflexivity.
  - reflexivity.
  - exact Hrun.
  - vm_compute. split; reflexivity.
  - vm_compute. split; [discriminate | reflexivity].
Defined.

(** One success against three errors is a high error rate. *)
Lemma Health_error_rate_witness :
  Health 0 strugglingCollector
  = HealthError (Some (errors.NewValidationError "HIGH_ERROR_RATE"
                                                 "collector has high error rate")).
Proof.
  destruct (Health_error_rate 0 strugglingCollector) as (Hhigh & _).
  - reflexivity.
  - exact I.
  - vm_compute. discriminate.
  - vm_compute. discriminate.
  - vm_compute. reflexivity.
  - apply Hhigh. vm_compute. split; reflexivity.
Defined.

(** The collector of the examples has no region of its own: it starts
    with a global region and not without one. *)
Lemma Start_succeeds_iff_config_valid_witness :
  fst (Start ec2Collector ["us-east-1"]) = None ∧
  status (snd (Start ec2Collector ["us-east-1"])) = StatusRunning.
Proof.
  pose proof (Start_succeeds_iff_config_valid ec2Collector ["us-east-1"]) as Hstart.
  destruct (Start ec2Collector ["us-east-1"]) as [err bc'].
  destruct Hstart as (Hiff & Hok & _).
  - discriminate.
  - assert (Herr : err = None).
    { apply Hiff.
      split_and!; [reflexivity | reflexivity | discriminate | right; discriminate]. }
    split; [exact Herr|]. apply Hok. exact Herr.
Defined.

Lemma Register_then_Unregister_witness :
  Unregister (<["ec2" := ec2Collector]> ∅) "ec2" = (None, ∅).
Proof.
  destruct (Register_then_Unregister ∅ ec2Collector (<["ec2" := ec2Collector]> ∅))
    as (_ & Hback).
  - reflexivity.
  - exact Hback.
Defined.

End CollectorExamples.

Section HealthExamples.
Import health.

Lemma RunChecks_results_witness :
  results (RunChecks (λ c, Some (builtinCheck (λ _, true) c))
                     (map_to_list (checkers (wiredManager soundConfig))).*1
                     (wiredManager soundConfig))
    !! "basic"
  = Some (BasicCheck "aws-monitor").
Proof.
  destruct (RunChecks_results (λ c, Some (builtinCheck (λ _, true) c))
              (map_to_list (checkers (wiredManager soundConfig))).*1
              (wiredManager soundConfig)) as (_ & _ & Hlookup).
  - reflexivity.
  - intros k c r Hk [= <-]. rewrite builtinCheck_name.
    by apply (wiredManager_names soundConfig).
  - rewrite Hlookup. reflexivity.
Defined.

(** With a sound configuration and every region answering the program
    reports healthy. *)
Lemma wiredManager_overall_witness :
  oh_Status (GetHealth (results
    (RunChecks (λ c, Some (builtinCheck (λ _, true) c))
               (map_to_list (checkers (wiredManager soundConfig))).*1
               (wiredManager soundConfig))))
  = StatusHealthy.
Proof.
  destruct (wiredManager_overall soundConfig (λ _, true)
              (map_to_list (checkers (wiredManager soundConfig))).*1)
    as (Hhealthy & _).
  - reflexivity.
  - apply Hhealthy. split; [reflexivity|]. repeat constructor.
Defined.

End HealthExamples.

Section SchedulerExamples.
Import scheduler.
Local Open Scope Z_scope.

Lemma scheduler_Start_outcomes_witness :
  fst (Start 0 idleScheduler) = None ∧
  status (snd (Start 0 idleScheduler)) = StatusRunning.
Proof.
  pose proof (scheduler_Start_outcomes 0 idleScheduler) as Hstart.
  destruct (Start 0 idleScheduler) as [err s'].
  destruct Hstart as (Hiff & _ & Hok & _).
  - discriminate.
  - assert (Herr : err = None) by (apply Hiff; vm_compute; repeat split).
    split; [exact Herr|]. by apply Hok.
Defined.

Lemma scheduler_second_Stop_panics_witness :
  ∃ s1 s2 s3,
    Start 0 idleScheduler = (None, s1) ∧
    Stop (λ _, "5m0s") s1 false true = Stopped None s2 true ∧
    Start 1 s2 = (None, s3) ∧
    Stop (λ _, "5m0s") s3 true true = ClosePanic.
Proof.
  destruct (scheduler_second_Stop_panics (λ _, "5m0s") 0 1 idleScheduler)
    as (s1 & s2 & s3 & H1 & H2 & H3 & _ & H4).
  - discriminate.
  - reflexivity.
  - exists s1, s2, s3. split_and!; [exact H1 | exact H2 | exact H3 | apply H4].
Defined.

(** A job scheduled at time 0 is not launched by a tick at 100 ms. *)
Lemma scheduled_job_waits_100ms_witness :
  Forall (λ job,
            jobs (snd (ScheduleCollector ec2Registry (λ _, 0) idleScheduler "ec2"
                                         ["us-east-1"] (5 * time.Minute)))
              !! jobID "ec2" "us-east-1" ≠ Some job)
         (launched (snd (tick (100 * time.Millisecond)
                              (snd (ScheduleCollector ec2Registry (λ _, 0) idleScheduler
                                      "ec2" ["us-east-1"] (5 * time.Minute)))
                              ["ec2-us-east-1"] []))).
Proof.
  apply Forall_forall.
  apply (scheduled_job_waits_100ms ec2Registry (λ _, 0) idleScheduler "ec2"
           ["us-east-1"] (5 * time.Minute) (100 * time.Millisecond)
           ["ec2-us-east-1"] [] "us-east-1").
  - by eexists.
  - vm_compute. by left.
  - intros j. vm_compute. discriminate.
Defined.

(** Collector "ec2-us" in region "east-1" and collector "ec2" in region
    "us-east-1" share the identifier "ec2-us-east-1". *)
Lemma jobID_collision_replaces_job_witness :
  ∃ job,
    jobs (snd (ScheduleCollector ec2Registry (λ _, 0)
                 (snd (ScheduleCollector ec2Registry (λ _, 0) idleScheduler "ec2-us"
                                         ["east-1"] time.Minute))
                 "ec2" ["us-east-1"] time.Minute))
      !! jobID "ec2-us" "east-1" = Some job ∧
    CollectorName job = "ec2" ∧ Region job = "us-east-1".
Proof.
  destruct (jobID_collision_replaces_job ec2Registry (λ _, 0) (λ _, 0) idleScheduler
              "ec2-us" "ec2" "east-1" "us-east-1" time.Minute time.Minute)
    as (_ & Hsecond & _).
  - reflexivity.
  - discriminate.
  - by eexists.
  - by eexists.
  - reflexivity.
  - intros k job Hk.
    change (jobs idleScheduler) with (∅ : gmap string ScheduledJob) in Hk.
    by rewrite lookup_empty in Hk.
  - exact Hsecond.
Defined.

Lemma executeJob_bookkeeping_witness :
  completedJobs (executeJob ec2Registry quietCollect 7 busyScheduler sampleJob true) = 1 ∧
  jobSemaphore (executeJob ec2Registry quietCollect 7 busyScheduler sampleJob true) = 0%nat.
Proof.
  destruct (executeJob_bookkeeping ec2Registry quietCollect 7 busyScheduler sampleJob)
    as (_ & _ & Hdone & _ & Htoken & _).
  - reflexivity.
  - vm_compute. reflexivity.
  - vm_compute. reflexivity.
  - vm_compute. discriminate.
  - vm_compute. discriminate.
  - split; [|exact Htoken]. by apply Hdone.
Defined.

End SchedulerExamples.
